(** * tangram.py: a shallow embedding of [TangramPuzzle] and its properties

    The program reads a TeX file of [\PieceTangram] directives
    ([_parse_tex]), computes the polygon of every piece ([_rotate],
    [_compute_vertices]) and writes a TikZ picture ([draw_pieces]).

    Python values are modelled as the program has them: [str] as [string]
    (code points below 256), [int] as [Z], [float] as the kernel's binary64
    [float], exceptions as the [Raise] branch of a result type. *)

From Stdlib Require Import ZArith List Bool Ascii String Lia Floats Permutation.
From Stdlib Require Import DecimalString DecimalFacts DecimalPos DecimalZ.
Import ListNotations.

Open Scope string_scope.
Open Scope Z_scope.

(** ** Exceptions *)

(** The exceptions the program can raise.  [OSError] stands for the whole
    family that file access raises ([FileNotFoundError], [PermissionError]
    and the like). *)
Inductive exn : Type :=
| AssertionError (msg : string)
| IndexError
| KeyError
| OverflowError
| ValueError
| OSError
| UnicodeDecodeError.

Inductive result (A : Type) : Type :=
| Ok (a : A)
| Raise (e : exn).

Arguments Ok {A} a.
Arguments Raise {A} e.

Definition bind {A B : Type} (r : result A) (k : A -> result B) : result B :=
  match r with
  | Ok a => k a
  | Raise e => Raise e
  end.

Notation "x <- r ;; k" := (bind r (fun x => k))
  (at level 61, r at next level, right associativity).
Notation "' p <- r ;; k" := (bind r (fun x => let 'p := x in k))
  (at level 61, p pattern, r at next level, right associativity).

(** ** The part of Python's [str] the program uses *)

Module PyStr.

Definition code (c : ascii) : N := N_of_ascii c.

(** [str.isspace] on one code point below 256: what [str.strip()] removes. *)
Definition is_space (c : ascii) : bool :=
  let n := code c in
  (((9 <=? n) && (n <=? 13)) || ((28 <=? n) && (n <=? 32))
   || (n =? 133) || (n =? 160))%N.

(** What [int(str)] skips around the literal: the ASCII white space, and
    the two Latin-1 spaces, which it first turns into [" "].  The separators
    0x1c-0x1f are not skipped. *)
Definition is_int_space (c : ascii) : bool :=
  let n := code c in
  (((9 <=? n) && (n <=? 13)) || (n =? 32) || (n =? 133) || (n =? 160))%N.

(** The line boundaries of [str.splitlines]. *)
Definition is_linebreak (c : ascii) : bool :=
  let n := code c in
  (((10 <=? n) && (n <=? 13)) || ((28 <=? n) && (n <=? 30)) || (n =? 133))%N.

Definition is_empty (s : string) : bool :=
  match s with
  | EmptyString => true
  | String _ _ => false
  end.

Section Strip.
Variable sp : ascii -> bool.

Fixpoint lstrip_by (s : string) : string :=
  match s with
  | EmptyString => EmptyString
  | String c s' => if sp c then lstrip_by s' else s
  end.

Fixpoint rstrip_by (s : string) : string :=
  match s with
  | EmptyString => EmptyString
  | String c s' =>
      let r := rstrip_by s' in
      if sp c && is_empty r then EmptyString else String c r
  end.

Definition strip_by (s : string) : string := rstrip_by (lstrip_by s).
End Strip.

(** [s.strip()] *)
Definition strip : string -> string := strip_by is_space.

(** [s.startswith(p)] *)
Fixpoint startswith (p s : string) : bool :=
  match p, s with
  | EmptyString, _ => true
  | String a p', String b s' => Ascii.eqb a b && startswith p' s'
  | String _ _, EmptyString => false
  end.

(** [needle in hay] *)
Fixpoint contains (needle hay : string) : bool :=
  if startswith needle hay then true
  else match hay with
       | EmptyString => false
       | String _ hay' => contains needle hay'
       end.

(** [s.replace(" ", "")] *)
Fixpoint remove_spaces (s : string) : string :=
  match s with
  | EmptyString => EmptyString
  | String c s' =>
      if Ascii.eqb c " " then remove_spaces s' else String c (remove_spaces s')
  end.

(** [s.split(sep)] for a one-character separator: never an empty list. *)
Fixpoint split (sep : ascii) (s : string) : list string :=
  match s with
  | EmptyString => [EmptyString]
  | String c s' =>
      if Ascii.eqb c sep then EmptyString :: split sep s'
      else match split sep s' with
           | [] => [String c EmptyString]
           | w :: ws => String c w :: ws
           end
  end.

(** [sep.join(ws)] *)
Fixpoint join (sep : string) (ws : list string) : string :=
  match ws with
  | [] => EmptyString
  | [w] => w
  | w :: ws' => w ++ sep ++ join sep ws'
  end.

(** [s.splitlines()]: [cur] is the line being read, [None] between lines.
    A final line without a terminator is kept only if it is not empty, and
    ["\r\n"] is one boundary. *)
Fixpoint splitlines_go (cur : option string) (s : string) : list string :=
  match s with
  | EmptyString =>
      match cur with
      | None => []
      | Some l => [l]
      end
  | String c s' =>
      let l := match cur with None => EmptyString | Some l => l end in
      if is_linebreak c then
        l :: match s' with
             | String c' s'' =>
                 if Ascii.eqb c "013" && Ascii.eqb c' "010"
                 then splitlines_go None s''
                 else splitlines_go None s'
             | EmptyString => splitlines_go None s'
             end
      else splitlines_go (Some (l ++ String c EmptyString)) s'
  end.

Definition splitlines (s : string) : list string := splitlines_go None s.

(** The text before the first [c] and the text after it. *)
Fixpoint span_until (c : ascii) (s : string) : option (string * string) :=
  match s with
  | EmptyString => None
  | String a s' =>
      if Ascii.eqb a c then Some (EmptyString, s')
      else match span_until c s' with
           | Some (u, v) => Some (String a u, v)
           | None => None
           end
  end.

(** Every character of [s] satisfies [p]. *)
Fixpoint forall_chars (p : ascii -> bool) (s : string) : bool :=
  match s with
  | EmptyString => true
  | String c s' => p c && forall_chars p s'
  end.

(** [s] without the prefix [p], when it starts with it. *)
Fixpoint drop_prefix (p s : string) : option string :=
  match p, s with
  | EmptyString, _ => Some s
  | String a p', String b s' => if Ascii.eqb a b then drop_prefix p' s' else None
  | String _ _, EmptyString => None
  end.

End PyStr.

(** ** [int(str)] and [str(int)] *)

Module PyInt.

Definition digit_of (c : ascii) : option Z :=
  let n := N_of_ascii c in
  if ((48 <=? n) && (n <=? 57))%N then Some (Z.of_N n - 48) else None.

(** Digits with single underscores between them, as [PyLong_FromString]
    scans them; [prev_us] says the previous character was an underscore. *)
Fixpoint scan_digits (s : string) (acc : Z) (prev_us : bool) : option Z :=
  match s with
  | EmptyString => if prev_us then None else Some acc
  | String c s' =>
      if Ascii.eqb c "_" then
        if prev_us then None else scan_digits s' acc true
      else match digit_of c with
           | Some d => scan_digits s' (10 * acc + d) false
           | None => None
           end
  end.

(** An unsigned literal starts with a digit. *)
Definition unsigned_literal (s : string) : option Z :=
  match s with
  | String c _ =>
      match digit_of c with
      | Some _ => scan_digits s 0 false
      | None => None
      end
  | EmptyString => None
  end.

(** The optional sign in front of the literal. *)
Definition split_sign (t : string) : bool * string :=
  match t with
  | String "-" r => (true, r)
  | String "+" r => (false, r)
  | _ => (false, t)
  end.

(** The interpreter's default limit on the digits of a decimal literal
    ([sys.int_info.default_max_str_digits]). *)
Definition max_str_digits : nat := 4300.

(** The number of digits of a literal, its underscores not counted. *)
Fixpoint count_digits (s : string) : nat :=
  match s with
  | EmptyString => O
  | String c s' =>
      match digit_of c with
      | Some _ => S (count_digits s')
      | None => count_digits s'
      end
  end.

(** [int(s)], base 10.  A literal of more than [max_str_digits] digits
    raises [ValueError], as a text that is not a literal does. *)
Definition int (s : string) : result Z :=
  let '(neg, body) := split_sign (PyStr.strip_by PyStr.is_int_space s) in
  match unsigned_literal body with
  | Some v =>
      if (count_digits body <=? max_str_digits)%nat
      then Ok (if neg then - v else v)
      else Raise ValueError
  | None => Raise ValueError
  end.

(** [str(n)], for an [n] of at most [max_str_digits] digits; the program
    applies it to [piece_index] only. *)
Definition str (n : Z) : string := NilZero.string_of_int (Z.to_int n).

(** The value of a decimal numeral read from the left, after [acc]. *)
Fixpoint uint_value (d : Decimal.uint) (acc : Z) : Z :=
  match d with
  | Decimal.Nil => acc
  | Decimal.D0 d' => uint_value d' (10 * acc)
  | Decimal.D1 d' => uint_value d' (10 * acc + 1)
  | Decimal.D2 d' => uint_value d' (10 * acc + 2)
  | Decimal.D3 d' => uint_value d' (10 * acc + 3)
  | Decimal.D4 d' => uint_value d' (10 * acc + 4)
  | Decimal.D5 d' => uint_value d' (10 * acc + 5)
  | Decimal.D6 d' => uint_value d' (10 * acc + 6)
  | Decimal.D7 d' => uint_value d' (10 * acc + 7)
  | Decimal.D8 d' => uint_value d' (10 * acc + 8)
  | Decimal.D9 d' => uint_value d' (10 * acc + 9)
  end.

Definition is_digit (c : ascii) : bool :=
  match digit_of c with
  | Some _ => true
  | None => false
  end.

Definition is_sign_or_digit (c : ascii) : bool := is_digit c || Ascii.eqb c "-".

End PyInt.

(** ** The part of Python's [float] the program uses

    Python's [float] is the IEEE 754 binary64 format, which is what the
    kernel's [float] is; [+], [-], [*] and the comparisons are the primitive
    ones.  [math.cos] and [math.sin] belong to the platform's C library and
    [repr] to the interpreter: the model takes them as parameters. *)

Module PyFloat.

Open Scope float_scope.

(** [float(n)] for an [int n], as every mixed [int]/[float] operation first
    does: rounded to nearest, ties to even; too large an [int] raises. *)
Definition of_int (n : Z) : result float :=
  match binary_normalize prec emax n 0%Z false with
  | S754_infinity _ => Raise OverflowError
  | sf => Ok (SF2Prim sf)
  end.

(** [a / b] rounded to the nearest integer, ties to even ([0 <= a], [0 < b]). *)
Definition div_half_even (a b : Z) : Z :=
  let q := (a / b)%Z in
  match (2 * (a mod b) ?= b)%Z with
  | Lt => q
  | Gt => (q + 1)%Z
  | Eq => if Z.even q then q else (q + 1)%Z
  end.

(** [round(x, 5)]: the exact value of [x] is rounded to 5 decimal places,
    ties to even, and the decimal [n / 10^5] obtained is converted back to
    the nearest double; the sign of [x] is kept, and a value that is not
    finite is returned as it is. *)
Definition round5 (x : float) : float :=
  match Prim2SF x with
  | S754_finite s m e =>
      if (0 <=? e)%Z then x
      else
        match div_half_even (Zpos m * 100000) (2 ^ (- e)) with
        | Zpos n =>
            SF2Prim (SFdiv prec emax (S754_finite s n 0) (S754_finite false 100000 0))
        | _ => SF2Prim (S754_zero s)
        end
  | _ => x
  end.

(** [math.pi] and the constant [degToRad] of [math.radians]. *)
Definition pi : float := 0x1.921fb54442d18p+1.
Definition degToRad : float := pi / 180.

(** [math.radians(d)] for an [int d]. *)
Definition radians (d : Z) : result float :=
  fd <- of_int d ;;
  Ok (fd * degToRad).

(** What the model needs of the platform: [math.cos], [math.sin] and
    [repr] of a float.  Their values at zero are the ones the C standard
    fixes (Annex F: [cos(0) = 1], [sin(0) = 0]). *)
Record platform : Type := {
  cos : float -> float;
  sin : float -> float;
  repr : float -> string;
  cos_zero : cos 0 = 1;
  sin_zero : sin 0 = 0
}.

End PyFloat.

(** ** Files *)

(** The program reads one file and writes another.  What the file system
    answers is no part of the program: the answers are parameters of the
    model. *)

Module PyFile.

(** [open(name, 'r')] followed by [read()] in a [with] block: the text of
    the file, or the exception raised ([FileNotFoundError] and the other
    [OSError]s, [UnicodeDecodeError]). *)
Definition reading : Type := result string.

(** A file opened for writing: what [open(name, 'w')] raises, what the
    call number [k] of [write] raises, and what closing the file raises when
    the [with] block is left; [None] when the operation succeeds. *)
Record writing : Type := {
  open_raises : option exn;
  write_raises : nat -> option exn;
  close_raises : option exn
}.

(** No operation on the file fails. *)
Definition never_fails (w : writing) : Prop :=
  open_raises w = None /\ (forall k, write_raises w k = None) /\ close_raises w = None.

(** The file system that never fails. *)
Definition reliable : writing :=
  {| open_raises := None; write_raises := fun _ => None; close_raises := None |}.

(** What the statements at the end of the module meet: the text of
    [kangaroo.tex], what [print] raises on the standard output, and the
    answers for [pieces_output.tex]. *)
Record world : Type := {
  kangaroo : reading;
  print_raises : option exn;
  pieces_output : writing
}.

End PyFile.

(** ** The program *)

Module Tangram.

Import PyStr PyFloat PyFile.

Definition point : Type := (float * float)%type.

(** The value stored in [self.transformations] for each label. *)
Record transformation : Type := {
  xflip : bool;
  yflip : bool;
  rotate : Z
}.

(** An entry of [self.pieces] as [_parse_tex] leaves it. *)
Record piece : Type := {
  name : string;
  x : Z;
  y : Z;
  transform : transformation
}.

(** An entry of [self.pieces] once [_compute_vertices] has added the key
    ['vertices'] to it. *)
Record resolved : Type := {
  base : piece;
  vertices : list point
}.

Definition piece_labels : list string :=
  [ "Large triangle 1";
    "Large triangle 2";
    "Medium triangle";
    "Small triangle 1";
    "Small triangle 2";
    "Square";
    "Parallelogram" ].

(** *** The regular expression of [_parse_tex] *)

Definition pattern : string :=
  "\\PieceTangram\[TangSol\](?:<([^>]*)>)?\(([^,]+),([^)]+)\)\{([^}]+)\}".

(** Every repetition is over a negated one-character class and is followed
    by the excluded character, so a match attempt at a given position has
    no choice to make: each group runs to the first occurrence of its
    closing character.  The optional group cannot be skipped when the text
    goes on with an opening angle bracket, since a parenthesis must follow. *)

Definition tag : string := "\PieceTangram[TangSol]".

(** The four groups: options (absent when the group did not take part),
    x, y and the piece type. *)
Definition groups : Type := (option string * string * string * string)%type.

Definition nonempty_until (c : ascii) (s : string) : option (string * string) :=
  match span_until c s with
  | Some (u, v) => if is_empty u then None else Some (u, v)
  | None => None
  end.

Definition match_anchor_type (o : option string) (s : string) : option groups :=
  match s with
  | String "(" s1 =>
      match nonempty_until "," s1 with
      | Some (x_coord, s2) =>
          match nonempty_until ")" s2 with
          | Some (y_coord, String "{" s3) =>
              match nonempty_until "}" s3 with
              | Some (piece_type, _) => Some (o, x_coord, y_coord, piece_type)
              | None => None
              end
          | _ => None
          end
      | None => None
      end
  | _ => None
  end.

(** A match attempt at the start of [s]. *)
Definition match_here (s : string) : option groups :=
  match drop_prefix tag s with
  | Some (String "<" s1) =>
      match span_until ">" s1 with
      | Some (o, s2) => match_anchor_type (Some o) s2
      | None => None
      end
  | Some s1 => match_anchor_type None s1
  | None => None
  end.

(** [re.search]: the leftmost position where an attempt succeeds. *)
Fixpoint re_search (s : string) : option groups :=
  match match_here s with
  | Some g => Some g
  | None =>
      match s with
      | EmptyString => None
      | String _ s' => re_search s'
      end
  end.

(** *** [_parse_tex] *)

(** The body of [for opt in options]. *)
Definition apply_option (t : transformation) (opt : string) : result transformation :=
  if String.eqb opt "xscale=-1" then
    Ok {| xflip := true; yflip := yflip t; rotate := rotate t |}
  else if String.eqb opt "yscale=-1" then
    Ok {| xflip := xflip t; yflip := true; rotate := rotate t |}
  else if startswith "rotate=" opt then
    match nth_error (split "=" opt) 1 with
    | Some v =>
        n <- PyInt.int v ;;
        Ok {| xflip := xflip t; yflip := yflip t; rotate := n mod 360 |}
    | None => Raise IndexError
    end
  else Ok t.

Fixpoint apply_options (t : transformation) (options : list string)
  : result transformation :=
  match options with
  | [] => Ok t
  | opt :: options' =>
      t' <- apply_option t opt ;;
      apply_options t' options'
  end.

Definition no_transformation : transformation :=
  {| xflip := false; yflip := false; rotate := 0 |}.

(** [xflip], [yflip] and [rotate] after the [if options_str:] block. *)
Definition parse_options (options_str : option string) : result transformation :=
  match options_str with
  | Some (String _ _ as s) =>
      apply_options no_transformation (map strip (split "," s))
  | _ => Ok no_transformation
  end.

(** A [dict] with string keys, in insertion order. *)
Definition dict (V : Type) : Type := list (string * V).

Fixpoint dict_set {V : Type} (d : dict V) (k : string) (v : V) : dict V :=
  match d with
  | [] => [(k, v)]
  | (k', v') :: d' =>
      if String.eqb k' k then (k', v) :: d' else (k', v') :: dict_set d' k v
  end.

Fixpoint dict_get {V : Type} (d : dict V) (k : string) : result V :=
  match d with
  | [] => Raise KeyError
  | (k', v') :: d' => if String.eqb k' k then Ok v' else dict_get d' k
  end.

(** [l[i]] for [0 <= i]. *)
Definition list_get {A : Type} (l : list A) (i : nat) : result A :=
  match nth_error l i with
  | Some a => Ok a
  | None => Raise IndexError
  end.

(** The object under construction while [_parse_tex] runs. *)
Record parse_state : Type := {
  transformations : dict transformation;
  pieces : list piece;
  piece_index : nat
}.

Definition initial_state : parse_state :=
  {| transformations := []; pieces := []; piece_index := 0 |}.

(** The test of the list comprehension that selects the lines. *)
Definition selected (line : string) : bool :=
  contains "\PieceTangram" line && negb (startswith "%" (strip line)).

(** The body of [for line in lines] once the line has matched. *)
Definition parse_match (st : parse_state) (g : groups) : result parse_state :=
  let '(options_str, x_coord, y_coord, piece_type) := g in
  t <- parse_options options_str ;;
  label <- list_get piece_labels (piece_index st) ;;
  let transformations' := dict_set (transformations st) label t in
  label' <- list_get piece_labels (piece_index st) ;;
  xv <- PyInt.int x_coord ;;
  yv <- PyInt.int y_coord ;;
  label'' <- list_get piece_labels (piece_index st) ;;
  t' <- dict_get transformations' label'' ;;
  Ok {| transformations := transformations';
        pieces := pieces st
                  ++ [ {| name := label'; x := xv; y := yv; transform := t' |} ];
        piece_index := S (piece_index st) |}.

(** One iteration of [for line in lines]. *)
Definition parse_line (st : parse_state) (line : string) : result parse_state :=
  match re_search (remove_spaces line) with
  | None => Ok st
  | Some g => parse_match st g
  end.

Fixpoint parse_lines (lines : list string) (st : parse_state) : result parse_state :=
  match lines with
  | [] => Ok st
  | line :: lines' =>
      st' <- parse_line st line ;;
      parse_lines lines' st'
  end.

(** The loop and the final [assert], on the lines of the file. *)
Definition parse_file_lines (file_lines : list string) : result parse_state :=
  st <- parse_lines (filter selected file_lines) initial_state ;;
  if Nat.eqb (piece_index st) 7 then Ok st
  else Raise (AssertionError
                ("Expected 7 pieces, found " ++ PyInt.str (Z.of_nat (piece_index st)))).

(** [_parse_tex], on the text read from [self.filename]. *)
Definition _parse_tex (content : string) : result parse_state :=
  parse_file_lines (splitlines content).

(** [_parse_tex] with its [with] block: the file is read, which may raise,
    and its text is parsed. *)
Definition _parse_tex_file (file : reading) : result parse_state :=
  content <- file ;;
  _parse_tex content.

(** *** [_rotate] and [_compute_vertices] *)

Open Scope float_scope.

Section Geometry.

Variable P : platform.

Definition _rotate (x y : float) (degrees : Z) : result point :=
  radians <- PyFloat.radians degrees ;;
  let cos_a := cos P radians in
  let sin_a := sin P radians in
  Ok (round5 (x * cos_a - y * sin_a), round5 (x * sin_a + y * cos_a)).

(** The coordinates [0] and [1] of the templates are [int] in the source;
    the products of [_rotate] convert them to the floats [0] and [1]. *)
Definition shape_templates : dict (list point) :=
  [ ("Large triangle 1", [(0, 0); (1, 0); (0, 1)]);
    ("Large triangle 2", [(0, 0); (1, 0); (0, 1)]);
    ("Medium triangle", [(0, 0); (1, 0); (0, 1)]);
    ("Small triangle 1", [(0, 0); (1, 0); (0, 1)]);
    ("Small triangle 2", [(0, 0); (1, 0); (0, 1)]);
    ("Square", [(0, 0); (1, 0); (1, 1); (0, 1)]);
    ("Parallelogram", [(0, 0); (1, 0); (1.5, 1); (0.5, 1)]) ].

(** The body of [for x, y in base_vertices]: the point appended to
    [transformed]. *)
Definition transform_vertex (x_anchor y_anchor : Z) (t : transformation)
           (v : point) : result point :=
  let '(x, y) := v in
  ' (x_rot, y_rot) <- _rotate x y (rotate t) ;;
  let x_rot := if xflip t then x_rot * (-1) else x_rot in
  let y_rot := if yflip t then y_rot * (-1) else y_rot in
  fx <- of_int x_anchor ;;
  let x_final := round5 (x_rot + fx) in
  fy <- of_int y_anchor ;;
  let y_final := round5 (y_rot + fy) in
  Ok (x_final, y_final).

Fixpoint transform_vertices (x_anchor y_anchor : Z) (t : transformation)
         (base_vertices transformed : list point) : result (list point) :=
  match base_vertices with
  | [] => Ok transformed
  | v :: base_vertices' =>
      v' <- transform_vertex x_anchor y_anchor t v ;;
      transform_vertices x_anchor y_anchor t base_vertices' (transformed ++ [v'])
  end.

(** The key of [min]: [lambda p: (p[0], -p[1])]. *)
Definition min_key (p : point) : point := (fst p, - snd p).

(** [a < b] on two pairs of floats: the first components that differ
    decide. *)
Definition tuple_lt (a b : point) : bool :=
  if fst a =? fst b then
    if snd a =? snd b then false else snd a <? snd b
  else fst a <? fst b.

(** [a == b] on two pairs of distinct float objects. *)
Definition tuple_eq (a b : point) : bool :=
  (fst a =? fst b) && (snd a =? snd b).

(** [min(seq, key=min_key)] keeps the first item whose key no later key
    is below.  The item is returned with its position, which stands for
    the identity of the object. *)
Fixpoint min_scan (best_i : nat) (best : point) (i : nat) (l : list point)
  : nat * point :=
  match l with
  | [] => (best_i, best)
  | p :: l' =>
      if tuple_lt (min_key p) (min_key best)
      then min_scan i p (S i) l'
      else min_scan best_i best (S i) l'
  end.

Definition min_point_of (l : list point) : result (nat * point) :=
  match l with
  | [] => Raise ValueError
  | p :: l' => Ok (min_scan 0%nat p 1%nat l')
  end.

(** [l.index(v)] where [v] is the object at position [j] of [l]: the first
    item that is this object or is equal to it. *)
Fixpoint index_scan (i : nat) (l : list point) (j : nat) (v : point) : result nat :=
  match l with
  | [] => Raise ValueError
  | p :: l' =>
      if Nat.eqb i j || tuple_eq p v then Ok i
      else index_scan (S i) l' j v
  end.

(** One iteration of [for piece in self.pieces]. *)
Definition resolve_piece (p : piece) : result resolved :=
  base_vertices <- dict_get shape_templates (name p) ;;
  transformed <- transform_vertices (x p) (y p) (transform p) base_vertices [] ;;
  ' (j, min_point) <- min_point_of transformed ;;
  min_idx <- index_scan 0%nat transformed j min_point ;;
  Ok {| base := p;
        vertices := skipn min_idx transformed ++ firstn min_idx transformed |}.

Fixpoint _compute_vertices (ps : list piece) : result (list resolved) :=
  match ps with
  | [] => Ok []
  | p :: ps' =>
      r <- resolve_piece p ;;
      rs <- _compute_vertices ps' ;;
      Ok (r :: rs)
  end.

(** [TangramPuzzle(filename)], on the text of the file. *)
Definition TangramPuzzle (content : string) : result (list resolved) :=
  st <- _parse_tex content ;;
  _compute_vertices (pieces st).

(** [TangramPuzzle(filename)], the reading of the file included. *)
Definition TangramPuzzle_file (file : reading) : result (list resolved) :=
  st <- _parse_tex_file file ;;
  _compute_vertices (pieces st).

(** *** [draw_pieces] *)

(** [min(l)] and [max(l)] on floats: the first item that no later item is
    below (above). *)
Fixpoint float_min_scan (best : float) (l : list float) : float :=
  match l with
  | [] => best
  | v :: l' => float_min_scan (if v <? best then v else best) l'
  end.

Fixpoint float_max_scan (best : float) (l : list float) : float :=
  match l with
  | [] => best
  | v :: l' => float_max_scan (if best <? v then v else best) l'
  end.

Definition float_min (l : list float) : result float :=
  match l with
  | [] => Raise ValueError
  | v :: l' => Ok (float_min_scan v l')
  end.

Definition float_max (l : list float) : result float :=
  match l with
  | [] => Raise ValueError
  | v :: l' => Ok (float_max_scan v l')
  end.

Definition all_x (rs : list resolved) : list float :=
  flat_map (fun r => map fst (vertices r)) rs.

Definition all_y (rs : list resolved) : list float :=
  flat_map (fun r => map snd (vertices r)) rs.

Definition nl : string := String "010" EmptyString.

(** [f"({x},{y})"] *)
Definition format_point (v : point) : string :=
  ("(" ++ repr P (fst v) ++ "," ++ repr P (snd v) ++ ")")%string.

(** The line that draws the grid from one corner to the other. *)
Definition grid_line (min_x min_y max_x max_y : float) : string :=
  ("  \draw[step=5mm,gray,very thin] " ++ format_point (min_x, min_y)
   ++ " grid " ++ format_point (max_x, max_y) ++ ";" ++ nl)%string.

(** The line that draws one piece. *)
Definition piece_line (r : resolved) : result string :=
  first <- list_get (vertices r) 0 ;;
  let coords :=
    join " -- " (map format_point (vertices r) ++ [format_point first])%list in
  Ok ("  \draw[thick, fill=blue!20] " ++ coords ++ ";" ++ nl)%string.

Fixpoint piece_lines (rs : list resolved) : result (list string) :=
  match rs with
  | [] => Ok []
  | r :: rs' =>
      l <- piece_line r ;;
      ls <- piece_lines rs' ;;
      Ok (l :: ls)
  end.

(** The corners of the grid: [(min_x, min_y, max_x, max_y)]. *)
Definition grid_corners (rs : list resolved)
  : result (float * float * float * float) :=
  mn_x <- float_min (all_x rs) ;;
  mx_x <- float_max (all_x rs) ;;
  mn_y <- float_min (all_y rs) ;;
  mx_y <- float_max (all_y rs) ;;
  Ok (mn_x - 2, mn_y - 2, mx_x + 2, mx_y + 2).

(** What [draw_pieces] writes to the file when no operation on the file
    fails: the strings, in order. *)
Definition picture (rs : list resolved) : result (list string) :=
  ' (min_x, min_y, max_x, max_y) <- grid_corners rs ;;
  ls <- piece_lines rs ;;
  Ok (([ ("\documentclass{article}" ++ nl)%string;
         ("\usepackage{tikz}" ++ nl)%string;
         ("\usepackage[margin=0.5in]{geometry}" ++ nl)%string;
         ("\begin{document}" ++ nl)%string;
         ("\begin{tikzpicture}[scale=1]" ++ nl)%string;
         grid_line min_x min_y max_x max_y;
         ("  \filldraw[red] (0,0) circle (1pt);" ++ nl)%string ]
       ++ ls
       ++ [ ("\end{tikzpicture}" ++ nl)%string;
            ("\end{document}" ++ nl)%string ])%list).

(** The calls of [f.write] of the [with] block, in order: the text each one
    is given, or the exception raised while this text is computed
    ([vertices[0]] on a piece without vertices). *)
Definition statements (min_x min_y max_x max_y : float) (rs : list resolved)
  : list (result string) :=
  ([ Ok ("\documentclass{article}" ++ nl)%string;
     Ok ("\usepackage{tikz}" ++ nl)%string;
     Ok ("\usepackage[margin=0.5in]{geometry}" ++ nl)%string;
     Ok ("\begin{document}" ++ nl)%string;
     Ok ("\begin{tikzpicture}[scale=1]" ++ nl)%string;
     Ok (grid_line min_x min_y max_x max_y);
     Ok ("  \filldraw[red] (0,0) circle (1pt);" ++ nl)%string ]
   ++ map piece_line rs
   ++ [ Ok ("\end{tikzpicture}" ++ nl)%string;
        Ok ("\end{document}" ++ nl)%string ])%list.

(** The statements run one after the other, from the call number [k] of
    [write]: the texts written so far, and [Ok] or the exception that stops
    the block. *)
Fixpoint write_lines (w : writing) (k : nat) (texts : list (result string))
         (written : list string) : list string * result unit :=
  match texts with
  | [] => (written, Ok tt)
  | Raise e :: _ => (written, Raise e)
  | Ok text :: texts' =>
      match write_raises w k with
      | Some e => (written, Raise e)
      | None => write_lines w (S k) texts' (written ++ [text])%list
      end
  end.

(** [draw_pieces]: the texts written to the file, and how the call ends.
    The corners of the grid are computed before the file is opened; leaving
    the [with] block closes the file, also when the block raises, and an
    exception of [close] then replaces the one of the block. *)
Definition draw_pieces (w : writing) (rs : list resolved)
  : list string * result unit :=
  match grid_corners rs with
  | Raise e => ([], Raise e)
  | Ok (min_x, min_y, max_x, max_y) =>
      match open_raises w with
      | Some e => ([], Raise e)
      | None =>
          let '(written, r) :=
            write_lines w 0 (statements min_x min_y max_x max_y rs) [] in
          (written,
           match close_raises w with
           | Some e => Raise e
           | None => r
           end)
      end
  end.

End Geometry.

End Tangram.

(** ** The properties, as the specification words them *)

Module Spec.

Import PyStr PyFloat Tangram.
Open Scope float_scope.

Section Resolve.

Variable P : platform.

(** Step 1: rotation about the origin by [theta] radians, each coordinate
    rounded to 5 decimal digits. *)
Definition rotate_point (theta : float) (v : point) : point :=
  let '(x, y) := v in
  (round5 (x * cos P theta - y * sin P theta),
   round5 (x * sin P theta + y * cos P theta)).

(** Step 2: the rotated x is negated when x-flip is set, the rotated y
    when y-flip is set. *)
Definition flip_point (t : transformation) (v : point) : point :=
  ((if xflip t then - fst v else fst v),
   (if yflip t then - snd v else snd v)).

(** Step 3: the anchor is added and each sum rounded to 5 decimal digits. *)
Definition translate_point (ax ay : float) (v : point) : point :=
  (round5 (fst v + ax), round5 (snd v + ay)).

Definition resolve_point (theta : float) (t : transformation) (ax ay : float)
           (v : point) : point :=
  translate_point ax ay (flip_point t (rotate_point theta v)).

End Resolve.





Section Resolves.

Variable P : platform.


End Resolves.

(** [vs] is [l] read cyclically from its position [k]. *)
Definition rotation_at (k : nat) (l vs : list point) : Prop :=
  (k < List.length l)%nat /\ vs = (skipn k l ++ firstn k l)%list.

(** Canonical start: no vertex has a smaller x than the first one, and
    among the vertices with the same x as the first one, none has a
    strictly greater y. *)
Definition canonical_start (vs : list point) : Prop :=
  match vs with
  | [] => False
  | first :: _ =>
      forall v, In v vs ->
        (fst v <? fst first) = false /\
        ((fst v =? fst first) = true -> (snd first <? snd v) = false)
  end.

(** The same with the order read positively: the first vertex has the
    minimum x, and the maximum y among the vertices with that x. *)
Definition min_x_max_y_first (vs : list point) : Prop :=
  match vs with
  | [] => False
  | first :: _ =>
      forall v, In v vs ->
        (fst first <=? fst v) = true /\
        ((fst v =? fst first) = true -> (snd v <=? snd first) = true)
  end.

Definition no_nan (vs : list point) : Prop :=
  Forall (fun v => is_nan (fst v) = false /\ is_nan (snd v) = false) vs.

(** [m] is a minimum (maximum) of [l]: it is in [l] and nothing in [l] is
    below (above) it. *)
Definition is_minimum (m : float) (l : list float) : Prop :=
  In m l /\ forall v, In v l -> (v <? m) = false.

Definition is_maximum (m : float) (l : list float) : Prop :=
  In m l /\ forall v, In v l -> (m <? v) = false.

(** [m] is the least (greatest) of the coordinates [coord] of all the
    vertices of all the pieces [rs]: a vertex of a piece has it, and no
    vertex of any piece is below (above) it. *)
Definition least_coordinate (coord : point -> float) (rs : list resolved) (m : float)
  : Prop :=
  (exists r v, In r rs /\ In v (vertices r) /\ coord v = m) /\
  forall r v, In r rs -> In v (vertices r) -> (coord v <? m) = false.

Definition greatest_coordinate (coord : point -> float) (rs : list resolved) (m : float)
  : Prop :=
  (exists r v, In r rs /\ In v (vertices r) /\ coord v = m) /\
  forall r v, In r rs -> In v (vertices r) -> (m <? coord v) = false.

(** The groups of the lines of a file that are selected and match the
    pattern, in file order. *)
Fixpoint matched_groups (file_lines : list string) : list groups :=
  match file_lines with
  | [] => []
  | line :: file_lines' =>
      if selected line then
        match re_search (remove_spaces line) with
        | Some g => g :: matched_groups file_lines'
        | None => matched_groups file_lines'
        end
      else matched_groups file_lines'
  end.

(** What a matching line says without its piece type. *)
Definition untyped (g : groups) : option string * string * string :=
  let '(o, x_coord, y_coord, _) := g in (o, x_coord, y_coord).

(** The placement a matching line gives: options and anchor. *)
Definition placement_of (g : groups) : result (Z * Z * transformation) :=
  let '(o, x_coord, y_coord, _) := g in
  t <- parse_options o ;;
  xv <- PyInt.int x_coord ;;
  yv <- PyInt.int y_coord ;;
  Ok (xv, yv, t).

(** A line is a valid directive of the grammar [TAG<OPTION,...>(X,Y){TYPE}]
    when it is selected, matches the pattern, and its [X] and [Y] are
    integers. *)
Definition valid_directive (line : string) : bool :=
  selected line &&
  match re_search (remove_spaces line) with
  | Some (_, x_coord, y_coord, _) =>
      match PyInt.int x_coord, PyInt.int y_coord with
      | Ok _, Ok _ => true
      | _, _ => false
      end
  | None => false
  end.

(** The loop of [_parse_tex] seen on the groups of the matching lines. *)
Fixpoint parse_groups (gs : list groups) (st : parse_state) : result parse_state :=
  match gs with
  | [] => Ok st
  | g :: gs' =>
      st' <- parse_match st g ;;
      parse_groups gs' st'
  end.

(** The piece that [_parse_tex] makes of the placement [g] gives. *)
Definition placed (g : groups) (p : piece) : Prop :=
  placement_of g = Ok (x p, y p, transform p).

(** A line that the pattern does not match, or that is not selected. *)
Definition unmatched (line : string) : bool :=
  negb (selected line) || match re_search (remove_spaces line) with
                          | Some _ => false
                          | None => true
                          end.

(** The text of a directive with an option list, written from its parts. *)
Definition directive_line (options x_coord y_coord piece_type : string) : string :=
  "\PieceTangram[TangSol]<" ++ options ++ ">(" ++ x_coord ++ "," ++ y_coord
  ++ "){" ++ piece_type ++ "}".

(** The text of the option that sets the rotation to [n]. *)
Definition rotate_option (n : Z) : string := "rotate=" ++ PyInt.str n.

(** An integer of at most 4300 decimal digits, the longest literal that
    [int] accepts. *)
Definition short_enough (n : Z) : Prop := Z.abs n < 10 ^ 4300.

(** An option without a comma, as the pieces of [split(',')] are. *)
Definition comma_free (w : string) : Prop :=
  forall_chars (fun c => negb (Ascii.eqb c ",")) w = true.

(** A matching line whose options and anchor are well formed. *)
Definition well_placed (g : groups) : Prop := exists d, placement_of g = Ok d.

(** [math.radians] does not raise on [d]. *)
Definition radians_defined (d : nat) : bool :=
  match radians (Z.of_nat d) with
  | Ok _ => true
  | Raise _ => false
  end.

(** A piece whose anchor converts to floats: [x_rot + x_anchor] and
    [y_rot + y_anchor] do not raise. *)
Definition convertible (p : piece) : Prop :=
  (exists fx, of_int (x p) = Ok fx) /\ (exists fy, of_int (y p) = Ok fy).

End Spec.

(** ** Ranks: the order of the floats that are not NaN *)

Module FloatRank.

(** Comparing two spec floats that are not NaN is comparing their ranks
    lexicographically. *)
Definition rank : Type := (Z * Z * Z)%type.

Definition sf_rank (a : spec_float) : option rank :=
  match a with
  | S754_nan => None
  | S754_infinity true => Some (-2, 0, 0)
  | S754_infinity false => Some (2, 0, 0)
  | S754_zero _ => Some (0, 0, 0)
  | S754_finite true m e => Some (-1, - e, Zneg m)
  | S754_finite false m e => Some (1, e, Zpos m)
  end.

Definition rank_lt (a b : rank) : Prop :=
  let '(a1, a2, a3) := a in
  let '(b1, b2, b3) := b in
  a1 < b1 \/ (a1 = b1 /\ (a2 < b2 \/ (a2 = b2 /\ a3 < b3))).

Definition rank_opp (a : rank) : rank :=
  let '(a1, a2, a3) := a in (- a1, - a2, - a3).

Definition frank (x : float) : option rank := sf_rank (Prim2SF x).

End FloatRank.

(** ** A platform and inputs to run the model on *)

Module Demo.

Import PyStr PyFloat Tangram Spec.
Open Scope float_scope.

(** Low-order polynomials in place of the C library, and the binary
    mantissa and exponent in place of the shortest decimal of [repr]. *)
Definition poly_cos (t : float) : float := 1 - t * t / 2 + t * t * t * t / 24.
Definition poly_sin (t : float) : float := t - t * t * t / 6.

Definition binary_repr (f : float) : string :=
  match Prim2SF f with
  | S754_zero s => if s then "-0.0" else "0.0"
  | S754_infinity s => if s then "-inf" else "inf"
  | S754_nan => "nan"
  | S754_finite s m e =>
      ((if s then "-" else "") ++ PyInt.str (Zpos m) ++ "p" ++ PyInt.str e)%string
  end.

Definition poly_platform : PyFloat.platform :=
  {| cos := poly_cos;
     sin := poly_sin;
     repr := binary_repr;
     cos_zero := eq_refl;
     sin_zero := eq_refl |}.

(** Seven directives, with a comment and a line of another macro. *)
Definition seven_lines : list string :=
  [ "\begin{EnvTangramTikz}";
    directive_line "" "0" "0" "TangGrandTri";
    directive_line "rotate=90" "2" "0" "TangGrandTri";
    "% " ++ directive_line "" "9" "9" "TangCar";
    directive_line "xscale=-1" "-1" "3" "TangMoyTri";
    directive_line "rotate=-45" "1" "1" "TangPetTri";
    directive_line "yscale=-1,rotate=180" "0" "-2" "TangPetTri";
    directive_line "xscale=-1" "0" "0" "TangCar";
    "  \PieceTangram[TangSol]( 4 , 5 ){TangPara}";
    "\end{EnvTangramTikz}" ]%string.

Definition extra_line : string := directive_line "" "7" "7" "TangPara".

(** A line that matches the pattern and whose x is not an integer. *)
Definition bad_anchor_line : string := directive_line "" "a" "1" "TangCar".

(** A line of the macro that the pattern does not match. *)
Definition broken_line : string := "\PieceTangram[TangSol](3;4){TangCar}".

Definition unlines (ls : list string) : string :=
  concat EmptyString (map (fun l => (l ++ nl)%string) ls).

Definition square_piece : piece :=
  {| name := "Square"; x := 0; y := 0;
     transform := {| xflip := true; yflip := false; rotate := 0 |} |}.

Definition triangle_piece : piece :=
  {| name := "Medium triangle"; x := 2; y := 3;
     transform := {| xflip := false; yflip := true; rotate := 90 |} |}.

(** What the program computes on [seven_lines]. *)
Definition seven_state : parse_state :=
  Eval vm_compute in
    match _parse_tex (unlines seven_lines) with
    | Ok st => st
    | Raise _ => initial_state
    end.

Definition seven_resolved : list resolved :=
  Eval vm_compute in
    match TangramPuzzle poly_platform (unlines seven_lines) with
    | Ok rs => rs
    | Raise _ => []
    end.

Definition triangle_resolved : resolved :=
  Eval vm_compute in
    match resolve_piece poly_platform triangle_piece with
    | Ok r => r
    | Raise _ => {| base := triangle_piece; vertices := [] |}
    end.

End Demo.

(** * The rest of the program *)

(** [__str__], the statements at the end of the module, and the ordering
    step of [_compute_vertices] on its own. *)

Module Script.

Import PyStr PyFloat PyFile Tangram.
Local Open Scope list_scope.

(** The last three statements of the loop of [_compute_vertices]:
    [min], [index] and the two slices, on the list [transformed]. *)
Definition canonical_order (transformed : list point) : result (list point) :=
  ' (j, min_point) <- min_point_of transformed ;;
  min_idx <- index_scan 0%nat transformed j min_point ;;
  Ok (skipn min_idx transformed ++ firstn min_idx transformed).

Section Output.

Variable P : platform.

(** The line of one vertex, two blanks and the pair. *)
Definition vertex_line (v : point) : string :=
  ("  (" ++ repr P (fst v) ++ ", " ++ repr P (snd v) ++ ")")%string.

(** What the loop of [__str__] appends to [output] for one piece. *)
Definition piece_dump (r : resolved) : list string :=
  (name (base r) ++ ":")%string :: map vertex_line (vertices r).

Definition dump_lines (rs : list resolved) : list string := flat_map piece_dump rs.

(** [__str__] *)
Definition __str__ (rs : list resolved) : string := join nl (dump_lines rs).

(** The statements at the end of the module: what [print] has written,
    what has been written to [pieces_output.tex], and how the program ends.
    An exception ends the program: nothing is printed when the constructor
    raises, and nothing is written to the file when [print] or [_rotate]
    raises. *)
Definition script (env : world) : string * list string * result unit :=
  match TangramPuzzle_file P (kangaroo env) with
  | Raise e => (EmptyString, [], Raise e)
  | Ok puzzle =>
      match print_raises env with
      | Some e => (EmptyString, [], Raise e)
      | None =>
          let printed := (__str__ puzzle ++ nl)%string in
          match _rotate P 1 0 90 with
          | Raise e => (printed, [], Raise e)
          | Ok _ =>
              let '(written, r) := draw_pieces P (pieces_output env) puzzle in
              (printed, written, r)
          end
      end
  end.

End Output.

End Script.

(** * The vocabulary of the further properties *)

Module Props.

Import PyStr PyInt PyFloat Tangram Spec Script.
Local Open Scope list_scope.
Local Open Scope Z_scope.

(** No [c] in [s]. *)
Definition free_of (c : ascii) (s : string) : Prop :=
  forall_chars (fun a => negb (Ascii.eqb a c)) s = true.

(** No white space in [s], and no [c]. *)
Definition solid (c : ascii) (s : string) : Prop :=
  forall_chars (fun a => negb (is_space a) && negb (Ascii.eqb a c)) s = true.

(** A directive without an option list. *)
Definition plain_directive_line (x_coord y_coord piece_type : string) : string :=
  ("\PieceTangram[TangSol](" ++ x_coord ++ "," ++ y_coord ++ "){" ++ piece_type ++ "}")%string.

(** The text of a directive whose first group is [o]. *)
Definition directive_text (o : option string) (x_coord y_coord piece_type : string) : string :=
  match o with
  | Some options => directive_line options x_coord y_coord piece_type
  | None => plain_directive_line x_coord y_coord piece_type
  end.

(** The parts of a directive that the pattern can tell apart: none is cut
    short by its closing delimiter, and the anchor and the type are not
    empty. *)
Definition delimited (o : option string) (x_coord y_coord piece_type : string) : Prop :=
  match o with Some options => free_of ">" options | None => True end /\
  (is_empty x_coord = false /\ free_of "," x_coord) /\
  (is_empty y_coord = false /\ free_of ")" y_coord) /\
  (is_empty piece_type = false /\ free_of "}" piece_type).

(** The options and the anchor of the groups [g] parse, as a boolean. *)
Definition well_placedb (g : groups) : bool :=
  match placement_of g with
  | Ok _ => true
  | Raise _ => false
  end.

(** The table that lists the transformations of [ps] under their names. *)
Definition table_of (ps : list piece) : dict transformation :=
  map (fun p => (name p, transform p)) ps.

(** The invariant of the loop of [_parse_tex]: the table of transformations
    lists the pieces placed so far, which bear the first labels in order. *)
Definition consistent (st : parse_state) : Prop :=
  transformations st = table_of (pieces st) /\
  map name (pieces st) = firstn (piece_index st) piece_labels /\
  (piece_index st <= 7)%nat.

(** A directive to write: options, anchor, piece type. *)
Definition written : Type := (string * Z * Z * string)%type.

Definition write_directive (d : written) : string :=
  let '(options, ax, ay, piece_type) := d in
  directive_line options (PyInt.str ax) (PyInt.str ay) piece_type.

(** A directive that can be written on a line and read back: its options
    parse to [t], neither the options nor the type hold white space or
    their closing delimiter, and the anchor has at most 4300 digits. *)
Definition writable (d : written) (t : transformation) : Prop :=
  let '(options, ax, ay, piece_type) := d in
  solid ">" options /\ parse_options (Some options) = Ok t /\
  solid "}" piece_type /\ is_empty piece_type = false /\
  short_enough ax /\ short_enough ay.

Definition placed_piece (lp : string * (written * transformation)) : piece :=
  let '(label, ((_, ax, ay, _), t)) := lp in
  {| name := label; x := ax; y := ay; transform := t |}.

(** The number of vertices of the template of [label]. *)
Definition template_size (label : string) : nat :=
  match dict_get shape_templates label with
  | Ok T => List.length T
  | Raise _ => 0%nat
  end.

(** The point [f] is strictly before every point of [l] in the order of the
    keys of [min]. *)
Definition strictly_first (f : point) (l : list point) : Prop :=
  forall v, In v l -> tuple_lt (min_key f) (min_key v) = true.

(** A float that is a number: a zero or a finite value. *)
Definition is_number (x : float) : Prop :=
  match Prim2SF x with
  | S754_zero _ | S754_finite _ _ _ => True
  | _ => False
  end.

(** Two zeros, of any signs. *)
Definition both_zero (x y : float) : Prop :=
  exists s s', Prim2SF x = S754_zero s /\ Prim2SF y = S754_zero s'.

Section Path.

Variable P : platform.

(** The line that draws the polygon [vs], closed on the vertex [first]. *)
Definition closed_path (first : point) (vs : list point) : string :=
  ("  \draw[thick, fill=blue!20] "
   ++ join " -- " (map (format_point P) (vs ++ [first])) ++ ";" ++ nl)%string.

(** The lines that [draw_pieces] writes for the pieces [rs]: one closed
    path each. *)
Definition paths_of (rs : list resolved) (ls : list string) : Prop :=
  Forall2 (fun r l => exists first rest,
             vertices r = first :: rest /\ l = closed_path first (vertices r)) rs ls.

End Path.

(** Seven directives to write, with the transformations of their options. *)
Definition seven_written : list (written * transformation) :=
  [ (("", 0, 0, "TangGrandTri"), no_transformation);
    (("rotate=90", 2, 0, "TangGrandTri"),
     {| xflip := false; yflip := false; rotate := 90 |});
    (("xscale=-1", -1, 3, "TangMoyTri"),
     {| xflip := true; yflip := false; rotate := 0 |});
    (("rotate=-45", 1, 1, "TangPetTri"),
     {| xflip := false; yflip := false; rotate := 315 |});
    (("yscale=-1,rotate=180", 0, -2, "TangPetTri"),
     {| xflip := false; yflip := true; rotate := 180 |});
    (("xscale=-1", 0, 0, "TangCar"),
     {| xflip := true; yflip := false; rotate := 0 |});
    (("", 4, 5, "TangPara"), no_transformation) ].

End Props.

(** * Facts about the run-time model *)

(** ** Strings and integers *)

Module PyStrFacts.

Import PyStr.

Lemma forall_chars_app p s t :
  forall_chars p (s ++ t) = forall_chars p s && forall_chars p t.
Proof. induction s as [|c s IH]; cbn; [reflexivity|]. now rewrite IH, andb_assoc. Qed.

Lemma forall_chars_impl (p q : ascii -> bool) s :
  (forall c, p c = true -> q c = true) ->
  forall_chars p s = true -> forall_chars q s = true.
Proof.
  intros Hpq. induction s as [|c s IH]; cbn; [reflexivity|].
  rewrite !andb_true_iff. intros [Hc Hs]. auto.
Qed.

Section StripFacts.
Variable sp : ascii -> bool.

Lemma rstrip_by_id s :
  forall_chars (fun c => negb (sp c)) s = true -> rstrip_by sp s = s.
Proof.
  induction s as [|c s IH]; cbn; [reflexivity|].
  rewrite andb_true_iff, negb_true_iff. intros [Hc Hs].
  now rewrite Hc, IH.
Qed.

Lemma lstrip_by_id s :
  forall_chars (fun c => negb (sp c)) s = true -> lstrip_by sp s = s.
Proof.
  destruct s as [|c s]; cbn; [reflexivity|].
  rewrite andb_true_iff, negb_true_iff. now intros [-> _].
Qed.

Lemma strip_by_id s :
  forall_chars (fun c => negb (sp c)) s = true -> strip_by sp s = s.
Proof. intros H. unfold strip_by. now rewrite lstrip_by_id, rstrip_by_id. Qed.
End StripFacts.

Lemma split_without sep s :
  forall_chars (fun c => negb (Ascii.eqb c sep)) s = true -> split sep s = [s].
Proof.
  induction s as [|c s IH]; cbn; [reflexivity|].
  rewrite andb_true_iff, negb_true_iff. intros [Hc Hs].
  now rewrite Hc, IH.
Qed.

Lemma split_app sep s t :
  forall_chars (fun c => negb (Ascii.eqb c sep)) s = true ->
  split sep (s ++ String sep t) = s :: split sep t.
Proof.
  induction s as [|c s IH]; cbn.
  - now rewrite Ascii.eqb_refl.
  - rewrite andb_true_iff, negb_true_iff. intros [Hc Hs].
    now rewrite Hc, IH.
Qed.

Lemma split_join sep ws :
  ws <> [] ->
  Forall (fun w => forall_chars (fun c => negb (Ascii.eqb c sep)) w = true) ws ->
  split sep (join (String sep EmptyString) ws) = ws.
Proof.
  induction ws as [|w ws IH]; [congruence|]. intros _ H.
  inversion H as [|? ? Hw Hws]; subst.
  destruct ws as [|w' ws].
  - cbn. now apply split_without.
  - change (join (String sep "") (w :: w' :: ws))
      with (w ++ String sep (join (String sep "") (w' :: ws))).
    rewrite split_app by assumption. f_equal. apply IH; [congruence|assumption].
Qed.

Lemma is_empty_app s t : is_empty (s ++ t) = is_empty s && is_empty t.
Proof. destruct s; reflexivity. Qed.

Lemma join_not_empty sep ws :
  Exists (fun w => is_empty w = false) ws -> is_empty (join sep ws) = false.
Proof.
  induction ws as [|u ws IH]; intros H; [inversion H|].
  destruct ws as [|u' ws].
  - inversion H as [? ? Hu|? ? Hn]; subst; [exact Hu|inversion Hn].
  - change (join sep (u :: u' :: ws)) with (u ++ sep ++ join sep (u' :: ws)).
    rewrite !is_empty_app.
    inversion H as [? ? Hu|? ? Hn]; subst.
    + now rewrite Hu.
    + rewrite (IH Hn). now rewrite !andb_false_r.
Qed.
Lemma span_until_app c u v :
  forall_chars (fun a => negb (Ascii.eqb a c)) u = true ->
  span_until c (u ++ String c v) = Some (u, v).
Proof.
  induction u as [|a u IH]; cbn.
  - now rewrite Ascii.eqb_refl.
  - rewrite andb_true_iff, negb_true_iff. intros [Ha Hu]. now rewrite Ha, IH.
Qed.

Lemma drop_prefix_app p s : drop_prefix p (p ++ s) = Some s.
Proof. induction p as [|a p IH]; cbn; [reflexivity|]. now rewrite Ascii.eqb_refl. Qed.

Lemma append_assoc (a b c : string) : (a ++ b) ++ c = a ++ (b ++ c).
Proof. induction a as [|x a IH]; cbn; [reflexivity|]. now rewrite IH. Qed.

Lemma remove_spaces_id s :
  forall_chars (fun a => negb (Ascii.eqb a " ")) s = true -> remove_spaces s = s.
Proof.
  induction s as [|a s IH]; cbn; [reflexivity|].
  rewrite andb_true_iff, negb_true_iff. intros [Ha Hs]. now rewrite Ha, IH.
Qed.

End PyStrFacts.

Module PyIntFacts.
Import PyStr PyInt.

Lemma scan_step c s acc d :
  digit_of c = Some d ->
  scan_digits (String c s) acc false = scan_digits s (10 * acc + d) false.
Proof.
  intros H. cbn [scan_digits]. rewrite H.
  destruct (Ascii.eqb c "_") eqn:E; [|reflexivity].
  apply Ascii.eqb_eq in E. subst. discriminate.
Qed.

Lemma scan_string_of_uint d acc :
  scan_digits (NilEmpty.string_of_uint d) acc false = Some (uint_value d acc).
Proof.
  revert acc.
  induction d; intros acc; cbn [NilEmpty.string_of_uint uint_value];
    [reflexivity|..]; (erewrite scan_step by reflexivity); rewrite IHd;
    do 2 f_equal.
  change (Z.of_N (N_of_ascii "0") - 48) with 0. lia.
Qed.

Lemma uint_value_acc d p : uint_value d (Zpos p) = Zpos (Pos.of_uint_acc d p).
Proof. revert p. induction d; intros p; cbn [uint_value Pos.of_uint_acc]; [reflexivity|..];
  rewrite <- IHd; f_equal; lia. Qed.

Lemma uint_value_0 d : uint_value d 0 = Z.of_uint d.
Proof.
  unfold Z.of_uint. induction d; cbn [uint_value Pos.of_uint]; try reflexivity;
    try (change (10 * 0) with 0; cbn [Z.add]; rewrite uint_value_acc; reflexivity).
  exact IHd.
Qed.

Lemma string_of_uint_chars d :
  forall_chars is_digit (NilEmpty.string_of_uint d) = true.
Proof. induction d; cbn; auto. Qed.

Lemma unsigned_string_of_uint d :
  d <> Decimal.Nil ->
  unsigned_literal (NilEmpty.string_of_uint d) = Some (Z.of_uint d).
Proof.
  intros Hd. rewrite <- uint_value_0. 
  destruct d; [congruence|..]; unfold unsigned_literal; 
    rewrite scan_string_of_uint; reflexivity.
Qed.

Lemma str_chars n : forall_chars is_sign_or_digit (str n) = true.
Proof.
  assert (D : forall d, forall_chars is_sign_or_digit (NilEmpty.string_of_uint d) = true).
  { intros d. apply (PyStrFacts.forall_chars_impl is_digit); [|apply string_of_uint_chars].
    intros c H. unfold is_sign_or_digit. now rewrite H. }
  unfold str. destruct n as [|p|p]; cbn [Z.to_int NilZero.string_of_int NilZero.string_of_uint].
  - reflexivity.
  - destruct (Pos.to_uint p) eqn:E; try apply D. reflexivity. 
  - cbn [forall_chars]. destruct (Pos.to_uint p) eqn:E; try apply D; reflexivity.
Qed.

Lemma str_first_digit n :
  0 <= n -> exists c s, str n = String c s /\ is_digit c = true.
Proof.
  intros Hn. unfold str. destruct n as [|p|p]; [| |lia].
  - cbn. eauto.
  - cbn [Z.to_int NilZero.string_of_int NilZero.string_of_uint].
    pose proof (Unsigned.to_uint_nonnil p) as Hnil.
    destruct (Pos.to_uint p); [congruence|..]; cbn; eauto.
Qed.

Lemma split_sign_digit c s :
  is_digit c = true -> split_sign (String c s) = (false, String c s).
Proof.
  unfold is_digit, digit_of.
  destruct c as [[] [] [] [] [] [] [] []]; cbn; intros H; try reflexivity; discriminate.
Qed.

Lemma string_of_uint_first d :
  d <> Decimal.Nil ->
  exists c s, NilEmpty.string_of_uint d = String c s /\ is_digit c = true.
Proof. destruct d; [congruence|..]; intros _; cbn; eauto. Qed.

Lemma NilZero_string_of_uint d :
  d <> Decimal.Nil -> NilZero.string_of_uint d = NilEmpty.string_of_uint d.
Proof. destruct d; [congruence|..]; reflexivity. Qed.

Lemma is_sign_or_digit_not_space c :
  is_sign_or_digit c = true -> negb (is_int_space c) = true.
Proof.
  unfold is_sign_or_digit, is_digit, digit_of, is_int_space, code.
  destruct c as [[] [] [] [] [] [] [] []]; cbn; congruence.
Qed.

Lemma count_digits_string_of_uint d :
  count_digits (NilEmpty.string_of_uint d) = Decimal.nb_digits d.
Proof. induction d; cbn; congruence. Qed.

(** The value of a numeral of [k] digits read after [acc] is between
    [acc * 10^k] and [(acc + 1) * 10^k]. *)
Lemma uint_value_bounds d : forall acc,
  0 <= acc ->
  acc * 10 ^ Z.of_nat (Decimal.nb_digits d) <= uint_value d acc
  < (acc + 1) * 10 ^ Z.of_nat (Decimal.nb_digits d).
Proof.
  induction d; intros acc Hacc; cbn [uint_value Decimal.nb_digits];
    [rewrite Z.pow_0_r; lia|..];
    rewrite Nat2Z.inj_succ, Z.pow_succ_r by lia;
    match goal with |- context [uint_value d ?a] =>
      specialize (IHd a ltac:(lia)) end;
    pose proof (Z.pow_pos_nonneg 10 (Z.of_nat (Decimal.nb_digits d)) ltac:(lia) ltac:(lia));
    nia.
Qed.

(** The numeral of a positive number has no leading zero. *)
Lemma to_uint_head p : Decimal.nzhead (Pos.to_uint p) = Pos.to_uint p.
Proof.
  pose proof (Unsigned.to_of (Pos.to_uint p)) as H.
  rewrite Unsigned.of_to in H. cbn [N.to_uint] in H.
  pose proof (Unsigned.to_uint_nonzero p) as Hz.
  unfold Decimal.unorm in H.
  destruct (Decimal.nzhead (Pos.to_uint p)) eqn:E;
    first [symmetry; exact H | contradiction].
Qed.

(** A positive number of [k] digits is between [10^(k-1)] and [10^k]. *)
Lemma to_uint_bounds p :
  10 ^ (Z.of_nat (Decimal.nb_digits (Pos.to_uint p)) - 1) <= Zpos p
  < 10 ^ Z.of_nat (Decimal.nb_digits (Pos.to_uint p)).
Proof.
  pose proof (to_uint_head p) as Hh.
  pose proof (Unsigned.of_to p) as Hv.
  assert (V : Zpos p = uint_value (Pos.to_uint p) 0).
  { rewrite uint_value_0. unfold Z.of_uint. now rewrite Hv. }
  rewrite V. split; [|pose proof (uint_value_bounds (Pos.to_uint p) 0 ltac:(lia)); lia].
  clear V Hv.
  destruct (Pos.to_uint p) as [|d|d|d|d|d|d|d|d|d|d] eqn:E;
    cbn [uint_value Decimal.nb_digits];
    rewrite ?Nat2Z.inj_succ;
    try (match goal with |- context [uint_value d ?a] =>
           pose proof (uint_value_bounds d a ltac:(lia)) as B end;
         replace (Z.succ (Z.of_nat (Decimal.nb_digits d)) - 1)
           with (Z.of_nat (Decimal.nb_digits d)) by lia;
         pose proof (Z.pow_pos_nonneg 10 (Z.of_nat (Decimal.nb_digits d))
                       ltac:(lia) ltac:(lia));
         nia).
  - now apply Unsigned.to_uint_nonnil in E.
  - exfalso. cbn [Decimal.nzhead] in Hh.
    pose proof (DecimalFacts.nb_digits_nzhead d) as L. rewrite Hh in L.
    cbn [Decimal.nb_digits] in L. lia.
Qed.

(** The numbers whose decimal text is within the limit on digits. *)
Lemma digits_within p :
  (Decimal.nb_digits (Pos.to_uint p) <=? max_str_digits)%nat = true
  <-> Zpos p < 10 ^ Z.of_nat max_str_digits.
Proof.
  pose proof (to_uint_bounds p) as [L U]. rewrite Nat.leb_le. split.
  - intros H. eapply Z.lt_le_trans; [exact U|].
    apply Z.pow_le_mono_r; lia.
  - intros H. destruct (Nat.le_gt_cases (Decimal.nb_digits (Pos.to_uint p)) max_str_digits)
      as [Hle|Hgt]; [exact Hle|exfalso].
    assert (10 ^ Z.of_nat max_str_digits
            <= 10 ^ (Z.of_nat (Decimal.nb_digits (Pos.to_uint p)) - 1))
      by (apply Z.pow_le_mono_r; lia).
    lia.
Qed.

(** [int] on the decimal text of an integer: the limit on digits decides. *)
Lemma int_str_cases n :
  int (str n)
  = if (Z.abs n <? 10 ^ Z.of_nat max_str_digits) then Ok n else Raise ValueError.
Proof.
  unfold int.
  rewrite (PyStrFacts.strip_by_id is_int_space)
    by (apply (PyStrFacts.forall_chars_impl is_sign_or_digit);
        [apply is_sign_or_digit_not_space | apply str_chars]).
  pose proof (DecimalZ.of_to n) as Hn.
  unfold str. destruct n as [|p|p]; cbn [Z.to_int NilZero.string_of_int Z.abs] in *.
  - reflexivity.
  - pose proof (Unsigned.to_uint_nonnil p) as Hnil.
    rewrite NilZero_string_of_uint by assumption.
    destruct (string_of_uint_first _ Hnil) as (c & s & E & Hc).
    rewrite E, split_sign_digit by assumption. rewrite <- E.
    rewrite unsigned_string_of_uint by assumption.
    rewrite count_digits_string_of_uint.
    cbn [Z.of_int] in Hn. rewrite Hn.
    pose proof (digits_within p) as D.
    destruct (Decimal.nb_digits (Pos.to_uint p) <=? max_str_digits)%nat;
      destruct (Z.ltb_spec (Zpos p) (10 ^ Z.of_nat max_str_digits)); try reflexivity.
    + exfalso. assert (Zpos p < 10 ^ Z.of_nat max_str_digits) by (now apply D). lia.
    + exfalso. assert (false = true) by (now apply D). discriminate.
  - pose proof (Unsigned.to_uint_nonnil p) as Hnil.
    rewrite NilZero_string_of_uint by assumption.
    cbn [split_sign]. change (Ascii.eqb "-" "-") with true.
    rewrite unsigned_string_of_uint by assumption.
    rewrite count_digits_string_of_uint.
    cbn [Z.of_int] in Hn. rewrite Hn.
    pose proof (digits_within p) as D.
    destruct (Decimal.nb_digits (Pos.to_uint p) <=? max_str_digits)%nat;
      destruct (Z.ltb_spec (Zpos p) (10 ^ Z.of_nat max_str_digits)); try reflexivity.
    + exfalso. assert (Zpos p < 10 ^ Z.of_nat max_str_digits) by (now apply D). lia.
    + exfalso. assert (false = true) by (now apply D). discriminate.
Qed.

(** Reading back the decimal text of an integer of at most
    [max_str_digits] digits gives the integer. *)
Theorem int_str n : Z.abs n < 10 ^ Z.of_nat max_str_digits -> int (str n) = Ok n.
Proof.
  intros H. rewrite int_str_cases.
  destruct (Z.ltb_spec (Z.abs n) (10 ^ Z.of_nat max_str_digits)); [reflexivity|lia].
Qed.

(** The same with the limit written out. *)
Lemma int_str_4300 n : Z.abs n < 10 ^ 4300 -> int (str n) = Ok n.
Proof. exact (int_str n). Qed.

Lemma int_str_over_4300 n : 10 ^ 4300 <= Z.abs n -> int (str n) = Raise ValueError.
Proof.
  intros H. rewrite int_str_cases.
  change (Z.of_nat max_str_digits) with 4300.
  destruct (Z.ltb_spec (Z.abs n) (10 ^ 4300)); [lia|reflexivity].
Qed.

(** Above the limit, [int] raises. *)
Theorem int_str_too_long n :
  10 ^ Z.of_nat max_str_digits <= Z.abs n -> int (str n) = Raise ValueError.
Proof.
  intros H. rewrite int_str_cases.
  destruct (Z.ltb_spec (Z.abs n) (10 ^ Z.of_nat max_str_digits)); [lia|reflexivity].
Qed.

Lemma str_not_empty n : is_empty (str n) = false.
Proof.
  unfold str. destruct n as [|p|p]; cbn [Z.to_int NilZero.string_of_int];
    try reflexivity.
  rewrite NilZero_string_of_uint by apply Unsigned.to_uint_nonnil.
  destruct (string_of_uint_first _ (Unsigned.to_uint_nonnil p)) as (c & s & -> & _).
  reflexivity.
Qed.

End PyIntFacts.

(** ** Floats *)

Module FloatOrder.

Import FloatRank.

Lemma sf_rank_opp a : sf_rank (SFopp a) = option_map rank_opp (sf_rank a).
Proof. destruct a as [[]|[]| |[] m e]; cbn; try reflexivity; rewrite ?Z.opp_involutive; reflexivity. Qed.

Lemma SFcompare_Lt a b :
  SFcompare a b = Some Lt <->
  exists ra rb, sf_rank a = Some ra /\ sf_rank b = Some rb /\ rank_lt ra rb.
Proof.
  split.
  - destruct a as [[]|[]| |[] ma ea], b as [[]|[]| |[] mb eb]; cbn; try discriminate;
      intros H; do 2 eexists; (split; [reflexivity|split; [reflexivity|]]); cbn; try lia.
    + destruct (Z.compare_spec ea eb); try discriminate; try lia.
      * change (Pos.compare_cont Eq ma mb) with (Pos.compare ma mb) in H.
        destruct (Pos.compare_spec ma mb); cbn in H; try discriminate; lia.
    + destruct (Z.compare_spec ea eb); try discriminate; try lia.
      * change (Pos.compare_cont Eq ma mb) with (Pos.compare ma mb) in H.
        destruct (Pos.compare_spec ma mb); cbn in H; try discriminate; lia.
  - intros (ra & rb & Ha & Hb & Hlt).
    destruct a as [[]|[]| |[] ma ea], b as [[]|[]| |[] mb eb]; cbn in *;
      try discriminate; injection Ha as <-; injection Hb as <-; cbn in Hlt; try lia; try reflexivity.
    + destruct (Z.compare_spec ea eb); try lia.
      * change (Pos.compare_cont Eq ma mb) with (Pos.compare ma mb).
        destruct (Pos.compare_spec ma mb); cbn; try reflexivity; lia.
      * reflexivity.
    + destruct (Z.compare_spec ea eb); try lia.
      * change (Pos.compare_cont Eq ma mb) with (Pos.compare ma mb).
        destruct (Pos.compare_spec ma mb); cbn; try reflexivity; lia.
      * reflexivity.
Qed.

Lemma SFcompare_Eq a b :
  SFcompare a b = Some Eq <->
  exists r, sf_rank a = Some r /\ sf_rank b = Some r.
Proof.
  split.
  - destruct a as [[]|[]| |[] ma ea], b as [[]|[]| |[] mb eb]; cbn; try discriminate;
      intros H; try (eexists; split; reflexivity).
    + destruct (Z.compare_spec ea eb); try discriminate.
      change (Pos.compare_cont Eq ma mb) with (Pos.compare ma mb) in H.
      destruct (Pos.compare_spec ma mb); cbn in H; try discriminate. subst.
      eexists; split; reflexivity.
    + destruct (Z.compare_spec ea eb); try discriminate.
      change (Pos.compare_cont Eq ma mb) with (Pos.compare ma mb) in H.
      destruct (Pos.compare_spec ma mb); cbn in H; try discriminate. subst.
      eexists; split; reflexivity.
  - intros (r & Ha & Hb).
    destruct a as [[]|[]| |[] ma ea], b as [[]|[]| |[] mb eb]; cbn in *;
      try discriminate; try reflexivity; rewrite <- Hb in Ha; injection Ha; intros; try lia.
    + assert (ea = eb) by lia. subst. rewrite Z.compare_refl.
      change (Pos.compare_cont Eq mb mb) with (Pos.compare mb mb). now rewrite Pos.compare_refl.
    + subst. rewrite Z.compare_refl.
      change (Pos.compare_cont Eq mb mb) with (Pos.compare mb mb). now rewrite Pos.compare_refl.
Qed.


Lemma digits2_shift52 m :
  Zpos (digits2_pos (Pos.iter xO m 52)) = Zpos (digits2_pos m) + 52.
Proof. cbn [Pos.iter digits2_pos]. lia. Qed.

Lemma iter_shr_52 m :
  iter_pos shr_1 52 {| shr_m := Zpos (Pos.iter xO m 52); shr_r := false; shr_s := false |}
  = {| shr_m := Zpos m; shr_r := false; shr_s := false |}.
Proof. reflexivity. Qed.

Lemma SFmul_neg_one a :
  valid_binary a = true ->
  SF64mul a (S754_finite true 4503599627370496 (-52)) = SFopp a.
Proof.
  destruct a as [[]|[]| |s m e]; intros V; try reflexivity.
  cbn in V. apply andb_true_iff in V. destruct V as [C B].
  unfold canonical_mantissa in C. apply Z.eqb_eq in C.
    unfold SF64mul, SFmul. rewrite xorb_true_r.
    replace (Pos.mul m 4503599627370496) with (Pos.iter xO m 52)
      by (rewrite Pos.mul_comm; reflexivity).
    unfold binary_round_aux, shr_fexp.
    cbn [Zdigits2]. rewrite digits2_shift52.
    replace (Z.pos (digits2_pos m) + 52 + (e + -52)) with (Z.pos (digits2_pos m) + e) by lia.
    rewrite C. replace (e - (e + -52)) with 52 by lia.
    unfold shr at 1. cbn [shr_record_of_loc]. rewrite iter_shr_52.
    cbn [loc_of_shr_record shr_m round_nearest_even Zdigits2].
    replace (e + -52 + 52) with e by lia.
    rewrite C, Z.sub_diag. cbn [shr shr_record_of_loc shr_m].
    rewrite B. reflexivity.
Qed.

Open Scope float_scope.

Lemma ltb_rank x y :
  (x <? y) = true <->
  exists rx ry, frank x = Some rx /\ frank y = Some ry /\ rank_lt rx ry.
Proof.
  rewrite ltb_spec. unfold SFltb, frank. rewrite <- SFcompare_Lt.
  destruct (SFcompare (Prim2SF x) (Prim2SF y)) as [[]|]; split; congruence.
Qed.

Lemma eqb_rank x y :
  (x =? y) = true <-> exists r, frank x = Some r /\ frank y = Some r.
Proof.
  rewrite eqb_spec. unfold SFeqb, frank. rewrite <- SFcompare_Eq.
  destruct (SFcompare (Prim2SF x) (Prim2SF y)) as [[]|]; split; congruence.
Qed.

Lemma frank_opp x : frank (- x) = option_map rank_opp (frank x).
Proof. unfold frank. rewrite opp_spec. apply sf_rank_opp. Qed.

Lemma rank_lt_trans a b c : rank_lt a b -> rank_lt b c -> rank_lt a c.
Proof. destruct a as [[? ?] ?], b as [[? ?] ?], c as [[? ?] ?]. cbn. lia. Qed.

Lemma rank_lt_irrefl a : ~ rank_lt a a.
Proof. destruct a as [[? ?] ?]. cbn. lia. Qed.

Lemma rank_lt_opp a b : rank_lt (rank_opp a) (rank_opp b) <-> rank_lt b a.
Proof. destruct a as [[? ?] ?], b as [[? ?] ?]. cbn. lia. Qed.

Lemma rank_total a b : rank_lt a b \/ a = b \/ rank_lt b a.
Proof.
  destruct a as [[a1 a2] a3], b as [[b1 b2] b3]. cbn.
  destruct (Z.eq_dec a1 b1), (Z.eq_dec a2 b2), (Z.eq_dec a3 b3); subst; auto; lia.
Qed.

Lemma ltb_trans x y z : (x <? y) = true -> (y <? z) = true -> (x <? z) = true.
Proof.
  rewrite !ltb_rank. intros (a & b & Ha & Hb & Hab) (b' & c & Hb' & Hc & Hbc).
  rewrite Hb in Hb'. injection Hb' as <-.
  exists a, c. eauto using rank_lt_trans.
Qed.

Lemma ltb_not_eqb x y : (x <? y) = true -> (x =? y) = false.
Proof.
  rewrite ltb_rank. intros (a & b & Ha & Hb & Hab).
  destruct (x =? y) eqn:E; [|reflexivity].
  apply eqb_rank in E. destruct E as (r & Hx & Hy).
  rewrite Hx in Ha. rewrite Hy in Hb. injection Ha as <-. injection Hb as <-.
  now apply rank_lt_irrefl in Hab.
Qed.

Lemma ltb_irrefl x : (x <? x) = false.
Proof.
  destruct (x <? x) eqn:E; [|reflexivity].
  apply ltb_rank in E. destruct E as (a & b & Ha & Hb & Hab).
  rewrite Ha in Hb. injection Hb as <-. now apply rank_lt_irrefl in Hab.
Qed.

Lemma eqb_ltb_l x y z : (x =? y) = true -> (x <? z) = (y <? z).
Proof.
  rewrite eqb_rank. intros (r & Hx & Hy).
  apply eq_true_iff_eq. rewrite !ltb_rank. 
  split; intros (a & b & Ha & Hb & Hab); exists r, b; repeat split; auto; congruence.
Qed.

Lemma eqb_ltb_r x y z : (x =? y) = true -> (z <? x) = (z <? y).
Proof.
  rewrite eqb_rank. intros (r & Hx & Hy).
  apply eq_true_iff_eq. rewrite !ltb_rank. 
  split; intros (a & b & Ha & Hb & Hab); exists a, r; repeat split; auto; congruence.
Qed.

Lemma eqb_eqb_l x y z : (x =? y) = true -> (x =? z) = (y =? z).
Proof.
  rewrite eqb_rank. intros (r & Hx & Hy).
  apply eq_true_iff_eq. rewrite !eqb_rank. 
  split; intros (a & Ha & Hb); exists r; split; congruence.
Qed.

Lemma eqb_sym x y : (x =? y) = (y =? x).
Proof.
  apply eq_true_iff_eq. rewrite !eqb_rank. split; intros (r & ? & ?); eauto.
Qed.

Lemma ltb_opp x y : (- x <? - y) = (y <? x).
Proof.
  apply eq_true_iff_eq. rewrite !ltb_rank, !frank_opp. split.
  - intros (a & b & Ha & Hb & Hab).
    destruct (frank x) as [rx|]; [|discriminate]. destruct (frank y) as [ry|]; [|discriminate].
    cbn in Ha, Hb. injection Ha as <-. injection Hb as <-.
    exists ry, rx. repeat split; auto. now apply rank_lt_opp.
  - intros (a & b & Ha & Hb & Hab). rewrite Ha, Hb. cbn.
    do 2 eexists. repeat split. now apply rank_lt_opp.
Qed.

Lemma eqb_opp x y : (- x =? - y) = (x =? y).
Proof.
  apply eq_true_iff_eq. rewrite !eqb_rank, !frank_opp. split.
  - intros (r & Hx & Hy).
    destruct (frank x) as [[[a1 a2] a3]|]; [|discriminate].
    destruct (frank y) as [[[b1 b2] b3]|]; [|discriminate].
    cbn in Hx, Hy. rewrite <- Hy in Hx. injection Hx as H1 H2 H3.
    eexists; split; [reflexivity|]. repeat f_equal; lia.
  - intros (r & Hx & Hy). rewrite Hx, Hy. eexists; split; reflexivity.
Qed.

Lemma frank_is_nan x : is_nan x = false <-> exists r, frank x = Some r.
Proof.
  unfold is_nan. rewrite negb_false_iff, eqb_rank. split.
  - intros (r & H & _). eauto.
  - intros (r & H). eauto.
Qed.

Lemma leb_rank x y :
  (x <=? y) = true <->
  exists rx ry, frank x = Some rx /\ frank y = Some ry /\ (rank_lt rx ry \/ rx = ry).
Proof.
  rewrite leb_spec. unfold SFleb, frank.
  destruct (SFcompare (Prim2SF x) (Prim2SF y)) as [[]|] eqn:E.
  - apply SFcompare_Eq in E. destruct E as (r & Hx & Hy). split; [|reflexivity].
    intros _. exists r, r. auto.
  - apply SFcompare_Lt in E. destruct E as (a & b & Hx & Hy & Hab). split; [|reflexivity].
    intros _. exists a, b. auto.
  - split; [discriminate|]. intros (a & b & Hx & Hy & [Hab|Hab]).
    + assert (SFcompare (Prim2SF x) (Prim2SF y) = Some Lt) by (apply SFcompare_Lt; eauto). congruence.
    + assert (SFcompare (Prim2SF x) (Prim2SF y) = Some Eq) by (apply SFcompare_Eq; subst; eauto). congruence.
  - split; [discriminate|]. intros (a & b & Hx & Hy & [Hab|Hab]).
    + assert (SFcompare (Prim2SF x) (Prim2SF y) = Some Lt) by (apply SFcompare_Lt; eauto). congruence.
    + assert (SFcompare (Prim2SF x) (Prim2SF y) = Some Eq) by (apply SFcompare_Eq; subst; eauto). congruence.
Qed.

(** On floats that are not NaN, "not below" is "above or equal". *)
Lemma not_ltb_leb x y :
  is_nan x = false -> is_nan y = false -> (x <? y) = false -> (y <=? x) = true.
Proof.
  rewrite !frank_is_nan. intros (a & Ha) (b & Hb) H.
  apply leb_rank. exists b, a. repeat split; auto.
  destruct (rank_total a b) as [L|[E|G]]; auto.
  assert ((x <? y) = true) by (apply ltb_rank; eauto). congruence.
Qed.

(** Multiplying by [-1], as [x_rot *= -1] does, is negating. *)
Lemma mul_neg_one x : x * (-1) = - x.
Proof.
  apply Prim2SF_inj. rewrite mul_spec, opp_spec.
  change (Prim2SF (-1)) with (S754_finite true 4503599627370496 (-52)).
  apply SFmul_neg_one, Prim2SF_valid.
Qed.

End FloatOrder.

(** * Facts about the program *)

(** ** [_parse_tex] *)

Module ParseFacts.

Import PyStr PyInt Tangram Spec PyStrFacts PyIntFacts.

(** *** Options *)

Lemma str_without c :
  is_sign_or_digit c = false ->
  forall n, forall_chars (fun a => negb (Ascii.eqb a c)) (str n) = true.
Proof.
  intros Hc n. apply (forall_chars_impl is_sign_or_digit); [|apply str_chars].
  intros a Ha. destruct (Ascii.eqb a c) eqn:E; [|reflexivity].
  apply Ascii.eqb_eq in E. congruence.
Qed.

Lemma str_no_space n : forall_chars (fun a => negb (is_space a)) (str n) = true.
Proof.
  apply (forall_chars_impl is_sign_or_digit); [|apply str_chars].
  unfold is_sign_or_digit, is_digit, digit_of, is_space, code.
  intros c. destruct c as [[] [] [] [] [] [] [] []]; cbn; congruence.
Qed.

Lemma rotate_option_split n : split "=" (rotate_option n) = ["rotate"; str n].
Proof.
  change (rotate_option n) with ("rotate" ++ String "=" (str n)).
  rewrite split_app by reflexivity.
  now rewrite split_without by (now apply str_without).
Qed.

Lemma rotate_option_no_comma n :
  forall_chars (fun a => negb (Ascii.eqb a ",")) (rotate_option n) = true.
Proof.
  unfold rotate_option. rewrite forall_chars_app.
  now rewrite str_without by reflexivity.
Qed.

Lemma rotate_option_strip n : strip (rotate_option n) = rotate_option n.
Proof.
  apply strip_by_id. unfold rotate_option. rewrite forall_chars_app.
  now rewrite str_no_space.
Qed.

(** What a [rotate=n] option does: it goes through [int] on the text of
    [n]. *)
Lemma apply_option_rotate_int t n :
  apply_option t (rotate_option n)
  = (v <- int (str n) ;;
     Ok {| xflip := xflip t; yflip := yflip t; rotate := v mod 360 |}).
Proof.
  unfold apply_option.
  change (String.eqb (rotate_option n) "xscale=-1") with false.
  change (String.eqb (rotate_option n) "yscale=-1") with false.
  change (startswith "rotate=" (rotate_option n)) with true.
  cbv iota. rewrite rotate_option_split. cbn [nth_error]. reflexivity.
Qed.

Lemma apply_option_rotate t n :
  short_enough n ->
  apply_option t (rotate_option n)
  = Ok {| xflip := xflip t; yflip := yflip t; rotate := n mod 360 |}.
Proof.
  intros H. rewrite apply_option_rotate_int, int_str_4300 by exact H. reflexivity.
Qed.

Lemma apply_option_rotate_too_long t n :
  10 ^ 4300 <= Z.abs n -> apply_option t (rotate_option n) = Raise ValueError.
Proof.
  intros H. rewrite apply_option_rotate_int, int_str_over_4300 by exact H. reflexivity.
Qed.

(** Only a [rotate=] option can change the rotation or raise. *)
Lemma apply_option_other t opt :
  startswith "rotate=" opt = false ->
  exists t', apply_option t opt = Ok t' /\ rotate t' = rotate t.
Proof.
  intros H. unfold apply_option. rewrite H.
  destruct (String.eqb opt "xscale=-1"); [eauto|].
  destruct (String.eqb opt "yscale=-1"); eauto.
Qed.

Lemma apply_options_other t opts :
  Forall (fun opt => startswith "rotate=" opt = false) opts ->
  exists t', apply_options t opts = Ok t' /\ rotate t' = rotate t.
Proof.
  intros H. revert t. induction H as [|opt opts Hopt _ IH]; intros t; cbn.
  - eauto.
  - destruct (apply_option_other t opt Hopt) as (t1 & -> & R1). cbn.
    destruct (IH t1) as (t2 & -> & R2). exists t2. split; congruence.
Qed.

Lemma apply_options_app t opts1 opts2 :
  apply_options t (opts1 ++ opts2)
  = (t1 <- apply_options t opts1 ;; apply_options t1 opts2).
Proof.
  revert t. induction opts1 as [|o opts1 IH]; intros t; cbn; [reflexivity|].
  destruct (apply_option t o); cbn; auto.
Qed.

Lemma parse_options_join opts :
  Exists (fun w => is_empty w = false) opts ->
  Forall (fun w => forall_chars (fun c => negb (Ascii.eqb c ",")) w = true) opts ->
  parse_options (Some (join "," opts)) = apply_options no_transformation (map strip opts).
Proof.
  intros Hne Hc. unfold parse_options.
  pose proof (join_not_empty "," opts Hne) as E.
  destruct (join "," opts) eqn:J; [discriminate|]. rewrite <- J.
  rewrite split_join; [reflexivity| |assumption].
  intros ->. inversion Hne.
Qed.


(** *** The loop over the lines *)

Lemma dict_get_set {V : Type} (d : dict V) k v : dict_get (dict_set d k v) k = Ok v.
Proof.
  induction d as [|[k' v'] d IH]; cbn.
  - now rewrite String.eqb_refl.
  - destruct (String.eqb k' k) eqn:E; cbn; rewrite E; auto.
Qed.

Lemma list_get_labels i :
  (i < 7)%nat -> exists label, list_get piece_labels i = Ok label.
Proof.
  intros H. unfold list_get.
  do 7 (destruct i as [|i]; [cbn; eauto|]). lia.
Qed.

Lemma list_get_labels_out i : (7 <= i)%nat -> list_get piece_labels i = Raise IndexError.
Proof.
  intros H. unfold list_get.
  do 7 (destruct i as [|i]; [lia|]). now destruct i.
Qed.

Lemma list_get_nth {A : Type} (l : list A) i a :
  list_get l i = Ok a <-> nth_error l i = Some a.
Proof. unfold list_get. destruct (nth_error l i); split; congruence. Qed.

(** When the placement of a matching line is well formed, the line gets the
    next label, if there is one left. *)
Lemma parse_match_placed st g xv yv t :
  placement_of g = Ok (xv, yv, t) ->
  parse_match st g =
  (label <- list_get piece_labels (piece_index st) ;;
   Ok {| transformations := dict_set (transformations st) label t;
         pieces := pieces st ++ [ {| name := label; x := xv; y := yv; transform := t |} ];
         piece_index := S (piece_index st) |}).
Proof.
  destruct g as [[[o xs] ys] ty]. unfold placement_of, parse_match.
  destruct (parse_options o) as [t0|]; cbn [bind]; [|discriminate].
  destruct (int xs) as [xv0|]; cbn [bind]; [|discriminate].
  destruct (int ys) as [yv0|]; cbn [bind]; [|discriminate].
  intros [= -> -> ->].
  destruct (list_get piece_labels (piece_index st)) as [label|]; cbn [bind]; [|reflexivity].
  now rewrite dict_get_set.
Qed.

(** A matching line that is taken gives a well-formed placement. *)
Lemma parse_match_ok st g st' :
  parse_match st g = Ok st' ->
  exists xv yv t label,
    placement_of g = Ok (xv, yv, t) /\
    nth_error piece_labels (piece_index st) = Some label /\
    pieces st' = (pieces st ++ [ {| name := label; x := xv; y := yv; transform := t |} ])%list /\
    piece_index st' = S (piece_index st).
Proof.
  destruct g as [[[o xs] ys] ty]. unfold placement_of, parse_match.
  destruct (parse_options o) as [t0|]; cbn [bind]; [|discriminate].
  destruct (list_get piece_labels (piece_index st)) as [label|] eqn:L; cbn [bind]; [|discriminate].
  destruct (int xs) as [xv0|]; cbn [bind]; [|discriminate].
  destruct (int ys) as [yv0|]; cbn [bind]; [|discriminate].
  rewrite dict_get_set. cbn [bind]. intros [= <-]. cbn.
  exists xv0, yv0, t0, label. repeat split. now apply list_get_nth.
Qed.

Lemma parse_match_untyped st g g' :
  untyped g = untyped g' -> parse_match st g = parse_match st g'.
Proof.
  destruct g as [[[o xs] ys] ty], g' as [[[o' xs'] ys'] ty']. cbn.
  now intros [= -> -> ->].
Qed.

Lemma parse_groups_untyped gs gs' st :
  map untyped gs = map untyped gs' -> parse_groups gs st = parse_groups gs' st.
Proof.
  revert gs' st. induction gs as [|g gs IH]; intros [|g' gs'] st; cbn; try discriminate; auto.
  intros [= Hg Hgs]. rewrite (parse_match_untyped st g g' Hg).
  destruct (parse_match st g'); cbn; auto.
Qed.

Lemma parse_lines_matched file_lines st :
  parse_lines (filter selected file_lines) st = parse_groups (matched_groups file_lines) st.
Proof.
  revert st. induction file_lines as [|l ls IH]; intros st; cbn; [reflexivity|].
  destruct (selected l); cbn; [|apply IH].
  unfold parse_line. destruct (re_search (remove_spaces l)) as [g|]; cbn.
  - destruct (parse_match st g); cbn; auto.
  - apply IH.
Qed.

Lemma matched_groups_app ls1 ls2 :
  matched_groups (ls1 ++ ls2) = (matched_groups ls1 ++ matched_groups ls2)%list.
Proof.
  induction ls1 as [|l ls1 IH]; cbn; [reflexivity|].
  destruct (selected l); [|exact IH].
  destruct (re_search (remove_spaces l)); cbn; now rewrite IH.
Qed.

Lemma matched_groups_unmatched l : unmatched l = true -> matched_groups [l] = [].
Proof.
  unfold unmatched. cbn. destruct (selected l); cbn; [|reflexivity].
  now destruct (re_search (remove_spaces l)).
Qed.

(** What a run of the loop that ends well has done. *)
Lemma parse_groups_ok gs : forall st st',
  parse_groups gs st = Ok st' ->
  exists new,
    pieces st' = (pieces st ++ new)%list /\
    Forall2 placed gs new /\
    map name new = firstn (List.length gs) (skipn (piece_index st) piece_labels) /\
    piece_index st' = (piece_index st + List.length gs)%nat.
Proof.
  induction gs as [|g gs IH]; intros st st'; cbn.
  - intros [= <-]. exists []. rewrite List.app_nil_r, Nat.add_0_r. repeat split; constructor.
  - destruct (parse_match st g) as [st1|] eqn:M; cbn [bind]; [|discriminate].
    intros H. apply parse_match_ok in M.
    destruct M as (xv & yv & t & label & Hp & Hl & Hps & Hi).
    destruct (IH _ _ H) as (new & Hnew & HF & Hn & Hidx).
    exists ({| name := label; x := xv; y := yv; transform := t |} :: new).
    repeat split.
    + rewrite Hnew, Hps, <- List.app_assoc. reflexivity.
    + constructor; [exact Hp|exact HF].
    + cbn [map name]. rewrite Hn, Hi.
      clear - Hl. revert Hl. generalize (piece_index st) as i. generalize piece_labels as l.
      induction l as [|a l IHl]; intros [|i] Hl; cbn in *; try discriminate.
      * now injection Hl as ->.
      * now apply IHl.
    + rewrite Hidx, Hi. lia.
Qed.

(** With well-formed placements the loop ends well as long as labels are
    left, and fails on the first line after the seventh. *)
Lemma parse_groups_within gs : forall st,
  Forall (fun g => exists d, placement_of g = Ok d) gs ->
  (piece_index st + List.length gs <= 7)%nat ->
  exists st', parse_groups gs st = Ok st'
              /\ piece_index st' = (piece_index st + List.length gs)%nat.
Proof.
  induction gs as [|g gs IH]; intros st HF Hlen; cbn in *.
  - exists st. split; [reflexivity|lia].
  - inversion HF as [|? ? [[[xv yv] t] Hg] HF']; subst.
    rewrite (parse_match_placed st g xv yv t Hg).
    destruct (list_get_labels (piece_index st)) as (label & ->); [lia|]. cbn [bind].
    match goal with |- context [parse_groups gs ?s] => destruct (IH s HF') as (st' & -> & Hi) end.
    + cbn. lia.
    + exists st'. split; [reflexivity|]. cbn in Hi. lia.
Qed.

Lemma parse_groups_beyond gs : forall st,
  Forall (fun g => exists d, placement_of g = Ok d) gs ->
  (piece_index st <= 7 < piece_index st + List.length gs)%nat ->
  parse_groups gs st = Raise IndexError.
Proof.
  induction gs as [|g gs IH]; intros st HF Hlen; cbn in *; [lia|].
  inversion HF as [|? ? [[[xv yv] t] Hg] HF']; subst.
  rewrite (parse_match_placed st g xv yv t Hg).
  destruct (Nat.eq_dec (piece_index st) 7) as [E|E].
  - rewrite list_get_labels_out by lia. reflexivity.
  - destruct (list_get_labels (piece_index st)) as (label & ->); [lia|]. cbn [bind].
    apply IH; [assumption|]. cbn. lia.
Qed.

Lemma parse_file_lines_groups ls :
  parse_file_lines ls =
  (st <- parse_groups (matched_groups ls) initial_state ;;
   if Nat.eqb (piece_index st) 7 then Ok st
   else Raise (AssertionError
                 ("Expected 7 pieces, found " ++ PyInt.str (Z.of_nat (piece_index st))))).
Proof. unfold parse_file_lines. now rewrite parse_lines_matched. Qed.

(** The count gate, for lines whose placements are well formed: fewer than
    seven matching lines fail the assertion with the count found, seven
    succeed, and more than seven fail on the eighth with [IndexError]. *)
Lemma parse_file_lines_count ls :
  Forall well_placed (matched_groups ls) ->
  let k := List.length (matched_groups ls) in
  ((k < 7)%nat ->
   parse_file_lines ls
   = Raise (AssertionError ("Expected 7 pieces, found " ++ PyInt.str (Z.of_nat k)))) /\
  (k = 7%nat -> exists st, parse_file_lines ls = Ok st) /\
  ((7 < k)%nat -> parse_file_lines ls = Raise IndexError).
Proof.
  intros HF k. rewrite parse_file_lines_groups. repeat split; intros Hk.
  - destruct (parse_groups_within _ initial_state HF) as (st & -> & Hi); [cbn; lia|].
    cbn [bind]. cbn in Hi. fold k in Hi. rewrite Hi.
    destruct (Nat.eqb_spec k 7); [lia|reflexivity].
  - destruct (parse_groups_within _ initial_state HF) as (st & -> & Hi); [cbn; lia|].
    cbn [bind]. cbn in Hi. fold k in Hi. rewrite Hi, Hk. cbn. eauto.
  - rewrite parse_groups_beyond; [reflexivity|assumption|cbn; lia].
Qed.

(** [int] raises nothing but [ValueError]. *)
Lemma int_raises s e : int s = Raise e -> e = ValueError.
Proof.
  unfold int. destruct (split_sign _) as [neg body].
  destruct (unsigned_literal body); [|congruence].
  destruct (count_digits body <=? max_str_digits)%nat; [discriminate|congruence].
Qed.

(** A line that matches the pattern is not skipped when its anchor is not
    an integer: reached with well-formed options and a label left, it
    raises [ValueError]. *)
Lemma parse_line_bad_anchor st l o xs ys ty t :
  re_search (remove_spaces l) = Some (o, xs, ys, ty) ->
  parse_options o = Ok t ->
  (piece_index st < 7)%nat ->
  (exists e, int xs = Raise e) \/ (exists e, int ys = Raise e) ->
  parse_line st l = Raise ValueError.
Proof.
  intros Hm Ho Hi Hbad. unfold parse_line. rewrite Hm. unfold parse_match.
  rewrite Ho. cbn [bind].
  destruct (list_get_labels _ Hi) as (label & ->). cbn [bind].
  destruct (int xs) as [xv|ex] eqn:Ex; cbn [bind].
  - destruct Hbad as [(e & He)|(e & He)]; [discriminate|].
    rewrite He. cbn [bind]. now rewrite (int_raises _ _ He).
  - now rewrite (int_raises _ _ Ex).
Qed.

Lemma nonempty_until_app c u v :
  is_empty u = false ->
  forall_chars (fun a => negb (Ascii.eqb a c)) u = true ->
  nonempty_until c (u ++ String c v) = Some (u, v).
Proof. intros Hne Hu. unfold nonempty_until. now rewrite span_until_app, Hne. Qed.

(** The pattern matches a directive written from its parts, and its groups
    are these parts. *)
Lemma match_here_line options x_coord y_coord piece_type rest :
  forall_chars (fun a => negb (Ascii.eqb a ">")) options = true ->
  is_empty x_coord = false ->
  forall_chars (fun a => negb (Ascii.eqb a ",")) x_coord = true ->
  is_empty y_coord = false ->
  forall_chars (fun a => negb (Ascii.eqb a ")")) y_coord = true ->
  is_empty piece_type = false ->
  forall_chars (fun a => negb (Ascii.eqb a "}")) piece_type = true ->
  match_here (directive_line options x_coord y_coord piece_type ++ rest)
  = Some (Some options, x_coord, y_coord, piece_type).
Proof.
  intros Ho Hx1 Hx2 Hy1 Hy2 Ht1 Ht2.
  unfold directive_line, match_here. rewrite !append_assoc.
  cbn [append tag drop_prefix Ascii.eqb Bool.eqb].
  rewrite span_until_app by assumption.
  unfold match_anchor_type.
  rewrite nonempty_until_app by assumption.
  rewrite nonempty_until_app by assumption.
  now rewrite nonempty_until_app by assumption.
Qed.

Lemma re_search_line options x_coord y_coord piece_type rest :
  forall_chars (fun a => negb (Ascii.eqb a ">")) options = true ->
  is_empty x_coord = false ->
  forall_chars (fun a => negb (Ascii.eqb a ",")) x_coord = true ->
  is_empty y_coord = false ->
  forall_chars (fun a => negb (Ascii.eqb a ")")) y_coord = true ->
  is_empty piece_type = false ->
  forall_chars (fun a => negb (Ascii.eqb a "}")) piece_type = true ->
  re_search (directive_line options x_coord y_coord piece_type ++ rest)
  = Some (Some options, x_coord, y_coord, piece_type).
Proof.
  intros. 
  assert (E : exists c s, directive_line options x_coord y_coord piece_type ++ rest = String c s)
    by (unfold directive_line; cbn; eauto).
  destruct E as (c & s & E).
  pose proof (match_here_line options x_coord y_coord piece_type rest) as M.
  rewrite E in *. cbn [re_search]. now rewrite M.
Qed.

Lemma rotate_option_without c :
  is_sign_or_digit c = false ->
  forall_chars (fun a => negb (Ascii.eqb a c)) "rotate=" = true ->
  forall n, forall_chars (fun a => negb (Ascii.eqb a c)) (rotate_option n) = true.
Proof.
  intros Hc Hr n. unfold rotate_option. rewrite forall_chars_app, Hr.
  now rewrite str_without.
Qed.

(** End to end on one line: a directive written with the option [rotate=n]
    and the anchor [(ax, ay)] gets the next label, the rotation [n mod 360]
    and this anchor, whatever its piece type. *)
Lemma parse_line_directive st n ax ay piece_type :
  short_enough n -> short_enough ax -> short_enough ay ->
  (piece_index st < 7)%nat ->
  is_empty piece_type = false ->
  forall_chars (fun a => negb (Ascii.eqb a "}")) piece_type = true ->
  forall_chars (fun a => negb (Ascii.eqb a " ")) piece_type = true ->
  exists label,
    nth_error piece_labels (piece_index st) = Some label /\
    parse_line st (directive_line (rotate_option n) (str ax) (str ay) piece_type)
    = Ok (let t := {| xflip := false; yflip := false; rotate := n mod 360 |} in
          {| transformations := dict_set (transformations st) label t;
             pieces := (pieces st ++ [ {| name := label; x := ax; y := ay; transform := t |} ])%list;
             piece_index := S (piece_index st) |}).
Proof.
  intros Sn Sx Sy Hi Ht1 Ht2 Ht3.
  destruct (list_get_labels _ Hi) as (label & Hl). exists label.
  split; [now apply list_get_nth|].
  unfold parse_line. rewrite remove_spaces_id.
  2:{ unfold directive_line. rewrite !forall_chars_app.
      rewrite rotate_option_without, !str_without, Ht3 by reflexivity. reflexivity. }
  pose proof (re_search_line (rotate_option n) (str ax) (str ay) piece_type "") as R.
  replace (directive_line (rotate_option n) (str ax) (str ay) piece_type ++ "")
    with (directive_line (rotate_option n) (str ax) (str ay) piece_type) in R.
  2:{ generalize (directive_line (rotate_option n) (str ax) (str ay) piece_type).
      induction s as [|a s IH]; cbn; congruence. }
  rewrite R; try assumption; try apply str_not_empty;
    try (apply str_without; reflexivity);
    try (apply rotate_option_without; reflexivity).
  assert (Hp : placement_of (Some (rotate_option n), str ax, str ay, piece_type)
               = Ok (ax, ay, {| xflip := false; yflip := false; rotate := n mod 360 |})).
  { unfold placement_of.
    change (rotate_option n) with (join "," [rotate_option n]).
    rewrite parse_options_join;
      [|constructor; reflexivity|constructor; [apply rotate_option_no_comma|constructor]].
    cbn [map apply_options]. rewrite rotate_option_strip, apply_option_rotate by exact Sn.
    cbn [bind]. now rewrite !int_str_4300 by assumption. }
  rewrite (parse_match_placed st _ _ _ _ Hp), Hl. reflexivity.
Qed.

Lemma apply_option_range t opt t' :
  0 <= rotate t < 360 -> apply_option t opt = Ok t' -> 0 <= rotate t' < 360.
Proof.
  intros Hr. unfold apply_option.
  destruct (String.eqb opt "xscale=-1"); [now intros [= <-]|].
  destruct (String.eqb opt "yscale=-1"); [now intros [= <-]|].
  destruct (startswith "rotate=" opt); [|now intros [= <-]].
  destruct (nth_error (split "=" opt) 1); [|discriminate].
  destruct (int s); cbn [bind]; [|discriminate].
  intros [= <-]. cbn. apply Z.mod_pos_bound. lia.
Qed.

Lemma apply_options_range opts : forall t t',
  0 <= rotate t < 360 -> apply_options t opts = Ok t' -> 0 <= rotate t' < 360.
Proof.
  induction opts as [|o opts IH]; intros t t' Hr; cbn.
  - now intros [= <-].
  - destruct (apply_option t o) as [t1|] eqn:E; cbn [bind]; [|discriminate].
    apply IH. eapply apply_option_range; eassumption.
Qed.

(** The rotation of a parsed directive is normalized. *)
Lemma parse_options_range o t : parse_options o = Ok t -> 0 <= rotate t < 360.
Proof.
  unfold parse_options. destruct o as [[|c s]|]; try (intros [= <-]; cbn; lia).
  apply apply_options_range. cbn. lia.
Qed.

Lemma placement_of_range g xv yv t : placement_of g = Ok (xv, yv, t) -> 0 <= rotate t < 360.
Proof.
  destruct g as [[[o xs] ys] ty]. unfold placement_of.
  destruct (parse_options o) as [t0|] eqn:E; cbn [bind]; [|discriminate].
  destruct (int xs); cbn [bind]; [|discriminate].
  destruct (int ys); cbn [bind]; [|discriminate].
  intros [= _ _ <-]. now apply parse_options_range in E.
Qed.

Lemma in_firstn {A : Type} (l : list A) : forall n a, In a (firstn n l) -> In a l.
Proof.
  induction l as [|b l IH]; intros [|n] a; cbn; try tauto.
  intros [->|H]; [now left|right; eauto].
Qed.

(** What [_parse_tex] guarantees of every piece: one of the seven labels
    and a rotation in [0, 360). *)
Lemma parsed_pieces_invariant content st :
  _parse_tex content = Ok st ->
  Forall (fun p => In (name p) piece_labels /\ 0 <= rotate (transform p) < 360) (pieces st).
Proof.
  intros H. unfold _parse_tex in H. rewrite parse_file_lines_groups in H.
  destruct (parse_groups _ initial_state) as [st0|] eqn:G; cbn [bind] in H; [|discriminate].
  destruct (Nat.eqb (piece_index st0) 7); [|discriminate]. injection H as <-.
  destruct (parse_groups_ok _ _ _ G) as (new & Hp & HF & Hn & _).
  cbn in Hp. rewrite Hp. clear Hp G.
  assert (Hnames : Forall (fun p => In (name p) piece_labels) new).
  { apply Forall_forall. intros p Hp.
    assert (In (name p) (map name new)) by now apply in_map.
    rewrite Hn in H. cbn [initial_state piece_index skipn] in H.
    now apply in_firstn in H. }
  revert Hnames. clear Hn.
  induction HF as [|g p gs ps Hg _ IH]; intros Hnames; constructor.
  - inversion Hnames; subst. split; [assumption|].
    unfold placed in Hg. now apply placement_of_range in Hg.
  - apply IH. now inversion Hnames.
Qed.

End ParseFacts.

(** ** [_compute_vertices] *)

Module GeometryFacts.

Import PyFloat Tangram Spec FloatOrder.
Local Open Scope list_scope.
Local Open Scope float_scope.

(** *** The order of the keys of [min] *)

Lemma tuple_lt_alt a b :
  tuple_lt a b = (fst a <? fst b) || ((fst a =? fst b) && (snd a <? snd b)).
Proof.
  unfold tuple_lt.
  destruct (fst a =? fst b) eqn:E1.
  - destruct (fst a <? fst b) eqn:L1.
    + apply ltb_not_eqb in L1. congruence.
    + cbn. destruct (snd a =? snd b) eqn:E2; [|reflexivity].
      destruct (snd a <? snd b) eqn:L2; [|reflexivity].
      apply ltb_not_eqb in L2. congruence.
  - now rewrite andb_false_l, orb_false_r.
Qed.

Lemma tuple_lt_true a b :
  tuple_lt a b = true <->
  (fst a <? fst b) = true \/ ((fst a =? fst b) = true /\ (snd a <? snd b) = true).
Proof. rewrite tuple_lt_alt, orb_true_iff, andb_true_iff. reflexivity. Qed.

Lemma eqb_trans x y z : (x =? y) = true -> (y =? z) = true -> (x =? z) = true.
Proof. intros H1 H2. now rewrite (eqb_eqb_l x y z H1). Qed.

Lemma tuple_lt_trans a b c :
  tuple_lt a b = true -> tuple_lt b c = true -> tuple_lt a c = true.
Proof.
  rewrite !tuple_lt_true. intros [L1|[E1 L1]] [L2|[E2 L2]].
  - left. eapply ltb_trans; eassumption.
  - left. now rewrite <- (eqb_ltb_r _ _ (fst a) E2).
  - left. now rewrite (eqb_ltb_l _ _ (fst c) E1).
  - right. split; [eapply eqb_trans|eapply ltb_trans]; eassumption.
Qed.

Lemma tuple_lt_irrefl a : tuple_lt a a = false.
Proof.
  rewrite tuple_lt_alt, !ltb_irrefl. now rewrite andb_false_r.
Qed.

(** Equal points have keys that compare alike. *)
Lemma tuple_lt_min_key_eq v f m :
  tuple_eq f m = true ->
  tuple_lt (min_key v) (min_key f) = tuple_lt (min_key v) (min_key m).
Proof.
  unfold tuple_eq. rewrite andb_true_iff. intros [E1 E2].
  rewrite !tuple_lt_alt. cbn [min_key fst snd].
  rewrite (eqb_ltb_r _ _ (fst v) E1).
  rewrite (eqb_sym (fst v) (fst f)), (eqb_eqb_l _ _ (fst v) E1), (eqb_sym (fst m)).
  assert (E2' : (- snd f =? - snd m) = true) by now rewrite eqb_opp.
  now rewrite (eqb_ltb_r _ _ (- snd v) E2').
Qed.

(** What "no key below the key of [f]" says of the coordinates. *)
Lemma not_below_key v f :
  tuple_lt (min_key v) (min_key f) = false ->
  (fst v <? fst f) = false /\
  ((fst v =? fst f) = true -> (snd f <? snd v) = false).
Proof.
  rewrite tuple_lt_alt. cbn [min_key fst snd]. rewrite ltb_opp.
  rewrite orb_false_iff, andb_false_iff. intros [L [E|L2]]; split; auto; congruence.
Qed.

(** *** [min] *)

Lemma min_scan_position l : forall best_i best i j m,
  min_scan best_i best i l = (j, m) ->
  (j = best_i /\ m = best) \/
  (exists n, j = (i + n)%nat /\ nth_error l n = Some m).
Proof.
  induction l as [|p l IH]; intros best_i best i j m; cbn.
  - intros [= <- <-]. auto.
  - destruct (tuple_lt (min_key p) (min_key best)); intros H; apply IH in H.
    + right. destruct H as [[-> ->]|(n & -> & Hn)].
      * exists 0%nat. split; [lia|reflexivity].
      * exists (S n). split; [lia|exact Hn].
    + destruct H as [H|(n & -> & Hn)]; [auto|].
      right. exists (S n). split; [lia|exact Hn].
Qed.

Lemma min_scan_least l : forall best_i best i j m seen,
  min_scan best_i best i l = (j, m) ->
  (forall v, In v seen -> tuple_lt (min_key v) (min_key best) = false) ->
  forall v, In v (seen ++ best :: l) -> tuple_lt (min_key v) (min_key m) = false.
Proof.
  induction l as [|p l IH]; intros best_i best i j m seen; cbn [min_scan].
  - intros [= <- <-] Hseen v Hv. apply in_app_or in Hv.
    destruct Hv as [Hv|[<-|[]]]; [auto|apply tuple_lt_irrefl].
  - destruct (tuple_lt (min_key p) (min_key best)) eqn:L; intros H Hseen v Hv.
    + apply (IH _ _ _ _ _ (seen ++ [best]) H).
      * intros w Hw. apply in_app_or in Hw.
        destruct (tuple_lt (min_key w) (min_key p)) eqn:Lw; [|reflexivity].
        pose proof (tuple_lt_trans _ _ _ Lw L) as Lwb.
        destruct Hw as [Hw|[<-|[]]].
        -- rewrite (Hseen w Hw) in Lwb. discriminate.
        -- rewrite tuple_lt_irrefl in Lwb. discriminate.
      * rewrite <- List.app_assoc. exact Hv.
    + apply (IH _ _ _ _ _ (seen ++ [p]) H).
      * intros w Hw. apply in_app_or in Hw.
        destruct Hw as [Hw|[<-|[]]]; [auto|exact L].
      * apply in_app_or in Hv. apply in_or_app.
        destruct Hv as [Hv|[<-|[<-|Hv]]].
        -- left. apply in_or_app. now left.
        -- right. now left.
        -- left. apply in_or_app. right. now left.
        -- right. now right.
Qed.

Lemma min_point_of_spec l j m :
  min_point_of l = Ok (j, m) ->
  nth_error l j = Some m /\
  forall v, In v l -> tuple_lt (min_key v) (min_key m) = false.
Proof.
  destruct l as [|p l]; cbn; [discriminate|]. intros [= H]. split.
  - apply min_scan_position in H. destruct H as [[-> ->]|(n & -> & Hn)]; auto.
  - apply (min_scan_least _ _ _ _ _ _ [] H). intros v [].
Qed.

Lemma min_point_of_total l : l <> [] -> exists j m, min_point_of l = Ok (j, m).
Proof.
  destruct l as [|p l]; [congruence|]. intros _. cbn.
  destruct (min_scan 0 p 1 l) as [j m]. eauto.
Qed.

(** *** [index] *)

Lemma index_scan_spec l : forall i j v n,
  j = (i + n)%nat -> nth_error l n = Some v ->
  exists k f,
    index_scan i l j v = Ok (i + k)%nat /\ (k <= n)%nat /\
    nth_error l k = Some f /\ (f = v \/ tuple_eq f v = true).
Proof.
  induction l as [|p l IH]; intros i j v n Hj Hn; [now destruct n|].
  cbn [index_scan]. destruct (Nat.eqb i j || tuple_eq p v) eqn:T.
  - exists 0%nat, p. rewrite Nat.add_0_r.
    split; [reflexivity|]. split; [lia|]. split; [reflexivity|].
    apply orb_true_iff in T. destruct T as [T|T]; [|now right].
    apply Nat.eqb_eq in T. assert (n = 0%nat) by lia. subst n. cbn in Hn. left. congruence.
  - apply orb_false_iff in T. destruct T as [T _]. apply Nat.eqb_neq in T.
    destruct n as [|n]; [lia|]. cbn in Hn.
    destruct (IH (S i) j v n ltac:(lia) Hn) as (k & f & E & Hk & Hf & Hv).
    exists (S k), f. rewrite E.
    split; [f_equal; lia|]. split; [lia|]. split; assumption.
Qed.

(** *** Cyclic rotations *)

Lemma rotation_first {A : Type} (l : list A) k f :
  nth_error l k = Some f ->
  exists rest, (skipn k l ++ firstn k l)%list = f :: rest.
Proof.
  revert k. induction l as [|a l IH]; intros [|k] H; cbn in *; try discriminate.
  - injection H as ->. rewrite List.app_nil_r. eauto.
  - destruct (IH k H) as (rest & E).
    destruct (skipn k l) as [|b s] eqn:S; cbn in *.
    + pose proof (f_equal (@List.length A) S) as Hlen. rewrite length_skipn in Hlen.
      assert (k < List.length l)%nat by (apply nth_error_Some; congruence).
      cbn in Hlen. lia.
    + injection E as -> _. eauto.
Qed.

Lemma rotation_in {A : Type} (l : list A) k v :
  In v (skipn k l ++ firstn k l)%list <-> In v l.
Proof.
  rewrite <- (firstn_skipn k l) at 3. rewrite !in_app_iff. tauto.
Qed.

End GeometryFacts.

Module ResolveFacts.

Import PyFloat Tangram Spec FloatOrder GeometryFacts.
Local Open Scope list_scope.
Local Open Scope float_scope.

Lemma radians_defined_360 : forallb radians_defined (seq 0 360) = true.
Proof. vm_compute. reflexivity. Qed.

(** Every rotation that [_parse_tex] stores has its angle in radians. *)
Lemma radians_in_range d : (0 <= d < 360)%Z -> exists theta, radians d = Ok theta.
Proof.
  intros H. pose proof radians_defined_360 as A.
  rewrite forallb_forall in A. specialize (A (Z.to_nat d)).
  unfold radians_defined in A. rewrite Z2Nat.id in A by lia.
  destruct (radians d) as [theta|]; [eauto|].
  discriminate A. apply in_seq. lia.
Qed.

Lemma radians_0 : radians 0 = Ok 0.
Proof. vm_compute. reflexivity. Qed.

Section Resolve.

Variable P : platform.

Lemma _rotate_spec x y d theta :
  radians d = Ok theta -> _rotate P x y d = Ok (rotate_point P theta (x, y)).
Proof. intros H. unfold _rotate. rewrite H. reflexivity. Qed.

Lemma transform_vertex_spec ax ay t v theta fx fy :
  radians (rotate t) = Ok theta ->
  of_int ax = Ok fx -> of_int ay = Ok fy ->
  transform_vertex P ax ay t v = Ok (resolve_point P theta t fx fy v).
Proof.
  intros Hr Hx Hy. destruct v as [x y]. unfold transform_vertex.
  rewrite (_rotate_spec x y _ theta Hr). cbn [bind rotate_point].
  rewrite Hx, Hy. cbn [bind].
  unfold resolve_point, translate_point, flip_point, rotate_point. cbn [fst snd].
  rewrite !mul_neg_one. reflexivity.
Qed.

Lemma transform_vertices_map ax ay t (f : point -> point) base : forall acc,
  (forall v, In v base -> transform_vertex P ax ay t v = Ok (f v)) ->
  transform_vertices P ax ay t base acc = Ok (acc ++ map f base)%list.
Proof.
  induction base as [|v base IH]; intros acc H; cbn.
  - now rewrite List.app_nil_r.
  - rewrite (H v) by now left. cbn [bind].
    rewrite IH by (intros w Hw; apply H; now right).
    now rewrite <- List.app_assoc.
Qed.

Lemma transform_vertices_length ax ay t base : forall acc l,
  transform_vertices P ax ay t base acc = Ok l ->
  List.length l = (List.length acc + List.length base)%nat.
Proof.
  induction base as [|v base IH]; intros acc l; cbn.
  - intros [= <-]. lia.
  - destruct (transform_vertex P ax ay t v); cbn [bind]; [|discriminate].
    intros H. apply IH in H. rewrite List.length_app in H. cbn in H. lia.
Qed.

Lemma templates_not_empty label T :
  dict_get shape_templates label = Ok T -> T <> [].
Proof.
  unfold shape_templates. cbn [dict_get].
  repeat (match goal with
          | |- context [String.eqb ?a ?b] => destruct (String.eqb a b)
          end; [intros [= <-]; discriminate|]).
  discriminate.
Qed.

(** The last three statements of the loop body: from [transformed] to the
    vertices, read cyclically from the canonical start. *)
Lemma canonical_rotation transformed :
  transformed <> [] ->
  exists j m k f,
    min_point_of transformed = Ok (j, m) /\
    index_scan 0 transformed j m = Ok k /\
    nth_error transformed k = Some f /\
    (f = m \/ tuple_eq f m = true) /\
    forall v, In v transformed -> tuple_lt (min_key v) (min_key m) = false.
Proof.
  intros Hne. destruct (min_point_of_total transformed Hne) as (j & m & Hm).
  destruct (min_point_of_spec _ _ _ Hm) as [Hj Hleast].
  destruct (index_scan_spec transformed 0 j m j eq_refl Hj) as (k & f & Hk & _ & Hf & Hv).
  exists j, m, k, f. cbn in Hk. auto.
Qed.

Lemma resolve_piece_spec p T transformed :
  dict_get shape_templates (name p) = Ok T ->
  transform_vertices P (x p) (y p) (transform p) T [] = Ok transformed ->
  exists r k,
    resolve_piece P p = Ok r /\ base r = p /\
    rotation_at k transformed (vertices r) /\
    canonical_start (vertices r).
Proof.
  intros HT Htr. unfold resolve_piece. rewrite HT. cbn [bind]. rewrite Htr. cbn [bind].
  assert (Hne : transformed <> []).
  { pose proof (transform_vertices_length _ _ _ _ _ _ Htr) as L.
    pose proof (templates_not_empty _ _ HT) as HT'.
    destruct transformed; [|discriminate]. destruct T; [congruence|]. cbn in L. lia. }
  destruct (canonical_rotation transformed Hne) as (j & m & k & f & -> & Hk & Hf & Hfm & Hleast).
  cbn [bind]. rewrite Hk. cbn [bind].
  eexists _, k. split; [reflexivity|]. cbn [base vertices]. split; [reflexivity|].
  split.
  - split; [|reflexivity]. apply nth_error_Some. congruence.
  - destruct (rotation_first transformed k f Hf) as (rest & E).
    unfold canonical_start. rewrite E. rewrite <- E. intros v Hv.
    apply rotation_in in Hv. apply not_below_key.
    destruct Hfm as [->|Hfm]; [auto|].
    rewrite (tuple_lt_min_key_eq v f m Hfm). auto.
Qed.

Lemma _rotate_zero x y :
  _rotate P x y 0 = Ok (round5 (x * 1 - y * 0), round5 (x * 0 + y * 1)).
Proof.
  unfold _rotate. rewrite radians_0. cbn [bind]. now rewrite cos_zero, sin_zero.
Qed.

End Resolve.

Lemma canonical_start_positive vs :
  no_nan vs -> canonical_start vs -> min_x_max_y_first vs.
Proof.
  unfold no_nan, canonical_start, min_x_max_y_first.
  destruct vs as [|first vs']; [auto|]. intros Hn H v Hv.
  rewrite Forall_forall in Hn.
  destruct (Hn first (or_introl eq_refl)) as [Nf1 Nf2].
  destruct (Hn v Hv) as [Nv1 Nv2].
  destruct (H v Hv) as [H1 H2]. split.
  - now apply not_ltb_leb.
  - intros E. apply not_ltb_leb; auto.
Qed.

Lemma template_of_label label :
  In label piece_labels -> exists T, dict_get shape_templates label = Ok T.
Proof.
  cbn. intros H. repeat (destruct H as [<-|H]; [cbn; eauto|]). destruct H.
Qed.

Lemma rotation_length {A : Type} (l : list A) k :
  List.length (skipn k l ++ firstn k l) = List.length l.
Proof.
  rewrite List.length_app, Nat.add_comm, <- List.length_app. now rewrite firstn_skipn.
Qed.

(** The resolver returns a piece for every directive of the parser whose
    anchor converts to a float, with as many vertices as its template. *)
Lemma resolve_piece_total P p :
  In (name p) piece_labels ->
  (0 <= rotate (transform p) < 360)%Z ->
  convertible p ->
  exists T r,
    dict_get shape_templates (name p) = Ok T /\
    resolve_piece P p = Ok r /\ base r = p /\
    List.length (vertices r) = List.length T /\ vertices r <> [].
Proof.
  intros Hn Hr [(fx & Hx) (fy & Hy)].
  destruct (template_of_label _ Hn) as (T & HT).
  destruct (radians_in_range _ Hr) as (theta & Hth).
  pose proof (transform_vertices_map P (x p) (y p) (transform p)
                (resolve_point P theta (transform p) fx fy) T []
                (fun v _ => transform_vertex_spec P _ _ _ v _ _ _ Hth Hx Hy)) as Htr.
  cbn [app] in Htr.
  destruct (resolve_piece_spec P p T _ HT Htr) as (r & k & Hres & Hb & [Hk Hv] & _).
  rewrite length_map in Hk.
  exists T, r. repeat split; try assumption.
  - now rewrite Hv, rotation_length, length_map.
  - intros E. rewrite E in Hv. apply (f_equal (@List.length point)) in Hv.
    rewrite rotation_length, length_map in Hv. cbn in Hv. lia.
Qed.

Lemma _compute_vertices_total P ps :
  Forall (fun p => In (name p) piece_labels /\ (0 <= rotate (transform p) < 360)%Z) ps ->
  Forall convertible ps ->
  exists rs,
    _compute_vertices P ps = Ok rs /\ map base rs = ps /\
    Forall (fun r => vertices r <> []) rs.
Proof.
  induction ps as [|p ps IH]; intros H1 H2; cbn.
  - exists []. repeat split; constructor.
  - inversion H1 as [|? ? [Hn Hr] H1']; inversion H2 as [|? ? Hc H2']; subst.
    destruct (resolve_piece_total P p Hn Hr Hc) as (T & r & _ & -> & Hb & _ & Hv).
    destruct (IH H1' H2') as (rs & -> & Hm & HF). cbn [bind].
    exists (r :: rs). repeat split; [cbn; congruence|constructor; assumption].
Qed.

End ResolveFacts.

(** ** [draw_pieces] *)

Module EmitFacts.
Import PyFloat Tangram Spec FloatOrder GeometryFacts ResolveFacts.
Local Open Scope list_scope.
Local Open Scope float_scope.

Lemma float_min_scan_spec l : forall best seen,
  (forall v, In v seen -> (v <? best) = false) ->
  In (float_min_scan best l) (best :: l) /\
  forall v, In v (seen ++ best :: l) -> (v <? float_min_scan best l) = false.
Proof.
  induction l as [|a l IH]; intros best seen Hseen; cbn [float_min_scan].
  - split; [now left|]. intros v Hv. apply in_app_or in Hv.
    destruct Hv as [Hv|[<-|[]]]; [auto|apply ltb_irrefl].
  - destruct (a <? best) eqn:L.
    + destruct (IH a (seen ++ [best])) as [Hin Hleast].
      * intros w Hw. apply in_app_or in Hw.
        destruct (w <? a) eqn:Lw; [|reflexivity].
        pose proof (ltb_trans _ _ _ Lw L) as Lwb.
        destruct Hw as [Hw|[<-|[]]].
        -- rewrite (Hseen w Hw) in Lwb. discriminate.
        -- rewrite ltb_irrefl in Lwb. discriminate.
      * split; [now right|]. intros v Hv. apply Hleast.
        rewrite <- List.app_assoc. exact Hv.
    + destruct (IH best (seen ++ [a])) as [Hin Hleast].
      * intros w Hw. apply in_app_or in Hw.
        destruct Hw as [Hw|[<-|[]]]; [auto|exact L].
      * split; [destruct Hin as [<-|Hin]; [now left|now do 2 right]|].
        intros v Hv. apply Hleast.
        apply in_app_or in Hv. apply in_or_app.
        destruct Hv as [Hv|[<-|[<-|Hv]]].
        -- left. apply in_or_app. now left.
        -- right. now left.
        -- left. apply in_or_app. right. now left.
        -- right. now right.
Qed.

Lemma float_max_scan_spec l : forall best seen,
  (forall v, In v seen -> (best <? v) = false) ->
  In (float_max_scan best l) (best :: l) /\
  forall v, In v (seen ++ best :: l) -> (float_max_scan best l <? v) = false.
Proof.
  induction l as [|a l IH]; intros best seen Hseen; cbn [float_max_scan].
  - split; [now left|]. intros v Hv. apply in_app_or in Hv.
    destruct Hv as [Hv|[<-|[]]]; [auto|apply ltb_irrefl].
  - destruct (best <? a) eqn:L.
    + destruct (IH a (seen ++ [best])) as [Hin Hleast].
      * intros w Hw. apply in_app_or in Hw.
        destruct (a <? w) eqn:Lw; [|reflexivity].
        pose proof (ltb_trans _ _ _ L Lw) as Lwb.
        destruct Hw as [Hw|[<-|[]]].
        -- rewrite (Hseen w Hw) in Lwb. discriminate.
        -- rewrite ltb_irrefl in Lwb. discriminate.
      * split; [now right|]. intros v Hv. apply Hleast.
        rewrite <- List.app_assoc. exact Hv.
    + destruct (IH best (seen ++ [a])) as [Hin Hleast].
      * intros w Hw. apply in_app_or in Hw.
        destruct Hw as [Hw|[<-|[]]]; [auto|exact L].
      * split; [destruct Hin as [<-|Hin]; [now left|now do 2 right]|].
        intros v Hv. apply Hleast.
        apply in_app_or in Hv. apply in_or_app.
        destruct Hv as [Hv|[<-|[<-|Hv]]].
        -- left. apply in_or_app. now left.
        -- right. now left.
        -- left. apply in_or_app. right. now left.
        -- right. now right.
Qed.

Lemma float_min_spec l : l <> [] -> exists m, float_min l = Ok m /\ is_minimum m l.
Proof.
  destruct l as [|a l]; [congruence|]. intros _. cbn.
  destruct (float_min_scan_spec l a []) as [Hin Hleast]; [intros v []|].
  exists (float_min_scan a l). repeat split; auto.
Qed.

Lemma float_max_spec l : l <> [] -> exists m, float_max l = Ok m /\ is_maximum m l.
Proof.
  destruct l as [|a l]; [congruence|]. intros _. cbn.
  destruct (float_max_scan_spec l a []) as [Hin Hleast]; [intros v []|].
  exists (float_max_scan a l). repeat split; auto.
Qed.

Lemma all_x_not_empty rs :
  rs <> [] -> Forall (fun r => vertices r <> []) rs -> all_x rs <> [] /\ all_y rs <> [].
Proof.
  destruct rs as [|r rs]; [congruence|]. intros _ H.
  inversion H as [|? ? Hr _]; subst. unfold all_x, all_y. cbn.
  destruct (vertices r); [congruence|]. cbn. split; discriminate.
Qed.

Lemma piece_lines_total P rs :
  Forall (fun r => vertices r <> []) rs -> exists ls, piece_lines P rs = Ok ls.
Proof.
  induction 1 as [|r rs Hr _ (ls & IH)]; cbn; [eauto|].
  unfold piece_line. destruct (vertices r) as [|v vs] eqn:E; [congruence|].
  cbn [list_get nth_error bind]. rewrite IH. cbn [bind]. eauto.
Qed.

Lemma is_minimum_leb m l :
  Forall (fun v => is_nan v = false) l -> is_minimum m l ->
  forall v, In v l -> (m <=? v) = true.
Proof.
  intros Hn [Hin Hleast] v Hv. rewrite Forall_forall in Hn.
  apply not_ltb_leb; auto.
Qed.

Lemma is_maximum_leb m l :
  Forall (fun v => is_nan v = false) l -> is_maximum m l ->
  forall v, In v l -> (v <=? m) = true.
Proof.
  intros Hn [Hin Hleast] v Hv. rewrite Forall_forall in Hn.
  apply not_ltb_leb; auto.
Qed.

(** [draw_pieces] succeeds on pieces that have vertices, and its sixth
    write is the grid from the padded minimum corner to the padded maximum
    corner. *)
Lemma picture_grid (P : platform) (rs : list resolved) :
  rs <> [] ->
  Forall (fun r => vertices r <> []) rs ->
  exists min_x max_x min_y max_y out,
    is_minimum min_x (all_x rs) /\ is_maximum max_x (all_x rs) /\
    is_minimum min_y (all_y rs) /\ is_maximum max_y (all_y rs) /\
    grid_corners rs = Ok (min_x - 2, min_y - 2, max_x + 2, max_y + 2) /\
    picture P rs = Ok out /\
    nth_error out 5 = Some (grid_line P (min_x - 2) (min_y - 2) (max_x + 2) (max_y + 2)).
Proof.
  intros Hne Hv. destruct (all_x_not_empty rs Hne Hv) as [Hx Hy].
  destruct (float_min_spec _ Hx) as (min_x & Emin_x & Hmin_x).
  destruct (float_max_spec _ Hx) as (max_x & Emax_x & Hmax_x).
  destruct (float_min_spec _ Hy) as (min_y & Emin_y & Hmin_y).
  destruct (float_max_spec _ Hy) as (max_y & Emax_y & Hmax_y).
  destruct (piece_lines_total P rs Hv) as (ls & Els).
  exists min_x, max_x, min_y, max_y.
  assert (G : grid_corners rs = Ok (min_x - 2, min_y - 2, max_x + 2, max_y + 2)).
  { unfold grid_corners. rewrite Emin_x, Emax_x, Emin_y, Emax_y. reflexivity. }
  eexists. do 4 (split; [assumption|]). split; [exact G|].
  unfold picture. rewrite G. cbn [bind]. rewrite Els. cbn [bind].
  split; reflexivity.
Qed.

End EmitFacts.

(** ** The whole program *)

Module Pipeline.

Import PyFloat Tangram Spec ParseFacts ResolveFacts EmitFacts.

(** The whole program: when the file parses and the anchors convert to
    floats, the constructor returns the seven pieces in file order and
    [draw_pieces] writes a picture of them. *)
Theorem TangramPuzzle_total P content st :
  _parse_tex content = Ok st ->
  Forall convertible (pieces st) ->
  exists rs out,
    TangramPuzzle P content = Ok rs /\
    map base rs = pieces st /\
    map (fun r => name (base r)) rs = piece_labels /\
    picture P rs = Ok out.
Proof.
  intros Hp Hc. pose proof (parsed_pieces_invariant _ _ Hp) as Hinv.
  destruct (_compute_vertices_total P _ Hinv Hc) as (rs & Hrs & Hb & Hv).
  assert (Hnames : map name (pieces st) = piece_labels).
  { unfold _parse_tex in Hp. rewrite parse_file_lines_groups in Hp.
    destruct (parse_groups _ initial_state) as [st0|] eqn:G; cbn [bind] in Hp; [|discriminate].
    destruct (Nat.eqb_spec (piece_index st0) 7) as [E7|]; [|discriminate].
    injection Hp as <-.
    destruct (parse_groups_ok _ _ _ G) as (new & Hpn & _ & Hn & Hi).
    cbn in Hpn, Hn, Hi. rewrite Hpn, Hn, <- Hi, E7. reflexivity. }
  assert (Hne : rs <> []).
  { intros ->. cbn in Hb. rewrite <- Hb in Hnames. discriminate. }
  destruct (picture_grid P rs Hne Hv) as (? & ? & ? & ? & out & _ & _ & _ & _ & _ & Hd & _).
  exists rs, out. unfold TangramPuzzle. rewrite Hp. cbn [bind].
  repeat split; try assumption.
  rewrite <- Hnames, <- Hb, map_map. reflexivity.
Qed.

End Pipeline.

(** * Facts about the rest of the program *)

Module OptionFacts.

Import PyStr PyInt Tangram Spec PyStrFacts PyIntFacts ParseFacts Script Props.

Lemma startswith_app p : forall s, startswith p s = true -> exists r, s = p ++ r.
Proof.
  induction p as [|a p IH]; intros s; cbn.
  - eauto.
  - destruct s as [|b s]; [discriminate|].
    rewrite andb_true_iff. intros [E H]. apply Ascii.eqb_eq in E. subst b.
    destruct (IH s H) as (r & ->). eauto.
Qed.

Lemma split_not_nil sep s : split sep s <> [].
Proof.
  destruct s as [|c s]; cbn; [discriminate|].
  destruct (Ascii.eqb c sep); [discriminate|]. destruct (split sep s); discriminate.
Qed.

(** The value of a [rotate=] option is the text between the first [=] and
    the second one, if there is one. *)
Lemma rotate_value_split v w :
  forall_chars (fun a => negb (Ascii.eqb a "=")) v = true ->
  nth_error (split "=" ("rotate=" ++ v)) 1 = Some v /\
  nth_error (split "=" ("rotate=" ++ v ++ "=" ++ w)) 1 = Some v.
Proof.
  intros Hv. split.
  - change ("rotate=" ++ v) with ("rotate" ++ String "=" v).
    rewrite split_app by reflexivity. now rewrite split_without.
  - change ("rotate=" ++ v ++ "=" ++ w) with ("rotate" ++ String "=" (v ++ String "=" w)).
    rewrite split_app by reflexivity. now rewrite split_app.
Qed.

Lemma apply_option_rotate_value t v opt :
  startswith "rotate=" opt = true ->
  nth_error (split "=" opt) 1 = Some v ->
  apply_option t opt
  = (n <- int v ;; Ok {| xflip := xflip t; yflip := yflip t; rotate := n mod 360 |}).
Proof.
  intros Hs Hn. destruct (startswith_app _ _ Hs) as (r & ->).
  unfold apply_option.
  change (String.eqb ("rotate=" ++ r) "xscale=-1") with false.
  change (String.eqb ("rotate=" ++ r) "yscale=-1") with false.
  cbv iota. rewrite Hs, Hn. reflexivity.
Qed.

(** An option raises nothing but [ValueError]. *)
Lemma apply_option_raises t opt e : apply_option t opt = Raise e -> e = ValueError.
Proof.
  unfold apply_option.
  destruct (String.eqb opt "xscale=-1"); [discriminate|].
  destruct (String.eqb opt "yscale=-1"); [discriminate|].
  destruct (startswith "rotate=" opt) eqn:Hs; [|discriminate].
  destruct (startswith_app _ _ Hs) as (r & ->).
  change ("rotate=" ++ r) with ("rotate" ++ String "=" r).
  rewrite split_app by reflexivity.
  destruct (split "=" r) as [|v rest] eqn:E; [now apply split_not_nil in E|].
  cbn [nth_error]. destruct (int v) as [n|e'] eqn:I; cbn [bind]; [discriminate|].
  intros [= <-]. now apply int_raises in I.
Qed.

Lemma apply_options_raises opts : forall t e,
  apply_options t opts = Raise e -> e = ValueError.
Proof.
  induction opts as [|o opts IH]; intros t e; cbn; [discriminate|].
  destruct (apply_option t o) as [t1|e1] eqn:E; cbn [bind].
  - apply IH.
  - intros [= <-]. now apply apply_option_raises in E.
Qed.

Lemma parse_options_raises o e : parse_options o = Raise e -> e = ValueError.
Proof.
  unfold parse_options. destruct o as [[|c s]|]; try discriminate.
  apply apply_options_raises.
Qed.

(** How one option changes the flags. *)
Lemma apply_option_flags t opt t' :
  apply_option t opt = Ok t' ->
  xflip t' = xflip t || String.eqb opt "xscale=-1" /\
  yflip t' = yflip t || String.eqb opt "yscale=-1".
Proof.
  unfold apply_option.
  destruct (String.eqb opt "xscale=-1") eqn:Ex.
  - apply String.eqb_eq in Ex. subst opt. intros [= <-]. cbn.
    now rewrite orb_true_r, orb_false_r.
  - destruct (String.eqb opt "yscale=-1") eqn:Ey.
    + intros [= <-]. cbn. now rewrite orb_true_r, orb_false_r.
    + rewrite !orb_false_r.
      destruct (startswith "rotate=" opt); [|now intros [= <-]].
      destruct (nth_error (split "=" opt) 1); [|discriminate].
      destruct (int s); cbn [bind]; [|discriminate]. now intros [= <-].
Qed.

Lemma apply_options_flags opts : forall t t',
  apply_options t opts = Ok t' ->
  xflip t' = xflip t || existsb (fun o => String.eqb o "xscale=-1") opts /\
  yflip t' = yflip t || existsb (fun o => String.eqb o "yscale=-1") opts.
Proof.
  induction opts as [|o opts IH]; intros t t'; cbn.
  - intros [= <-]. now rewrite !orb_false_r.
  - destruct (apply_option t o) as [t1|] eqn:E; cbn [bind]; [|discriminate].
    intros H. apply IH in H. apply apply_option_flags in E.
    destruct H as [-> ->], E as [-> ->]. now rewrite !orb_assoc.
Qed.

Lemma apply_options_no_rotate opts : forall t t',
  Forall (fun o => startswith "rotate=" o = false) opts ->
  apply_options t opts = Ok t' -> rotate t' = rotate t.
Proof.
  intros t t' H E. destruct (apply_options_other t opts H) as (t1 & E1 & R).
  congruence.
Qed.

End OptionFacts.

Module LoopFacts.

Import PyStr PyInt Tangram Spec PyStrFacts PyIntFacts ParseFacts OptionFacts Script Props.
Local Open Scope list_scope.

(** The loop body raises [ValueError] or [IndexError] and nothing else. *)
Lemma parse_match_raises st g e :
  parse_match st g = Raise e -> e = ValueError \/ e = IndexError.
Proof.
  destruct g as [[[o xs] ys] ty]. unfold parse_match.
  destruct (parse_options o) as [t|e0] eqn:O; cbn [bind].
  2:{ intros [= <-]. left. now apply parse_options_raises in O. }
  unfold list_get. destruct (nth_error piece_labels (piece_index st)) as [label|]; cbn [bind].
  2:{ intros [= <-]. now right. }
  destruct (int xs) as [xv|e1] eqn:X; cbn [bind].
  2:{ intros [= <-]. left. now apply int_raises in X. }
  destruct (int ys) as [yv|e2] eqn:Y; cbn [bind].
  2:{ intros [= <-]. left. now apply int_raises in Y. }
  rewrite dict_get_set. discriminate.
Qed.

(** What one more piece does to the state. *)
Lemma parse_match_state st g st' :
  parse_match st g = Ok st' ->
  exists xv yv t label,
    placement_of g = Ok (xv, yv, t) /\
    nth_error piece_labels (piece_index st) = Some label /\
    transformations st' = dict_set (transformations st) label t /\
    pieces st' = pieces st ++ [ {| name := label; x := xv; y := yv; transform := t |} ] /\
    piece_index st' = S (piece_index st).
Proof.
  destruct g as [[[o xs] ys] ty]. unfold placement_of, parse_match.
  destruct (parse_options o) as [t0|]; cbn [bind]; [|discriminate].
  destruct (list_get piece_labels (piece_index st)) as [label|] eqn:L; cbn [bind]; [|discriminate].
  destruct (int xs) as [xv0|]; cbn [bind]; [|discriminate].
  destruct (int ys) as [yv0|]; cbn [bind]; [|discriminate].
  rewrite dict_get_set. cbn [bind]. intros [= <-]. cbn.
  exists xv0, yv0, t0, label. repeat split. now apply list_get_nth.
Qed.

Lemma dict_set_fresh {V : Type} (d : dict V) k v :
  ~ In k (map fst d) -> dict_set d k v = d ++ [(k, v)].
Proof.
  induction d as [|[k' v'] d IH]; cbn; [reflexivity|]. intros H.
  destruct (String.eqb_spec k' k) as [->|_]; [tauto|]. now rewrite IH by tauto.
Qed.

Lemma nth_not_in_firstn {A : Type} (l : list A) : forall i a,
  NoDup l -> nth_error l i = Some a -> ~ In a (firstn i l).
Proof.
  induction l as [|b l IH]; intros [|i] a ND H; cbn in *; try discriminate; [tauto|].
  inversion ND as [|? ? Hb ND']; subst. intros [->|Hin].
  - apply Hb. eapply nth_error_In; eassumption.
  - now apply (IH i a).
Qed.

Lemma firstn_succ_nth {A : Type} (l : list A) : forall i a,
  nth_error l i = Some a -> firstn (S i) l = firstn i l ++ [a].
Proof.
  induction l as [|b l IH]; intros [|i] a H; cbn in *; try discriminate.
  - now injection H as ->.
  - f_equal. now apply IH.
Qed.

Lemma piece_labels_NoDup : NoDup piece_labels.
Proof.
  unfold piece_labels.
  repeat (constructor; [cbn; intros H; repeat (destruct H as [H|H]; [discriminate|]); exact H|]).
  constructor.
Qed.

Lemma well_placedb_Forall gs : forallb well_placedb gs = true -> Forall well_placed gs.
Proof.
  induction gs as [|g gs IH]; cbn [forallb]; [constructor|].
  rewrite andb_true_iff. intros [Hg Hgs]. constructor; [|now apply IH].
  unfold well_placedb in Hg. unfold well_placed.
  destruct (placement_of g) as [d|]; [eauto|discriminate].
Qed.

Lemma consistent_initial : consistent initial_state.
Proof. repeat split. cbn. lia. Qed.

Lemma parse_match_consistent st g st' :
  consistent st -> parse_match st g = Ok st' -> consistent st'.
Proof.
  intros (Ht & Hn & Hi) H.
  apply parse_match_state in H.
  destruct H as (xv & yv & t & label & _ & Hl & Ht' & Hp' & Hi').
  assert (Hlt : (piece_index st < 7)%nat).
  { change 7%nat with (List.length piece_labels). apply nth_error_Some. congruence. }
  repeat split.
  - rewrite Ht', Hp', Ht. unfold table_of. rewrite map_app. cbn [map name transform].
    apply dict_set_fresh. rewrite map_map. cbn [fst]. 
    change (map (fun p => name p) (pieces st)) with (map name (pieces st)).
    rewrite Hn. apply nth_not_in_firstn; [apply piece_labels_NoDup|exact Hl].
  - rewrite Hp', Hi', map_app, Hn. cbn [map name]. symmetry. now apply firstn_succ_nth.
  - lia.
Qed.

Lemma parse_groups_consistent gs : forall st st',
  consistent st -> parse_groups gs st = Ok st' -> consistent st'.
Proof.
  induction gs as [|g gs IH]; intros st st' Hc; cbn.
  - now intros [= <-].
  - destruct (parse_match st g) as [st1|] eqn:M; cbn [bind]; [|discriminate].
    apply IH. eapply parse_match_consistent; eassumption.
Qed.

Lemma parse_groups_raises gs : forall st e,
  parse_groups gs st = Raise e -> e = ValueError \/ e = IndexError.
Proof.
  induction gs as [|g gs IH]; intros st e; cbn; [discriminate|].
  destruct (parse_match st g) as [st1|e1] eqn:M; cbn [bind].
  - apply IH.
  - intros [= <-]. eapply parse_match_raises; eassumption.
Qed.

End LoopFacts.

Module RegexFacts.

Import PyStr PyInt Tangram Spec PyStrFacts PyIntFacts ParseFacts OptionFacts LoopFacts Script Props.

Lemma span_until_inv c s u v :
  span_until c s = Some (u, v) -> s = u ++ String c v /\ free_of c u.
Proof.
  unfold free_of. revert u. induction s as [|a s IH]; intros u; cbn; [discriminate|].
  destruct (Ascii.eqb a c) eqn:E.
  - apply Ascii.eqb_eq in E. subst a. intros [= <- <-]. auto.
  - destruct (span_until c s) as [[u' v']|]; [|discriminate].
    intros [= <- <-]. destruct (IH u' eq_refl) as [-> Hu]. cbn. now rewrite E, Hu.
Qed.

Lemma nonempty_until_inv c s u v :
  nonempty_until c s = Some (u, v) ->
  s = u ++ String c v /\ free_of c u /\ is_empty u = false.
Proof.
  unfold nonempty_until. destruct (span_until c s) as [[u' v']|] eqn:E; [|discriminate].
  destruct (is_empty u') eqn:N; [discriminate|]. intros [= <- <-].
  destruct (span_until_inv _ _ _ _ E). auto.
Qed.

Lemma drop_prefix_inv p : forall s r, drop_prefix p s = Some r -> s = p ++ r.
Proof.
  induction p as [|a p IH]; intros s r; cbn.
  - now intros [= ->].
  - destruct s as [|b s]; [discriminate|].
    destruct (Ascii.eqb a b) eqn:E; [|discriminate].
    apply Ascii.eqb_eq in E. subst b. intros H. now rewrite (IH _ _ H).
Qed.

Lemma match_anchor_type_inv o s g :
  match_anchor_type o s = Some g ->
  exists x_coord y_coord piece_type rest,
    g = (o, x_coord, y_coord, piece_type) /\
    s = "(" ++ x_coord ++ "," ++ y_coord ++ "){" ++ piece_type ++ "}" ++ rest /\
    (is_empty x_coord = false /\ free_of "," x_coord) /\
    (is_empty y_coord = false /\ free_of ")" y_coord) /\
    (is_empty piece_type = false /\ free_of "}" piece_type).
Proof.
  unfold match_anchor_type.
  destruct s as [|c s1]; [discriminate|].
  destruct (Ascii.eqb_spec c "(") as [->|N].
  2:{ destruct c as [[] [] [] [] [] [] [] []]; try discriminate. now contradiction N. }
  destruct (nonempty_until "," s1) as [[xs s2]|] eqn:X; [|discriminate].
  destruct (nonempty_until ")" s2) as [[ys s3]|] eqn:Y; [|discriminate].
  destruct s3 as [|c3 s3]; [discriminate|].
  destruct (Ascii.eqb_spec c3 "{") as [->|N].
  2:{ destruct c3 as [[] [] [] [] [] [] [] []]; try discriminate. now contradiction N. }
  destruct (nonempty_until "}" s3) as [[ts s4]|] eqn:T; [|discriminate].
  intros [= <-].
  apply nonempty_until_inv in X, Y, T.
  destruct X as (-> & Hx & Nx), Y as (-> & Hy & Ny), T as (-> & Ht & Nt).
  exists xs, ys, ts, s4. repeat split; auto.
Qed.

Lemma match_anchor_type_plain o x_coord y_coord piece_type rest :
  is_empty x_coord = false -> free_of "," x_coord ->
  is_empty y_coord = false -> free_of ")" y_coord ->
  is_empty piece_type = false -> free_of "}" piece_type ->
  match_anchor_type o ("(" ++ x_coord ++ "," ++ y_coord ++ "){" ++ piece_type ++ "}" ++ rest)
  = Some (o, x_coord, y_coord, piece_type).
Proof.
  intros Nx Hx Ny Hy Nt Ht. unfold match_anchor_type. cbn [append].
  rewrite nonempty_until_app by assumption. cbn [append].
  rewrite nonempty_until_app by assumption.
  now rewrite nonempty_until_app by assumption.
Qed.

(** A match attempt succeeds exactly on a text that starts with a directive,
    with or without an option list, and its groups are the parts of this
    directive. *)
Lemma match_here_inv s o x_coord y_coord piece_type :
  match_here s = Some (o, x_coord, y_coord, piece_type) ->
  exists rest,
    s = match o with
        | Some options => directive_line options x_coord y_coord piece_type
        | None => plain_directive_line x_coord y_coord piece_type
        end ++ rest /\
    match o with Some options => free_of ">" options | None => True end /\
    (is_empty x_coord = false /\ free_of "," x_coord) /\
    (is_empty y_coord = false /\ free_of ")" y_coord) /\
    (is_empty piece_type = false /\ free_of "}" piece_type).
Proof.
  unfold match_here.
  destruct (drop_prefix tag s) as [s1|] eqn:D; [|discriminate].
  apply drop_prefix_inv in D. subst s.
  assert (Plain : match_anchor_type None s1 = Some (o, x_coord, y_coord, piece_type) ->
                  exists rest,
                    tag ++ s1 = match o with
                        | Some options => directive_line options x_coord y_coord piece_type
                        | None => plain_directive_line x_coord y_coord piece_type
                        end ++ rest /\
                    match o with Some options => free_of ">" options | None => True end /\
                    (is_empty x_coord = false /\ free_of "," x_coord) /\
                    (is_empty y_coord = false /\ free_of ")" y_coord) /\
                    (is_empty piece_type = false /\ free_of "}" piece_type)).
  { intros H. apply match_anchor_type_inv in H.
    destruct H as (xs & ys & ts & rest & E & -> & Hx & Hy & Ht). injection E as ? ? ? ?. subst.
    exists rest. repeat split; try tauto.
    unfold plain_directive_line, tag. rewrite !append_assoc. reflexivity. }
  destruct s1 as [|c s1]; [exact Plain|].
  destruct (Ascii.eqb_spec c "<") as [->|N].
  2:{ destruct c as [[] [] [] [] [] [] [] []]; try exact Plain. now contradiction N. }
  destruct (span_until ">" s1) as [[os s2]|] eqn:O; [|discriminate].
  intros H. apply match_anchor_type_inv in H.
  destruct H as (xs & ys & ts & rest & E & -> & Hx & Hy & Ht). injection E as ? ? ? ?. subst.
  apply span_until_inv in O. destruct O as [-> Ho].
  exists rest. repeat split; try tauto.
  unfold directive_line, tag. rewrite !append_assoc. reflexivity.
Qed.

Lemma match_here_plain_line x_coord y_coord piece_type rest :
  is_empty x_coord = false -> free_of "," x_coord ->
  is_empty y_coord = false -> free_of ")" y_coord ->
  is_empty piece_type = false -> free_of "}" piece_type ->
  match_here (plain_directive_line x_coord y_coord piece_type ++ rest)
  = Some (None, x_coord, y_coord, piece_type).
Proof.
  intros. unfold plain_directive_line, match_here. rewrite !append_assoc.
  cbn [append tag drop_prefix Ascii.eqb Bool.eqb].
  now apply (match_anchor_type_plain None x_coord y_coord piece_type rest).
Qed.

Lemma re_search_here s g : match_here s = Some g -> re_search s = Some g.
Proof. intros H. destruct s; cbn [re_search]; now rewrite H. Qed.

Lemma match_here_text o x_coord y_coord piece_type rest :
  delimited o x_coord y_coord piece_type ->
  match_here (directive_text o x_coord y_coord piece_type ++ rest)
  = Some (o, x_coord, y_coord, piece_type).
Proof.
  intros (Ho & (Nx & Hx) & (Ny & Hy) & (Nt & Ht)).
  destruct o as [options|]; cbn [directive_text].
  - now apply match_here_line.
  - now apply match_here_plain_line.
Qed.

(** A match of the search is a directive somewhere in the text. *)
Lemma re_search_inv s : forall o x_coord y_coord piece_type,
  re_search s = Some (o, x_coord, y_coord, piece_type) ->
  exists before rest,
    s = before ++ directive_text o x_coord y_coord piece_type ++ rest /\
    delimited o x_coord y_coord piece_type.
Proof.
  induction s as [|c s IH]; intros o xs ys ts; cbn [re_search].
  - destruct (match_here "") as [g|] eqn:M; [|discriminate].
    intros [= ->]. apply match_here_inv in M. destruct M as (rest & E & D).
    exists "", rest. split; [exact E|exact D].
  - destruct (match_here (String c s)) as [g|] eqn:M.
    + intros [= ->]. apply match_here_inv in M. destruct M as (rest & E & D).
      exists "", rest. split; [exact E|exact D].
    + intros H. destruct (IH _ _ _ _ H) as (before & rest & -> & D).
      exists (String c before), rest. split; [reflexivity|exact D].
Qed.

End RegexFacts.

Module FileFacts.

Import PyStr PyInt Tangram Spec Demo PyStrFacts PyIntFacts ParseFacts OptionFacts LoopFacts RegexFacts Script Props.
Local Open Scope list_scope.

Lemma append_nil_r (s : string) : (s ++ "")%string = s.
Proof. induction s as [|a s IH]; cbn; congruence. Qed.

Lemma splitlines_go_line l : forall cur rest,
  forall_chars (fun a => negb (is_linebreak a)) l = true ->
  splitlines_go cur (l ++ String "010" rest)%string
  = ((match cur with None => "" | Some c => c end) ++ l)%string :: splitlines_go None rest.
Proof.
  induction l as [|a l IH]; intros cur rest; cbn [append forall_chars].
  - intros _. cbn [splitlines_go]. change (is_linebreak "010") with true. cbv iota.
    rewrite append_nil_r. change (Ascii.eqb "010" "013") with false. cbn [andb].
    now destruct rest.
  - rewrite andb_true_iff, negb_true_iff. intros [Ha Hl].
    cbn [splitlines_go]. rewrite Ha. rewrite IH by assumption.
    now rewrite append_assoc.
Qed.

(** Lines written one per line are read back as they are. *)
Lemma splitlines_unlines ls :
  Forall (fun l => forall_chars (fun a => negb (is_linebreak a)) l = true) ls ->
  splitlines (unlines ls) = ls.
Proof.
  unfold splitlines, unlines. induction 1 as [|l ls Hl _ IH]; [reflexivity|].
  cbn [map]. 
  assert (E : forall w ws, String.concat "" (w :: ws) = (w ++ String.concat "" ws)%string).
  { intros w [|w' ws']; cbn; [now rewrite append_nil_r|reflexivity]. }
  rewrite E.
  assert (L : forall rest, splitlines_go None ((l ++ nl) ++ rest)%string
                           = l :: splitlines_go None rest).
  { intros rest. unfold nl. rewrite append_assoc. cbn [append].
    now rewrite splitlines_go_line by assumption. }
  now rewrite L, IH.
Qed.

Lemma solid_free c s : solid c s -> free_of c s.
Proof.
  apply forall_chars_impl. intros a. rewrite andb_true_iff. tauto.
Qed.

Lemma solid_no (p : ascii -> bool) c s :
  (forall a, p a = true -> is_space a = true) ->
  solid c s -> forall_chars (fun a => negb (p a)) s = true.
Proof.
  intros Hp. apply forall_chars_impl. intros a.
  rewrite andb_true_iff, !negb_true_iff. intros [Ha _].
  destruct (p a) eqn:E; [|reflexivity]. apply Hp in E. congruence.
Qed.

Lemma linebreak_is_space a : is_linebreak a = true -> is_space a = true.
Proof.
  unfold is_linebreak, is_space, code.
  destruct a as [[] [] [] [] [] [] [] []]; cbn; congruence.
Qed.

Lemma blank_is_space a : Ascii.eqb a " " = true -> is_space a = true.
Proof. intros H. apply Ascii.eqb_eq in H. now subst. Qed.

Lemma str_solid c n : is_sign_or_digit c = false -> solid c (str n).
Proof.
  intros Hc. unfold solid.
  apply (forall_chars_impl is_sign_or_digit); [|apply str_chars].
  intros a Ha. rewrite andb_true_iff, !negb_true_iff. split.
  - revert Ha. unfold is_sign_or_digit, is_digit, digit_of, is_space, code.
    destruct a as [[] [] [] [] [] [] [] []]; cbn; congruence.
  - destruct (Ascii.eqb_spec a c); [congruence|reflexivity].
Qed.

Lemma write_directive_solid d t :
  writable d t ->
  forall_chars (fun a => negb (is_space a)) (write_directive d) = true.
Proof.
  destruct d as [[[o ax] ay] ty]. intros (Ho & _ & Ht & _).
  unfold write_directive, directive_line. rewrite !forall_chars_app.
  rewrite (solid_no is_space ">" o), (solid_no is_space "}" ty) by auto.
  rewrite !(solid_no is_space "," (str _)) by (auto; now apply str_solid).
  reflexivity.
Qed.

Lemma forall_chars_weaken (p q : ascii -> bool) s :
  (forall a, q a = true -> p a = true) ->
  forall_chars (fun a => negb (p a)) s = true -> forall_chars (fun a => negb (q a)) s = true.
Proof.
  intros H. apply forall_chars_impl. intros a. rewrite !negb_true_iff.
  destruct (q a) eqn:E; [|reflexivity]. apply H in E. congruence.
Qed.

(** A written directive is selected, and the pattern gives its parts back. *)
Lemma written_matched d t :
  writable d t ->
  let '(options, ax, ay, piece_type) := d in
  selected (write_directive d) = true /\
  re_search (remove_spaces (write_directive d))
  = Some (Some options, str ax, str ay, piece_type) /\
  placement_of (Some options, str ax, str ay, piece_type) = Ok (ax, ay, t).
Proof.
  intros W. pose proof (write_directive_solid d t W) as S.
  destruct d as [[[o ax] ay] ty]. destruct W as (Ho & Hp & Ht & Nt & Sx & Sy).
  split; [reflexivity|]. split.
  - rewrite remove_spaces_id
      by (revert S; apply forall_chars_weaken, blank_is_space).
    rewrite <- (append_nil_r (write_directive _)).
    apply re_search_line; try assumption; try apply str_not_empty;
      try (apply str_without; reflexivity); now apply solid_free.
  - unfold placement_of. rewrite Hp. cbn [bind]. now rewrite !int_str_4300 by assumption.
Qed.

Lemma skipn_nth {A : Type} (l : list A) : forall i a,
  nth_error l i = Some a -> skipn i l = a :: skipn (S i) l.
Proof.
  induction l as [|b l IH]; intros [|i] a H; cbn in *; try discriminate.
  - now injection H as ->.
  - now apply IH.
Qed.

Lemma matched_written ds :
  Forall (fun dt => writable (fst dt) (snd dt)) ds ->
  matched_groups (map (fun dt => write_directive (fst dt)) ds)
  = map (fun dt => let '(o, ax, ay, ty) := fst dt in (Some o, str ax, str ay, ty)) ds.
Proof.
  induction 1 as [|[d t] ds W _ IH]; [reflexivity|].
  cbn [map matched_groups fst snd] in *.
  pose proof (written_matched d t W) as M. destruct d as [[[o ax] ay] ty].
  destruct M as (-> & -> & _). now rewrite IH.
Qed.

Lemma parse_groups_written ds : forall st,
  Forall (fun dt => writable (fst dt) (snd dt)) ds ->
  (piece_index st + List.length ds <= 7)%nat ->
  exists st',
    parse_groups
      (map (fun dt => let '(o, ax, ay, ty) := fst dt in (Some o, str ax, str ay, ty)) ds) st
    = Ok st' /\
    pieces st' = pieces st
                 ++ map placed_piece (combine (skipn (piece_index st) piece_labels) ds) /\
    piece_index st' = (piece_index st + List.length ds)%nat.
Proof.
  induction ds as [|[d t] ds IH]; intros st HF Hlen; cbn [map parse_groups List.length] in *.
  - exists st. rewrite combine_nil, List.app_nil_r. 
    repeat split; lia.
  - inversion HF as [|? ? W HF']; subst. cbn [fst snd] in W.
    pose proof (written_matched d t W) as M. destruct d as [[[o ax] ay] ty].
    destruct M as (_ & _ & Hp). cbn [fst].
    rewrite (parse_match_placed st _ _ _ _ Hp).
    destruct (list_get_labels (piece_index st)) as (label & Hl); [lia|].
    rewrite Hl. cbn [bind].
    match goal with |- context [parse_groups _ ?s] =>
      destruct (IH s HF') as (st' & -> & Hps & Hi) end; [cbn; lia|].
    exists st'. cbn [pieces piece_index] in Hps, Hi.
    split; [reflexivity|]. split; [|lia].
    rewrite Hps, <- List.app_assoc. f_equal.
    apply list_get_nth in Hl. rewrite (skipn_nth _ _ _ Hl). reflexivity.
Qed.

End FileFacts.

Module OrderFacts.

Import PyFloat Tangram Spec FloatOrder GeometryFacts ResolveFacts Script Props.
Local Open Scope list_scope.
Local Open Scope float_scope.

Lemma resolve_piece_canonical_order P p :
  resolve_piece P p
  = (base_vertices <- dict_get shape_templates (name p) ;;
     transformed <- transform_vertices P (x p) (y p) (transform p) base_vertices [] ;;
     vs <- canonical_order transformed ;;
     Ok {| base := p; vertices := vs |}).
Proof.
  unfold resolve_piece, canonical_order.
  destruct (dict_get shape_templates (name p)); cbn [bind]; [|reflexivity].
  destruct (transform_vertices P (x p) (y p) (transform p) a []); cbn [bind]; [|reflexivity].
  destruct (min_point_of a0) as [[j m]|]; cbn [bind]; [|reflexivity].
  destruct (index_scan 0 a0 j m); reflexivity.
Qed.

Lemma min_scan_stays l : forall best_i best i,
  (forall v, In v l -> tuple_lt (min_key v) (min_key best) = false) ->
  min_scan best_i best i l = (best_i, best).
Proof.
  induction l as [|p l IH]; intros best_i best i H; cbn; [reflexivity|].
  rewrite (H p) by now left. apply IH. intros v Hv. apply H. now right.
Qed.

(** What [canonical_order] returns: the list read cyclically from a position
    whose point has no key below it. *)
Lemma canonical_order_spec l :
  l <> [] ->
  exists k f rest,
    canonical_order l = Ok (f :: rest) /\
    (k < List.length l)%nat /\
    f :: rest = skipn k l ++ firstn k l /\
    forall v, In v (f :: rest) -> tuple_lt (min_key v) (min_key f) = false.
Proof.
  intros Hne.
  destruct (canonical_rotation l Hne) as (j & m & k & f & Hm & Hk & Hf & Hfm & Hleast).
  destruct (rotation_first l k f Hf) as (rest & E).
  exists k, f, rest. unfold canonical_order. rewrite Hm. cbn [bind]. rewrite Hk. cbn [bind].
  rewrite E. repeat split.
  - apply nth_error_Some. congruence.
  - intros v Hv. rewrite <- E in Hv. apply rotation_in in Hv.
    destruct Hfm as [->|Hfm]; [auto|].
    rewrite (tuple_lt_min_key_eq v f m Hfm). auto.
Qed.

Lemma canonical_order_empty : canonical_order [] = Raise ValueError.
Proof. reflexivity. Qed.

Lemma canonical_order_fixed f rest :
  (forall v, In v (f :: rest) -> tuple_lt (min_key v) (min_key f) = false) ->
  canonical_order (f :: rest) = Ok (f :: rest).
Proof.
  intros H. unfold canonical_order. cbn [min_point_of].
  rewrite min_scan_stays by (intros v Hv; apply H; now right).
  cbn [bind index_scan Nat.eqb orb firstn skipn]. now rewrite List.app_nil_r.
Qed.

Lemma rotation_permutation {A : Type} (l : list A) k :
  Permutation l (skipn k l ++ firstn k l).
Proof.
  rewrite <- (firstn_skipn k l) at 1. apply Permutation_app_comm.
Qed.

End OrderFacts.

Module UniqueFacts.

Import PyFloat Tangram Spec FloatOrder GeometryFacts ResolveFacts OrderFacts Script Props.
Local Open Scope list_scope.
Local Open Scope float_scope.

Lemma tuple_lt_asym a b : tuple_lt a b = true -> tuple_lt b a = false.
Proof.
  intros H. destruct (tuple_lt b a) eqn:E; [|reflexivity].
  pose proof (tuple_lt_trans _ _ _ H E) as C. now rewrite tuple_lt_irrefl in C.
Qed.

Lemma tuple_eq_not_lt v f :
  tuple_eq v f = true -> tuple_lt (min_key f) (min_key v) = false.
Proof.
  intros H. rewrite (tuple_lt_min_key_eq f v f H). apply tuple_lt_irrefl.
Qed.

Lemma min_scan_strict a : forall best_i best i f b,
  strictly_first f (best :: a ++ b) ->
  min_scan best_i best i (a ++ f :: b) = ((i + List.length a)%nat, f).
Proof.
  induction a as [|p a IH]; intros best_i best i f b H; cbn [app min_scan List.length].
  - rewrite (H best) by now left.
    rewrite min_scan_stays; [f_equal; lia|].
    intros v Hv. apply tuple_lt_asym, H. now right.
  - destruct (tuple_lt (min_key p) (min_key best)).
    + rewrite IH; [f_equal; lia|]. intros v Hv. apply H. now right.
    + rewrite IH; [f_equal; lia|]. intros v [<-|Hv]; apply H; [now left|now do 2 right].
Qed.

Lemma index_scan_strict a : forall i n f b,
  strictly_first f a -> n = (i + List.length a)%nat ->
  index_scan i (a ++ f :: b) n f = Ok n.
Proof.
  induction a as [|p a IH]; intros i n f b H ->; cbn [app index_scan List.length].
  - rewrite Nat.add_0_r, Nat.eqb_refl. reflexivity.
  - assert (N : Nat.eqb i (i + S (List.length a)) = false) by (apply Nat.eqb_neq; lia).
    rewrite N. cbn [orb].
    destruct (tuple_eq p f) eqn:E.
    + apply tuple_eq_not_lt in E. rewrite (H p) in E by now left. discriminate.
    + rewrite (IH (S i) _ f b); [f_equal|intros v Hv; apply H; now right|]; lia.
Qed.

(** With a point strictly first, the canonical order starts at this point. *)
Lemma canonical_order_strict a f b :
  strictly_first f (a ++ b) -> canonical_order (a ++ f :: b) = Ok (f :: b ++ a).
Proof.
  intros H. unfold canonical_order.
  destruct a as [|p a].
  - cbn [app min_point_of]. rewrite min_scan_stays.
    2:{ intros v Hv. apply tuple_lt_asym, H. exact Hv. }
    cbn [bind index_scan Nat.eqb orb skipn firstn]. reflexivity.
  - cbn [app min_point_of]. rewrite (min_scan_strict a 0%nat p 1%nat f b H).
    cbn [bind]. change (p :: a ++ f :: b) with ((p :: a) ++ f :: b).
    rewrite (index_scan_strict (p :: a) 0%nat (1 + List.length a)%nat f b).
    + cbn [bind]. 
      assert (L : (1 + List.length a)%nat = List.length (p :: a)) by reflexivity.
      rewrite L, skipn_app, firstn_app, Nat.sub_diag, skipn_all, firstn_all.
      cbn [skipn firstn app]. now rewrite List.app_nil_r.
    + intros v Hv. apply H. apply in_or_app. now left.
    + reflexivity.
Qed.

(** A rotation of [a ++ f :: b] is [a' ++ f :: b'] with the same cyclic
    order around [f]. *)
Lemma rotation_split {A : Type} (a b : list A) f n :
  exists a' b',
    skipn n (a ++ f :: b) ++ firstn n (a ++ f :: b) = a' ++ f :: b' /\
    b' ++ a' = b ++ a /\
    Permutation (a' ++ b') (a ++ b).
Proof.
  destruct (Nat.le_gt_cases n (List.length a)) as [Hn|Hn].
  - exists (skipn n a), (b ++ firstn n a).
    rewrite skipn_app, firstn_app.
    replace (n - List.length a)%nat with 0%nat by lia. cbn [skipn firstn].
    split; [|split].
    + rewrite List.app_nil_r, <- List.app_assoc. reflexivity.
    + rewrite <- List.app_assoc. now rewrite firstn_skipn.
    + transitivity ((b ++ firstn n a) ++ skipn n a); [apply Permutation_app_comm|].
      rewrite <- List.app_assoc, firstn_skipn. apply Permutation_app_comm.
  - set (m := (n - List.length a - 1)%nat).
    exists (skipn m b ++ a), (firstn m b).
    rewrite skipn_app, firstn_app.
    replace (n - List.length a)%nat with (S m) by lia.
    rewrite skipn_all2, firstn_all2 by lia. cbn [skipn firstn app].
    split; [|split].
    + rewrite <- List.app_assoc. reflexivity.
    + rewrite List.app_assoc. now rewrite firstn_skipn.
    + transitivity (firstn m b ++ skipn m b ++ a); [apply Permutation_app_comm|].
      rewrite List.app_assoc, firstn_skipn. apply Permutation_app_comm.
Qed.

End UniqueFacts.

Module OutcomeFacts.

Import PyFloat Tangram Spec FloatOrder ParseFacts GeometryFacts ResolveFacts EmitFacts OrderFacts Script Props.
Local Open Scope list_scope.
Local Open Scope float_scope.

Lemma of_int_raises n e : of_int n = Raise e -> e = OverflowError.
Proof. unfold of_int. destruct (binary_normalize _ _ _ _ _); congruence. Qed.

Lemma radians_raises d e : radians d = Raise e -> e = OverflowError.
Proof.
  unfold radians. destruct (of_int d) eqn:E; cbn [bind]; [discriminate|].
  intros [= <-]. now apply of_int_raises in E.
Qed.

Section Outcome.

Variable P : platform.

Lemma _rotate_raises x y d e : _rotate P x y d = Raise e -> e = OverflowError.
Proof.
  unfold _rotate. destruct (radians d) eqn:E; cbn [bind]; [discriminate|].
  intros [= <-]. now apply radians_raises in E.
Qed.

Lemma transform_vertex_raises ax ay t v e :
  transform_vertex P ax ay t v = Raise e -> e = OverflowError.
Proof.
  destruct v as [vx vy]. unfold transform_vertex.
  destruct (_rotate P vx vy (rotate t)) as [[xr yr]|e0] eqn:R; cbn [bind].
  2:{ intros [= <-]. now apply _rotate_raises in R. }
  destruct (of_int ax) eqn:X; cbn [bind].
  2:{ intros [= <-]. now apply of_int_raises in X. }
  destruct (of_int ay) eqn:Y; cbn [bind]; [discriminate|].
  intros [= <-]. now apply of_int_raises in Y.
Qed.

Lemma transform_vertex_ok ax ay t v v' :
  transform_vertex P ax ay t v = Ok v' ->
  (exists fx, of_int ax = Ok fx) /\ (exists fy, of_int ay = Ok fy).
Proof.
  destruct v as [vx vy]. unfold transform_vertex.
  destruct (_rotate P vx vy (rotate t)) as [[xr yr]|]; cbn [bind]; [|discriminate].
  destruct (of_int ax); cbn [bind]; [|discriminate].
  destruct (of_int ay); cbn [bind]; [|discriminate]. eauto.
Qed.

Lemma transform_vertices_raises ax ay t base : forall acc e,
  transform_vertices P ax ay t base acc = Raise e -> e = OverflowError.
Proof.
  induction base as [|v base IH]; intros acc e; cbn; [discriminate|].
  destruct (transform_vertex P ax ay t v) eqn:E; cbn [bind].
  - apply IH.
  - intros [= <-]. now apply transform_vertex_raises in E.
Qed.

Lemma transform_vertices_ok ax ay t base acc l :
  base <> [] -> transform_vertices P ax ay t base acc = Ok l ->
  (exists fx, of_int ax = Ok fx) /\ (exists fy, of_int ay = Ok fy).
Proof.
  destruct base as [|v base]; [congruence|]. intros _. cbn.
  destruct (transform_vertex P ax ay t v) eqn:E; cbn [bind]; [|discriminate].
  intros _. eapply transform_vertex_ok; eassumption.
Qed.

Lemma template_label label T :
  dict_get shape_templates label = Ok T -> In label piece_labels.
Proof.
  unfold shape_templates, piece_labels. cbn [dict_get].
  repeat (match goal with
          | |- context [String.eqb ?a ?b] =>
              destruct (String.eqb_spec a b) as [<-|_]; [intros _; cbn; tauto|]
          end).
  discriminate.
Qed.

Lemma unknown_label label :
  ~ In label piece_labels -> dict_get shape_templates label = Raise KeyError.
Proof.
  intros H. destruct (dict_get shape_templates label) as [T|e] eqn:E.
  - apply template_label in E. contradiction.
  - revert E. unfold shape_templates. cbn [dict_get].
    repeat (match goal with
            | |- context [String.eqb ?a ?b] => destruct (String.eqb a b); [discriminate|]
            end).
    now intros [= <-].
Qed.

(** The outcomes of the resolution of one piece. *)
Lemma resolve_piece_ok p r :
  resolve_piece P p = Ok r ->
  exists T,
    dict_get shape_templates (name p) = Ok T /\
    In (name p) piece_labels /\ convertible p /\ base r = p /\
    List.length (vertices r) = List.length T /\ vertices r <> [].
Proof.
  intros H. pose proof H as H0. unfold resolve_piece in H.
  destruct (dict_get shape_templates (name p)) as [T|] eqn:HT; cbn [bind] in H; [|discriminate].
  destruct (transform_vertices P (x p) (y p) (transform p) T []) as [tr|] eqn:Htr;
    cbn [bind] in H; [|discriminate].
  destruct (resolve_piece_spec P p T tr HT Htr) as (r' & k & Hr & Hb & [Hk Hv] & _).
  rewrite H0 in Hr. injection Hr as <-.
  pose proof (transform_vertices_length _ _ _ _ _ _ _ Htr) as L. cbn in L.
  pose proof (templates_not_empty _ _ HT) as NT.
  exists T. split; [reflexivity|]. split; [eapply template_label; eassumption|].
  split; [eapply transform_vertices_ok; eassumption|]. split; [assumption|].
  assert (Len : List.length (vertices r) = List.length T)
    by (rewrite Hv, rotation_length; exact L).
  split; [exact Len|]. intros E. rewrite E in Len. destruct T; [congruence|discriminate].
Qed.

Lemma resolve_piece_raises p e :
  resolve_piece P p = Raise e ->
  (e = KeyError /\ ~ In (name p) piece_labels) \/
  (e = OverflowError /\ In (name p) piece_labels).
Proof.
  unfold resolve_piece.
  destruct (dict_get shape_templates (name p)) as [T|e0] eqn:HT; cbn [bind].
  - intros H. right.
    destruct (transform_vertices P (x p) (y p) (transform p) T []) as [tr|e1] eqn:Htr;
      cbn [bind] in H.
    + destruct (resolve_piece_spec P p T tr HT Htr) as (r' & k & Hr & _).
      unfold resolve_piece in Hr. rewrite HT in Hr. cbn [bind] in Hr. rewrite Htr in Hr.
      cbn [bind] in Hr. rewrite Hr in H. discriminate.
    + injection H as <-. split; [|eapply template_label; eassumption].
      eapply transform_vertices_raises; eassumption.
  - intros [= <-]. left.
    destruct (in_dec string_dec (name p) piece_labels) as [I|N].
    + destruct (template_of_label _ I) as (T & E). congruence.
    + rewrite (unknown_label _ N) in HT. split; [congruence|assumption].
Qed.

Lemma _compute_vertices_ok ps : forall rs,
  _compute_vertices P ps = Ok rs ->
  map base rs = ps /\ Forall convertible ps /\ Forall (fun r => vertices r <> []) rs.
Proof.
  induction ps as [|p ps IH]; intros rs; cbn.
  - intros [= <-]. repeat split; constructor.
  - destruct (resolve_piece P p) as [r|] eqn:R; cbn [bind]; [|discriminate].
    destruct (_compute_vertices P ps) as [rs'|]; cbn [bind]; [|discriminate].
    intros [= <-]. destruct (IH rs' eq_refl) as (Hb & Hc & Hv).
    destruct (resolve_piece_ok p r R) as (T & _ & _ & C & B & _ & V).
    repeat split; [cbn; congruence|constructor; assumption|constructor; assumption].
Qed.

Lemma resolve_piece_size p r :
  resolve_piece P p = Ok r -> List.length (vertices r) = template_size (name p).
Proof.
  intros H. destruct (resolve_piece_ok p r H) as (T & HT & _ & _ & _ & L & _).
  unfold template_size. now rewrite HT.
Qed.

Lemma _compute_vertices_sizes ps : forall rs,
  _compute_vertices P ps = Ok rs ->
  map (fun r => List.length (vertices r)) rs = map template_size (map name ps).
Proof.
  induction ps as [|p ps IH]; intros rs; cbn.
  - now intros [= <-].
  - destruct (resolve_piece P p) as [r|] eqn:R; cbn [bind]; [|discriminate].
    destruct (_compute_vertices P ps) as [rs'|]; cbn [bind]; [|discriminate].
    intros [= <-]. cbn [map]. now rewrite (resolve_piece_size p r R), (IH rs' eq_refl).
Qed.

Lemma _compute_vertices_raises ps : forall e,
  Forall (fun p => In (name p) piece_labels) ps ->
  _compute_vertices P ps = Raise e -> e = OverflowError.
Proof.
  induction ps as [|p ps IH]; intros e HF; cbn; [discriminate|].
  inversion HF as [|? ? Hp HF']; subst.
  destruct (resolve_piece P p) as [r|e0] eqn:R; cbn [bind].
  - destruct (_compute_vertices P ps) as [rs'|e1] eqn:C; cbn [bind]; [discriminate|].
    intros [= <-]. now apply IH.
  - intros [= <-]. apply resolve_piece_raises in R. destruct R as [[_ N]|[E _]]; tauto.
Qed.

End Outcome.

End OutcomeFacts.

Module EmitMore.

Import PyStr PyFloat Tangram Spec FloatOrder ParseFacts GeometryFacts ResolveFacts EmitFacts OrderFacts OutcomeFacts PyStrFacts Script Props.
Local Open Scope list_scope.

Section Emit.
Variable P : platform.

Lemma all_x_all_y_length rs : List.length (all_x rs) = List.length (all_y rs).
Proof.
  unfold all_x, all_y. induction rs as [|r rs IH]; cbn; [reflexivity|].
  now rewrite !List.length_app, !length_map, IH.
Qed.

Lemma all_y_empty rs : all_x rs = [] -> all_y rs = [].
Proof.
  intros H. pose proof (all_x_all_y_length rs) as L. rewrite H in L.
  destruct (all_y rs); [reflexivity|discriminate].
Qed.

Lemma all_x_empty_iff rs : all_x rs = [] <-> Forall (fun r => vertices r = []) rs.
Proof.
  unfold all_x. induction rs as [|r rs IH]; cbn.
  - split; constructor.
  - split.
    + intros H. apply app_eq_nil in H. destruct H as [Hr Hrs].
      constructor; [|now apply IH]. destruct (vertices r); [reflexivity|discriminate].
    + intros H. inversion H as [|? ? Hr Hrs]; subst. rewrite Hr. cbn. now apply IH.
Qed.

Lemma piece_line_closed r :
  piece_line P r = match vertices r with
                   | [] => Raise IndexError
                   | first :: _ => Ok (closed_path P first (vertices r))
                   end.
Proof.
  unfold piece_line, closed_path, list_get.
  destruct (vertices r) as [|v vs]; cbn [nth_error bind]; [reflexivity|].
  now rewrite map_app.
Qed.

Lemma piece_lines_ok rs : forall ls,
  piece_lines P rs = Ok ls -> paths_of P rs ls.
Proof.
  unfold paths_of. induction rs as [|r rs IH]; intros ls; cbn.
  - intros [= <-]. constructor.
  - rewrite piece_line_closed. destruct (vertices r) as [|v vs] eqn:V; cbn [bind]; [discriminate|].
    destruct (piece_lines P rs) as [ls'|]; cbn [bind]; [|discriminate].
    intros [= <-]. constructor; [|now apply IH]. rewrite <- V. eauto.
Qed.

Lemma paths_of_not_empty rs ls :
  paths_of P rs ls -> Forall (fun r => vertices r <> []) rs.
Proof.
  unfold paths_of. induction 1 as [|r l rs ls (first & rest & V & _) _ IH]; constructor.
  - rewrite V. discriminate.
  - exact IH.
Qed.

Lemma piece_lines_raises rs : forall e,
  piece_lines P rs = Raise e -> e = IndexError /\ Exists (fun r => vertices r = []) rs.
Proof.
  induction rs as [|r rs IH]; intros e; cbn; [discriminate|].
  rewrite piece_line_closed. destruct (vertices r) as [|v vs] eqn:V; cbn [bind].
  - intros [= <-]. split; [reflexivity|now left].
  - destruct (piece_lines P rs) as [ls'|e'] eqn:L; cbn [bind]; [discriminate|].
    intros [= <-]. destruct (IH e' eq_refl). split; [assumption|now right].
Qed.

Lemma grid_corners_empty rs : all_x rs = [] -> grid_corners rs = Raise ValueError.
Proof. intros H. unfold grid_corners. now rewrite H. Qed.

Lemma grid_corners_total rs : all_x rs <> [] -> exists c, grid_corners rs = Ok c.
Proof.
  intros Hx. assert (Hy : all_y rs <> []).
  { intros E. pose proof (all_x_all_y_length rs) as L. rewrite E in L.
    destruct (all_x rs); [congruence|discriminate]. }
  destruct (float_min_spec _ Hx) as (a & Ea & _), (float_max_spec _ Hx) as (b & Eb & _).
  destruct (float_min_spec _ Hy) as (c & Ec & _), (float_max_spec _ Hy) as (d & Ed & _).
  unfold grid_corners. rewrite Ea, Eb, Ec, Ed. cbn [bind]. eauto.
Qed.

(** What [draw_pieces] writes when it returns: five lines of preamble, the
    grid, the origin, one closed path for each piece and two closing
    lines. *)
Lemma picture_ok rs out :
  picture P rs = Ok out ->
  List.length out = (9 + List.length rs)%nat /\
  paths_of P rs (firstn (List.length rs) (skipn 7 out)) /\
  skipn (7 + List.length rs) out
  = [ ("\end{tikzpicture}" ++ nl)%string; ("\end{document}" ++ nl)%string ].
Proof.
  unfold picture.
  destruct (grid_corners rs) as [[[[a b] c] d]|]; cbn [bind]; [|discriminate].
  destruct (piece_lines P rs) as [ls|] eqn:L; cbn [bind]; [|discriminate].
  intros [= <-]. pose proof (piece_lines_ok rs ls L) as F.
  pose proof (Forall2_length F) as Len.
  split; [|split].
  - cbn [List.length app]. rewrite List.length_app. cbn. lia.
  - cbn [skipn app]. rewrite Len, firstn_app, Nat.sub_diag, firstn_all. cbn [firstn].
    now rewrite List.app_nil_r.
  - rewrite Len. cbn [Nat.add skipn app].
    rewrite skipn_app, skipn_all, Nat.sub_diag. reflexivity.
Qed.

Lemma picture_raises rs e :
  picture P rs = Raise e ->
  (e = ValueError /\ all_x rs = []) \/
  (e = IndexError /\ all_x rs <> [] /\ Exists (fun r => vertices r = []) rs).
Proof.
  unfold picture. destruct (all_x rs) as [|a l] eqn:Hx.
  - rewrite (grid_corners_empty rs Hx). cbn [bind]. intros [= <-]. now left.
  - destruct (grid_corners_total rs) as ([[[a' b] c] d] & ->); [congruence|]. cbn [bind].
    destruct (piece_lines P rs) as [ls|e'] eqn:L; cbn [bind]; [discriminate|].
    intros [= <-]. destruct (piece_lines_raises rs e' L) as [-> He].
    right. repeat split; [discriminate|exact He].
Qed.

End Emit.
End EmitMore.

Module WriteFacts.

Import PyStr PyFloat PyFile Tangram Spec FloatOrder ParseFacts GeometryFacts ResolveFacts.
Import EmitFacts OutcomeFacts EmitMore Pipeline PyStrFacts Script Props.
Local Open Scope list_scope.

Lemma map_Ok_inj {A : Type} (l1 : list A) : forall l2,
  map (@Ok A) l1 = map (@Ok A) l2 -> l1 = l2.
Proof.
  induction l1 as [|a l1 IH]; intros [|b l2]; cbn; try discriminate; [reflexivity|].
  intros [= -> H]. now rewrite (IH _ H).
Qed.

(** The coordinates of [all_x] and [all_y] are those of the vertices of the
    pieces. *)
Lemma in_all_x rs m :
  In m (all_x rs) <-> exists r v, In r rs /\ In v (vertices r) /\ fst v = m.
Proof.
  unfold all_x. rewrite in_flat_map. split.
  - intros (r & Hr & Hm). apply in_map_iff in Hm. destruct Hm as (v & E & Hv). eauto.
  - intros (r & v & Hr & Hv & E). exists r. split; [exact Hr|].
    apply in_map_iff. eauto.
Qed.

Lemma in_all_y rs m :
  In m (all_y rs) <-> exists r v, In r rs /\ In v (vertices r) /\ snd v = m.
Proof.
  unfold all_y. rewrite in_flat_map. split.
  - intros (r & Hr & Hm). apply in_map_iff in Hm. destruct Hm as (v & E & Hv). eauto.
  - intros (r & v & Hr & Hv & E). exists r. split; [exact Hr|].
    apply in_map_iff. eauto.
Qed.

Lemma least_of_all_x rs m : is_minimum m (all_x rs) -> least_coordinate fst rs m.
Proof.
  intros [Hin Hleast]. split; [now apply in_all_x|].
  intros r v Hr Hv. apply Hleast, in_all_x. eauto.
Qed.

Lemma greatest_of_all_x rs m : is_maximum m (all_x rs) -> greatest_coordinate fst rs m.
Proof.
  intros [Hin Hleast]. split; [now apply in_all_x|].
  intros r v Hr Hv. apply Hleast, in_all_x. eauto.
Qed.

Lemma least_of_all_y rs m : is_minimum m (all_y rs) -> least_coordinate snd rs m.
Proof.
  intros [Hin Hleast]. split; [now apply in_all_y|].
  intros r v Hr Hv. apply Hleast, in_all_y. eauto.
Qed.

Lemma greatest_of_all_y rs m : is_maximum m (all_y rs) -> greatest_coordinate snd rs m.
Proof.
  intros [Hin Hleast]. split; [now apply in_all_y|].
  intros r v Hr Hv. apply Hleast, in_all_y. eauto.
Qed.

Lemma some_vertex rs :
  (exists r, In r rs /\ vertices r <> []) <-> all_x rs <> [].
Proof.
  rewrite all_x_empty_iff. split.
  - intros (r & Hr & Hv) HF. rewrite Forall_forall in HF. now apply Hv, HF.
  - intros H. induction rs as [|r rs IH].
    + exfalso. apply H. constructor.
    + destruct (vertices r) as [|v vs] eqn:E.
      * destruct IH as (r' & Hr' & Hv').
        { intros HF. apply H. constructor; assumption. }
        exists r'. split; [now right|exact Hv'].
      * exists r. split; [now left|]. rewrite E. discriminate.
Qed.

(** The corners of the grid, when there is a vertex. *)
Lemma grid_corners_spec rs :
  all_x rs <> [] ->
  exists min_x max_x min_y max_y,
    least_coordinate fst rs min_x /\ greatest_coordinate fst rs max_x /\
    least_coordinate snd rs min_y /\ greatest_coordinate snd rs max_y /\
    grid_corners rs = Ok ((min_x - 2)%float, (min_y - 2)%float,
                          (max_x + 2)%float, (max_y + 2)%float).
Proof.
  intros Hx. assert (Hy : all_y rs <> []).
  { intros E. pose proof (all_x_all_y_length rs) as L. rewrite E in L.
    destruct (all_x rs); [congruence|discriminate]. }
  destruct (float_min_spec _ Hx) as (a & Ea & Sa), (float_max_spec _ Hx) as (b & Eb & Sb).
  destruct (float_min_spec _ Hy) as (c & Ec & Sc), (float_max_spec _ Hy) as (d & Ed & Sd).
  exists a, b, c, d. unfold grid_corners. rewrite Ea, Eb, Ec, Ed. cbn [bind].
  repeat split; try reflexivity;
    first [now apply least_of_all_x | now apply greatest_of_all_x
          | now apply least_of_all_y | now apply greatest_of_all_y
          | apply least_of_all_x; assumption | apply greatest_of_all_x; assumption
          | apply least_of_all_y; assumption | apply greatest_of_all_y; assumption ].
Qed.

Lemma grid_corners_raises rs e :
  grid_corners rs = Raise e -> e = ValueError /\ all_x rs = [].
Proof.
  intros H. destruct (all_x rs) as [|a l] eqn:Hx.
  - rewrite (grid_corners_empty rs Hx) in H. now injection H as <-.
  - destruct (grid_corners_total rs) as (c & E); [congruence|]. congruence.
Qed.

Section Write.

Variable P : platform.
Variable w : writing.

(** What has been written stays written. *)
Lemma write_lines_nth texts : forall k acc i a,
  nth_error acc i = Some a ->
  nth_error (fst (write_lines w k texts acc)) i = Some a.
Proof.
  induction texts as [|[t|e] texts IH]; intros k acc i a H; cbn [write_lines fst];
    try exact H.
  destruct (write_raises w k); [exact H|].
  apply IH. rewrite nth_error_app1; [exact H|].
  apply nth_error_Some. congruence.
Qed.

Lemma write_lines_step k t texts acc :
  write_raises w k = None ->
  write_lines w k (Ok t :: texts) acc = write_lines w (S k) texts (acc ++ [t]).
Proof. intros H. cbn [write_lines]. now rewrite H. Qed.

Lemma write_lines_ok texts : forall k acc written,
  write_lines w k texts acc = (written, Ok tt) ->
  exists ls, texts = map Ok ls /\ written = acc ++ ls.
Proof.
  induction texts as [|[t|e] texts IH]; intros k acc written; cbn [write_lines].
  - intros [= <-]. exists []. now rewrite List.app_nil_r.
  - destruct (write_raises w k); [discriminate|]. intros H.
    destruct (IH _ _ _ H) as (ls & -> & ->).
    exists (t :: ls). split; [reflexivity|]. now rewrite <- List.app_assoc.
  - discriminate.
Qed.

Lemma write_lines_raises texts : forall k acc written e,
  write_lines w k texts acc = (written, Raise e) ->
  In (Raise e) texts \/ exists j, write_raises w j = Some e.
Proof.
  induction texts as [|[t|e0] texts IH]; intros k acc written e; cbn [write_lines].
  - discriminate.
  - destruct (write_raises w k) as [e1|] eqn:W.
    + intros [= _ <-]. right. eauto.
    + intros H. destruct (IH _ _ _ _ H) as [Hin|Hw]; [left; now right|now right].
  - intros [= _ <-]. left. now left.
Qed.

Lemma write_lines_all ls : forall k acc,
  (forall j, write_raises w j = None) ->
  write_lines w k (map Ok ls) acc = (acc ++ ls, Ok tt).
Proof.
  induction ls as [|l ls IH]; intros k acc Hw; cbn [map write_lines].
  - now rewrite List.app_nil_r.
  - rewrite Hw, IH by exact Hw. now rewrite <- List.app_assoc.
Qed.

Lemma write_lines_stop ls e rest : forall k acc,
  (forall j, write_raises w j = None) ->
  write_lines w k (map Ok ls ++ Raise e :: rest) acc = (acc ++ ls, Raise e).
Proof.
  induction ls as [|l ls IH]; intros k acc Hw; cbn [map app write_lines].
  - now rewrite List.app_nil_r.
  - rewrite Hw, IH by exact Hw. now rewrite <- List.app_assoc.
Qed.

(** The texts of the pieces, one call of [piece_line] after the other. *)
Lemma piece_lines_map rs : forall ls,
  piece_lines P rs = Ok ls <-> map (piece_line P) rs = map Ok ls.
Proof.
  induction rs as [|r rs IH]; intros ls; cbn [piece_lines map].
  - split.
    + now intros [= <-].
    + destruct ls; [reflexivity|discriminate].
  - destruct (piece_line P r) as [l|e]; cbn [bind].
    + destruct (piece_lines P rs) as [ls'|e'] eqn:E; cbn [bind].
      * split.
        -- intros [= <-]. cbn [map]. f_equal. now apply IH.
        -- destruct ls as [|l0 ls0]; [discriminate|]. cbn [map]. intros [= -> H].
           apply IH in H. congruence.
      * split; [discriminate|].
        destruct ls as [|l0 ls0]; [discriminate|]. cbn [map]. intros [= -> H].
        apply IH in H. discriminate.
    + split; [discriminate|]. destruct ls; discriminate.
Qed.

Lemma piece_line_raises r e :
  piece_line P r = Raise e -> e = IndexError /\ vertices r = [].
Proof.
  rewrite piece_line_closed. destruct (vertices r); [|discriminate].
  intros [= <-]. auto.
Qed.

(** The statements of the block and the texts of [picture]. *)
Lemma statements_picture rs a b c d out :
  grid_corners rs = Ok (a, b, c, d) ->
  picture P rs = Ok out -> statements P a b c d rs = map Ok out.
Proof.
  intros G. unfold picture. rewrite G. cbn [bind].
  destruct (piece_lines P rs) as [ls|] eqn:L; cbn [bind]; [|discriminate].
  intros [= <-]. unfold statements. apply piece_lines_map in L. rewrite L.
  cbn [map app]. now rewrite map_app.
Qed.

Lemma statements_Ok rs a b c d ls :
  grid_corners rs = Ok (a, b, c, d) ->
  statements P a b c d rs = map Ok ls -> picture P rs = Ok ls.
Proof.
  intros G H. unfold picture. rewrite G. cbn [bind].
  unfold statements in H.
  destruct ls as [|l1 [|l2 [|l3 [|l4 [|l5 [|l6 [|l7 ls]]]]]]]; try discriminate.
  cbn [map app] in H. injection H as <- <- <- <- <- <- <- H.
  symmetry in H. apply map_eq_app in H. destruct H as (m & f & -> & Hm & Hf).
  symmetry in Hm. apply piece_lines_map in Hm. rewrite Hm. cbn [bind].
  destruct f as [|f1 [|f2 [|f3 f]]]; try discriminate.
  cbn [map] in Hf. injection Hf as -> ->. reflexivity.
Qed.

Lemma statements_raise rs a b c d e :
  In (Raise e) (statements P a b c d rs) ->
  e = IndexError /\ Exists (fun r => vertices r = []) rs.
Proof.
  unfold statements. cbn [app In].
  intros [H|[H|[H|[H|[H|[H|[H|H]]]]]]]; try discriminate.
  apply in_app_or in H. destruct H as [H|H].
  - apply in_map_iff in H. destruct H as (r & E & Hr).
    apply piece_line_raises in E. destruct E as [-> V].
    split; [reflexivity|]. apply Exists_exists. eauto.
  - cbn in H. destruct H as [H|[H|[]]]; discriminate.
Qed.

(** How [draw_pieces] can fail: [min] of an empty list, before the file is
    opened; the file system; or a piece without vertices. *)
Lemma draw_pieces_raises rs written e :
  draw_pieces P w rs = (written, Raise e) ->
  (e = ValueError /\ all_x rs = [] /\ written = []) \/
  open_raises w = Some e \/
  (exists k, write_raises w k = Some e) \/
  close_raises w = Some e \/
  (e = IndexError /\ Exists (fun r => vertices r = []) rs).
Proof.
  unfold draw_pieces.
  destruct (grid_corners rs) as [[[[a b] c] d]|e0] eqn:G.
  - destruct (open_raises w) as [e1|] eqn:O.
    + intros [= _ <-]. auto.
    + destruct (write_lines w 0 (statements P a b c d rs) []) as [wr r] eqn:W.
      destruct (close_raises w) as [e2|] eqn:C.
      * intros [= _ <-]. auto.
      * intros [= -> ->]. apply write_lines_raises in W. destruct W as [Hin|Hw].
        -- do 4 right. eapply statements_raise; eassumption.
        -- auto.
  - intros [= <- <-]. apply grid_corners_raises in G. destruct G as [-> Hx]. auto.
Qed.

(** The texts written, once the file is open. *)
Lemma draw_pieces_written rs a b c d :
  grid_corners rs = Ok (a, b, c, d) ->
  open_raises w = None ->
  fst (draw_pieces P w rs) = fst (write_lines w 0 (statements P a b c d rs) []).
Proof.
  intros G Ho. unfold draw_pieces. rewrite G, Ho.
  now destruct (write_lines w 0 (statements P a b c d rs) []).
Qed.

(** What [draw_pieces] has written when it returns. *)
Lemma draw_pieces_returns rs written :
  draw_pieces P w rs = (written, Ok tt) -> picture P rs = Ok written.
Proof.
  unfold draw_pieces.
  destruct (grid_corners rs) as [[[[a b] c] d]|e0] eqn:G; [|discriminate].
  destruct (open_raises w) as [e1|]; [discriminate|].
  destruct (write_lines w 0 (statements P a b c d rs) []) as [wr r] eqn:W.
  destruct (close_raises w) as [e2|]; [discriminate|].
  intros [= -> ->]. apply write_lines_ok in W. destruct W as (ls & E & ->).
  cbn [app]. now apply (statements_Ok rs a b c d).
Qed.

(** With a file system that never fails, [draw_pieces] writes the texts of
    [picture]. *)
Lemma draw_pieces_reliable rs out :
  never_fails w -> picture P rs = Ok out -> draw_pieces P w rs = (out, Ok tt).
Proof.
  intros (Ho & Hw & Hc) H. pose proof H as H0. unfold picture in H.
  destruct (grid_corners rs) as [[[[a b] c] d]|e0] eqn:G; cbn [bind] in H; [|discriminate].
  unfold draw_pieces. rewrite G, Ho, (statements_picture rs a b c d out G H0).
  now rewrite write_lines_all, Hc by exact Hw.
Qed.

(** With a file system that never fails and a first piece without vertices
    after the pieces [before], the seven first lines and the paths of
    [before] are written, and [IndexError] is raised. *)
Lemma draw_pieces_stops before r after :
  never_fails w ->
  all_x (before ++ r :: after) <> [] ->
  Forall (fun r' => vertices r' <> []) before ->
  vertices r = [] ->
  exists written,
    draw_pieces P w (before ++ r :: after) = (written, Raise IndexError) /\
    List.length written = (7 + List.length before)%nat /\
    paths_of P before (skipn 7 written).
Proof.
  intros (Ho & Hw & Hc) Hx Hb Hr.
  destruct (grid_corners_total _ Hx) as ([[[a b] c] d] & G).
  destruct (piece_lines_total P before Hb) as (lsb & Lb).
  pose proof (piece_lines_ok P before lsb Lb) as Pb.
  apply piece_lines_map in Lb.
  unfold draw_pieces. rewrite G, Ho. unfold statements.
  rewrite map_app, Lb. cbn [map]. rewrite piece_line_closed, Hr.
  match goal with
  | |- context [write_lines w 0 (?h ++ (map Ok lsb ++ Raise IndexError :: ?t1) ++ ?t2) []] =>
      replace (h ++ (map Ok lsb ++ Raise IndexError :: t1) ++ t2)
        with (map Ok ([ ("\documentclass{article}" ++ nl)%string;
                        ("\usepackage{tikz}" ++ nl)%string;
                        ("\usepackage[margin=0.5in]{geometry}" ++ nl)%string;
                        ("\begin{document}" ++ nl)%string;
                        ("\begin{tikzpicture}[scale=1]" ++ nl)%string;
                        grid_line P a b c d;
                        ("  \filldraw[red] (0,0) circle (1pt);" ++ nl)%string ] ++ lsb)
              ++ Raise IndexError :: (t1 ++ t2))
        by (rewrite map_app, <- !List.app_assoc; reflexivity)
  end.
  rewrite write_lines_stop, Hc by exact Hw. cbn [app].
  eexists. split; [reflexivity|]. split.
  - cbn [List.length]. rewrite (Forall2_length Pb). reflexivity.
  - cbn [skipn]. exact Pb.
Qed.

End Write.

End WriteFacts.

Module DumpFacts.

Import PyStr PyInt PyFloat Tangram Spec Demo PyStrFacts PyIntFacts ParseFacts RegexFacts FileFacts Script Props.
Import GeometryFacts ResolveFacts EmitFacts OrderFacts OutcomeFacts EmitMore Pipeline.
Local Open Scope list_scope.

Lemma dump_lines_length P rs :
  List.length (dump_lines P rs) = (List.length rs + List.length (all_x rs))%nat.
Proof.
  unfold dump_lines, all_x. induction rs as [|r rs IH]; [reflexivity|].
  cbn [flat_map]. unfold piece_dump at 1.
  cbn [app List.length]. rewrite !List.length_app, !length_map, IH. cbn [List.length]. unfold point. lia.
Qed.

Lemma piece_labels_free label :
  In label piece_labels -> free_of "010" label.
Proof.
  intros H. cbn in H. repeat (destruct H as [<-|H]; [reflexivity|]). contradiction.
Qed.

Lemma label_line_free label :
  free_of "010" label -> free_of "010" (label ++ ":").
Proof. unfold free_of. intros H. now rewrite forall_chars_app, H. Qed.

Lemma vertex_line_free P v :
  (forall f, free_of "010" (repr P f)) -> free_of "010" (vertex_line P v).
Proof.
  intros H. unfold free_of, vertex_line. rewrite !forall_chars_app.
  rewrite (H (fst v)), (H (snd v)). reflexivity.
Qed.

Lemma dump_lines_free P rs :
  Forall (fun r => free_of "010" (name (base r))) rs ->
  (forall f, free_of "010" (repr P f)) ->
  Forall (free_of "010") (dump_lines P rs).
Proof.
  intros HF Hr. unfold dump_lines. induction HF as [|r rs Hn _ IH]; cbn [flat_map].
  - constructor.
  - apply Forall_app. split; [|exact IH].
    constructor; [now apply label_line_free|].
    apply Forall_map, Forall_forall. intros v _. now apply vertex_line_free.
Qed.

Lemma binary_repr_free f : free_of "010" (binary_repr f).
Proof.
  unfold binary_repr, free_of. destruct (Prim2SF f) as [[]|[]| |s m e]; try reflexivity.
  rewrite !forall_chars_app, !str_without by reflexivity.
  now destruct s.
Qed.

End DumpFacts.

Module ZeroAngle.

Import PyFloat Tangram Spec FloatOrder ResolveFacts Script Props.
Local Open Scope Z_scope.

Lemma SFmul_one a :
  valid_binary a = true ->
  SF64mul a (S754_finite false 4503599627370496 (-52)) = a.
Proof.
  destruct a as [[]|[]| |s m e]; intros V; try reflexivity.
  cbn in V. apply andb_true_iff in V. destruct V as [C B].
  unfold canonical_mantissa in C. apply Z.eqb_eq in C.
  unfold SF64mul, SFmul. rewrite xorb_false_r.
  replace (Pos.mul m 4503599627370496) with (Pos.iter xO m 52)
    by (rewrite Pos.mul_comm; reflexivity).
  unfold binary_round_aux, shr_fexp.
  cbn [Zdigits2]. rewrite digits2_shift52.
  replace (Z.pos (digits2_pos m) + 52 + (e + -52)) with (Z.pos (digits2_pos m) + e) by lia.
  rewrite C. replace (e - (e + -52)) with 52 by lia.
  unfold shr at 1. cbn [shr_record_of_loc]. rewrite iter_shr_52.
  cbn [loc_of_shr_record shr_m round_nearest_even Zdigits2].
  replace (e + -52 + 52) with e by lia.
  rewrite C, Z.sub_diag. cbn [shr shr_record_of_loc shr_m].
  rewrite B. reflexivity.
Qed.

Local Open Scope float_scope.

Lemma mul_one x : x * 1 = x.
Proof.
  apply Prim2SF_inj. rewrite mul_spec.
  change (Prim2SF 1) with (S754_finite false 4503599627370496 (-52)).
  apply SFmul_one, Prim2SF_valid.
Qed.

Lemma mul_zero x : is_number x -> exists s, Prim2SF (x * 0) = S754_zero s.
Proof.
  unfold is_number. rewrite mul_spec. change (Prim2SF 0) with (S754_zero false).
  destruct (Prim2SF x) as [s|s| |s m e]; intros H; try contradiction; cbn; eauto.
Qed.

Lemma round5_zero z s : Prim2SF z = S754_zero s -> round5 z = z.
Proof. intros H. unfold round5. now rewrite H. Qed.

Lemma sub_zero x z s :
  is_number x -> Prim2SF z = S754_zero s ->
  x - z = x \/ both_zero x (x - z).
Proof.
  unfold is_number, both_zero. intros Hx Hz.
  destruct (Prim2SF x) as [sx|sx| |sx m e] eqn:E; try contradiction.
  - right. exists sx. rewrite sub_spec, E, Hz. destruct sx, s; cbn; eauto.
  - left. apply Prim2SF_inj. rewrite sub_spec, E, Hz. reflexivity.
Qed.

Lemma zero_add z y s :
  is_number y -> Prim2SF z = S754_zero s ->
  z + y = y \/ both_zero y (z + y).
Proof.
  unfold is_number, both_zero. intros Hy Hz.
  destruct (Prim2SF y) as [sy|sy| |sy m e] eqn:E; try contradiction.
  - right. exists sy. rewrite add_spec, E, Hz. destruct sy, s; cbn; eauto.
  - left. apply Prim2SF_inj. rewrite add_spec, E, Hz. reflexivity.
Qed.

Lemma _rotate_by_zero P x y :
  is_number x -> is_number y ->
  exists x' y',
    _rotate P x y 0 = Ok (x', y') /\
    (x' = round5 x \/ both_zero x x') /\
    (y' = round5 y \/ both_zero y y').
Proof.
  intros Hx Hy. rewrite _rotate_zero, !mul_one.
  destruct (mul_zero y Hy) as (sy & Zy), (mul_zero x Hx) as (sx & Zx).
  do 2 eexists. split; [reflexivity|]. split.
  - destruct (sub_zero x (y * 0) sy Hx Zy) as [->|B]; [now left|right].
    destruct B as (s & s' & E & E'). rewrite (round5_zero _ _ E'). exists s, s'. auto.
  - destruct (zero_add (x * 0) y sx Hy Zx) as [->|B]; [now left|right].
    destruct B as (s & s' & E & E'). rewrite (round5_zero _ _ E'). exists s, s'. auto.
Qed.

End ZeroAngle.

(** ** Rounding and radians against the specification's words *)

Module RoundFacts.

Import PyFloat Tangram Spec FloatOrder GeometryFacts ResolveFacts.
Local Open Scope list_scope.
Local Open Scope Z_scope.








End RoundFacts.

(** * The claims *)

Import PyStr PyInt PyFloat PyFile Tangram Spec Demo.
Import PyStrFacts PyIntFacts FloatOrder ParseFacts GeometryFacts ResolveFacts EmitFacts.
Import WriteFacts RoundFacts.
Local Open Scope list_scope.

Section Claims.

Local Open Scope float_scope.



(** C2.  For every resolved piece, the vertices are the transformed list
    read cyclically from one of its positions, with no other reordering, and
    the first vertex is the canonical start: no vertex has a smaller x, and
    among the vertices with its x none has a greater y.  When no coordinate
    is NaN this is: the first vertex has the minimum x and, among the
    vertices with that x, the maximum y. *)
Theorem C2_canonical_first_vertex (P : platform) (p : piece) (r : resolved) :
  resolve_piece P p = Ok r ->
  exists T transformed k,
    dict_get shape_templates (name p) = Ok T /\
    transform_vertices P (x p) (y p) (transform p) T [] = Ok transformed /\
    rotation_at k transformed (vertices r) /\
    canonical_start (vertices r) /\
    (no_nan (vertices r) -> min_x_max_y_first (vertices r)).
Proof.
  intros H. pose proof H as H0. unfold resolve_piece in H.
  destruct (dict_get shape_templates (name p)) as [T|] eqn:HT; cbn [bind] in H; [|discriminate].
  destruct (transform_vertices P (x p) (y p) (transform p) T []) as [tr|] eqn:Htr;
    cbn [bind] in H; [|discriminate].
  destruct (resolve_piece_spec P p T tr HT Htr) as (r' & k & Hr & _ & Hk & Hc).
  rewrite H0 in Hr. injection Hr as <-.
  exists T, tr, k. repeat split; try assumption; try apply Hk.
  intros Hn. now apply canonical_start_positive.
Qed.

Lemma C2_witness :
  exists T transformed k,
    dict_get shape_templates (name triangle_piece) = Ok T /\
    transform_vertices poly_platform (x triangle_piece) (y triangle_piece)
                       (transform triangle_piece) T [] = Ok transformed /\
    rotation_at k transformed (vertices triangle_resolved) /\
    canonical_start (vertices triangle_resolved) /\
    (no_nan (vertices triangle_resolved) -> min_x_max_y_first (vertices triangle_resolved)).
Proof.
  apply (C2_canonical_first_vertex poly_platform triangle_piece triangle_resolved).
  vm_compute. reflexivity.
Defined.

(** C7.  Resolving the square template with x-flip set, no y-flip, rotation
    0 and anchor (0,0) yields the transformed points
    (0,0), (-1,0), (-1,1), (0,1) and a final vertex list that starts at
    (-1,1), the one of the two points with x = -1 that has the greater y. *)
Theorem C7_flipped_square (P : platform) :
  transform_vertices P 0 0 (transform square_piece)
                     [(0, 0); (1, 0); (1, 1); (0, 1)] []
  = Ok [(0, 0); (-1, 0); (-1, 1); (0, 1)] /\
  resolve_piece P square_piece
  = Ok {| base := square_piece; vertices := [(-1, 1); (0, 1); (0, 0); (-1, 0)] |}.
Proof.
  split.
  - cbn [transform_vertices transform_vertex square_piece transform rotate xflip yflip].
    rewrite !(_rotate_zero P). vm_compute. reflexivity.
  - unfold resolve_piece.
    cbn [name square_piece dict_get shape_templates String.eqb Ascii.eqb Bool.eqb
         bind x y transform transform_vertices transform_vertex rotate xflip yflip].
    rewrite !(_rotate_zero P). vm_compute. reflexivity.
Qed.

(** C9.  For every list of resolved pieces with at least one vertex, the
    grid that [draw_pieces] writes goes from [(min_x - 2, min_y - 2)] to
    [(max_x + 2, max_y + 2)], where [min_x], [max_x], [min_y] and [max_y]
    are the least and the greatest of the x and of the y coordinates of all
    the vertices of all the pieces: when the file opens and its six first
    writes succeed, the sixth text written is the [\draw ... grid] command
    between these two corners, whatever happens afterwards. *)
Theorem C9_grid_spans_padded_box (P : platform) (w : writing) (rs : list resolved) :
  (exists r, In r rs /\ vertices r <> []) ->
  exists min_x max_x min_y max_y,
    least_coordinate fst rs min_x /\ greatest_coordinate fst rs max_x /\
    least_coordinate snd rs min_y /\ greatest_coordinate snd rs max_y /\
    (open_raises w = None ->
     (forall k, (k <= 5)%nat -> write_raises w k = None) ->
     nth_error (fst (draw_pieces P w rs)) 5
     = Some ("  \draw[step=5mm,gray,very thin] ("
             ++ repr P (min_x - 2) ++ "," ++ repr P (min_y - 2)
             ++ ") grid ("
             ++ repr P (max_x + 2) ++ "," ++ repr P (max_y + 2)
             ++ ");" ++ String "010" EmptyString)%string).
Proof.
  intros H. apply some_vertex in H.
  destruct (grid_corners_spec rs H) as (a & b & c & d & Ha & Hb & Hc & Hd & G).
  exists a, b, c, d.
  split; [exact Ha|]. split; [exact Hb|]. split; [exact Hc|]. split; [exact Hd|].
  intros Ho Hw. rewrite (draw_pieces_written P w rs _ _ _ _ G Ho).
  unfold statements. cbn [app].
  do 6 (rewrite write_lines_step by (apply Hw; lia)).
  apply write_lines_nth. cbn [app nth_error]. f_equal.
  unfold grid_line, format_point, nl. cbn [fst snd].
  rewrite !append_assoc. reflexivity.
Qed.

Lemma C9_witness :
  exists min_x max_x min_y max_y,
    least_coordinate fst seven_resolved min_x /\
    greatest_coordinate fst seven_resolved max_x /\
    least_coordinate snd seven_resolved min_y /\
    greatest_coordinate snd seven_resolved max_y /\
    (open_raises reliable = None ->
     (forall k, (k <= 5)%nat -> write_raises reliable k = None) ->
     nth_error (fst (draw_pieces poly_platform reliable seven_resolved)) 5
     = Some ("  \draw[step=5mm,gray,very thin] ("
             ++ repr poly_platform (min_x - 2) ++ "," ++ repr poly_platform (min_y - 2)
             ++ ") grid ("
             ++ repr poly_platform (max_x + 2) ++ "," ++ repr poly_platform (max_y + 2)
             ++ ");" ++ String "010" EmptyString)%string).
Proof.
  apply (C9_grid_spans_padded_box poly_platform reliable seven_resolved).
  eexists. split; [left; reflexivity|discriminate].
Defined.

End Claims.

(** C3.  A file with eight matching lines does not fail with the message
    of the assertion: the eighth line raises [IndexError] when its label is
    looked up, before the assertion is reached. *)
Theorem C3_eighth_line_raises_IndexError :
  _parse_tex (unlines (seven_lines ++ [extra_line])) = Raise IndexError.
Proof. vm_compute. reflexivity. Qed.

(** C4, as amended.  A line that is not selected or that the pattern does
    not match is skipped: the result of [_parse_tex] is the same as on the
    file without this line, so the line is not counted and the lines after
    it are parsed. *)
Theorem C4_unmatched_line_is_skipped (content content' : string) l1 l l2 :
  unmatched l = true ->
  splitlines content = (l1 ++ l :: l2)%list ->
  splitlines content' = (l1 ++ l2)%list ->
  _parse_tex content = _parse_tex content'.
Proof.
  intros Hl E E'. unfold _parse_tex. rewrite E, E', !parse_file_lines_groups.
  rewrite !matched_groups_app.
  change (l :: l2) with ([l] ++ l2)%list.
  now rewrite matched_groups_app, (matched_groups_unmatched l Hl).
Qed.

Lemma C4_witness :
  _parse_tex (unlines (broken_line :: seven_lines)) = _parse_tex (unlines seven_lines).
Proof.
  apply (C4_unmatched_line_is_skipped _ _ [] broken_line seven_lines);
    vm_compute; reflexivity.
Defined.

(** C4, as stated, fails: a line that matches the pattern and whose x is not
    an integer is not a valid directive, and yet it is not skipped.  With it
    in front of seven valid lines [_parse_tex] raises [ValueError]; without
    it, it succeeds. *)
Lemma C4_counterexample :
  valid_directive bad_anchor_line = false /\
  _parse_tex (unlines (bad_anchor_line :: seven_lines)) = Raise ValueError /\
  _parse_tex (unlines seven_lines) = Ok seven_state.
Proof. repeat split; vm_compute; reflexivity. Qed.

(** C5.  When [_parse_tex] succeeds, the names of the pieces are the seven
    labels in their fixed order, the Nth piece has the options and the
    anchor of the Nth matching line, and a file whose matching lines differ
    only in their piece types gives the same result. *)
Theorem C5_labels_by_position (content : string) (st : parse_state) :
  _parse_tex content = Ok st ->
  map name (pieces st) = piece_labels /\
  Forall2 placed (matched_groups (splitlines content)) (pieces st) /\
  (forall content',
      map untyped (matched_groups (splitlines content'))
      = map untyped (matched_groups (splitlines content)) ->
      _parse_tex content' = Ok st).
Proof.
  unfold _parse_tex. rewrite parse_file_lines_groups.
  destruct (parse_groups _ initial_state) as [st0|] eqn:G; cbn [bind]; [|discriminate].
  destruct (Nat.eqb_spec (piece_index st0) 7) as [E7|]; [|discriminate].
  intros [= <-].
  destruct (parse_groups_ok _ _ _ G) as (new & Hp & HF & Hn & Hi).
  cbn in Hp, Hn, Hi. rewrite Hp. rewrite <- Hi, E7 in Hn. repeat split.
  - exact Hn.
  - exact HF.
  - intros content' Hu. rewrite parse_file_lines_groups.
    rewrite (parse_groups_untyped _ _ _ Hu), G. cbn [bind].
    now rewrite E7.
Qed.

Lemma C5_witness :
  map name (pieces seven_state) = piece_labels /\
  Forall2 placed (matched_groups (splitlines (unlines seven_lines))) (pieces seven_state) /\
  (forall content',
      map untyped (matched_groups (splitlines content'))
      = map untyped (matched_groups (splitlines (unlines seven_lines))) ->
      _parse_tex content' = Ok seven_state).
Proof. apply (C5_labels_by_position (unlines seven_lines) seven_state). vm_compute. reflexivity. Defined.

(** C8.  For every integer [n] of at most 4300 decimal digits, negative
    ones included, parsing the option [rotate=n] stores the rotation
    [n mod 360], as the only option of the list or after any others; for an
    integer of more digits the option is rejected with [ValueError], the
    limit of [int] on the digits of a literal; and [n mod 360] lies in
    [0, 360). *)
Theorem C8_rotate_mod_360 (n : Z) :
  (Z.abs n < 10 ^ 4300 ->
   parse_options (Some (rotate_option n))
   = Ok {| xflip := false; yflip := false; rotate := n mod 360 |} /\
   (forall t, apply_option t (rotate_option n)
              = Ok {| xflip := xflip t; yflip := yflip t; rotate := n mod 360 |})) /\
  (10 ^ 4300 <= Z.abs n ->
   parse_options (Some (rotate_option n)) = Raise ValueError) /\
  0 <= n mod 360 < 360.
Proof.
  assert (J : parse_options (Some (rotate_option n))
              = apply_option no_transformation (rotate_option n)).
  { change (rotate_option n) with (join "," [rotate_option n]) at 1.
    rewrite parse_options_join.
    - cbn [map apply_options]. rewrite rotate_option_strip.
      destruct (apply_option no_transformation (rotate_option n)); reflexivity.
    - constructor. reflexivity.
    - constructor; [apply rotate_option_no_comma|constructor]. }
  split; [|split].
  - intros H. split.
    + rewrite J. now apply apply_option_rotate.
    + intros t. now apply apply_option_rotate.
  - intros H. rewrite J. now apply apply_option_rotate_too_long.
  - apply Z.mod_pos_bound. lia.
Qed.

Lemma C8_witness :
  parse_options (Some (rotate_option (-45)))
  = Ok {| xflip := false; yflip := false; rotate := (-45) mod 360 |} /\
  (forall t, apply_option t (rotate_option (-45))
             = Ok {| xflip := xflip t; yflip := yflip t; rotate := (-45) mod 360 |}).
Proof.
  apply (proj1 (C8_rotate_mod_360 (-45))).
  apply Z.lt_le_trans with (10 ^ 2); [reflexivity|].
  apply Z.pow_le_mono_r; [reflexivity|discriminate].
Defined.

(** C8, as stated, fails: [10^4300] is an integer, [10^4300 mod 360] is in
    [0, 360), and yet the option [rotate=] followed by its 4301 digits gives
    no rotation: [int] raises [ValueError]. *)
Lemma C8_counterexample :
  0 <= (10 ^ 4300) mod 360 < 360 /\
  parse_options (Some (rotate_option (10 ^ 4300))) = Raise ValueError.
Proof.
  split; [apply Z.mod_pos_bound; reflexivity|].
  apply (proj1 (proj2 (C8_rotate_mod_360 (10 ^ 4300)))).
  rewrite Z.abs_eq; [apply Z.le_refl|]. apply Z.pow_nonneg. discriminate.
Qed.

(** C10.  When the option list holds several [rotate=] options, the rotation
    parsed is that of the last one: whatever the options before [rotate=n]
    are, if no [rotate=] option follows it, a list that parses has the
    rotation [n mod 360]; and the list does parse when the options before
    parse and [n] has at most 4300 digits. *)
Theorem C10_last_rotate_wins (before after : list string) (n : Z) :
  Forall comma_free (before ++ after) ->
  Forall (fun o => startswith "rotate=" (strip o) = false) after ->
  (forall t',
      parse_options (Some (join "," (before ++ rotate_option n :: after))) = Ok t' ->
      rotate t' = n mod 360) /\
  (forall t1,
      apply_options no_transformation (map strip before) = Ok t1 ->
      Z.abs n < 10 ^ 4300 ->
      exists t',
        parse_options (Some (join "," (before ++ rotate_option n :: after))) = Ok t' /\
        rotate t' = n mod 360).
Proof.
  intros Hc Ha.
  assert (J : parse_options (Some (join "," (before ++ rotate_option n :: after)))
              = (t1 <- apply_options no_transformation (map strip before) ;;
                 t2 <- apply_option t1 (rotate_option n) ;;
                 apply_options t2 (map strip after))).
  { rewrite parse_options_join.
    - rewrite map_app, apply_options_app. cbn [map apply_options].
      now rewrite rotate_option_strip.
    - apply Exists_app. right. constructor. reflexivity.
    - apply Forall_app in Hc. destruct Hc as [Hc1 Hc2].
      apply Forall_app. split; [exact Hc1|].
      constructor; [apply rotate_option_no_comma|exact Hc2]. }
  assert (A : forall t2, exists t', apply_options t2 (map strip after) = Ok t'
                                    /\ rotate t' = rotate t2).
  { intros t2. apply apply_options_other, Forall_map. exact Ha. }
  split.
  - intros t'. rewrite J.
    destruct (apply_options no_transformation (map strip before)) as [t1|];
      cbn [bind]; [|discriminate].
    rewrite apply_option_rotate_int.
    destruct (int (str n)) as [v|] eqn:I; cbn [bind]; [|discriminate].
    assert (v = n).
    { rewrite int_str_cases in I.
      destruct (Z.abs n <? 10 ^ Z.of_nat max_str_digits)%Z; congruence. }
    subst v. match goal with |- context [apply_options ?t2 _] =>
      destruct (A t2) as (t3 & -> & R) end.
    intros [= <-]. exact R.
  - intros t1 Hb Hn. rewrite J, Hb. cbn [bind].
    rewrite apply_option_rotate by exact Hn. cbn [bind].
    match goal with |- context [apply_options ?t2 _] =>
      destruct (A t2) as (t3 & -> & R) end.
    exists t3. split; [reflexivity|exact R].
Qed.

Lemma C10_witness :
  (forall t',
      parse_options (Some (join "," (["rotate=90"; "xscale=-1"]
                                       ++ rotate_option (-45) :: ["yscale=-1"])%list))
      = Ok t' ->
      rotate t' = (-45) mod 360) /\
  (forall t1,
      apply_options no_transformation (map strip ["rotate=90"; "xscale=-1"]) = Ok t1 ->
      Z.abs (-45) < 10 ^ 4300 ->
      exists t',
        parse_options (Some (join "," (["rotate=90"; "xscale=-1"]
                                         ++ rotate_option (-45) :: ["yscale=-1"])%list))
        = Ok t' /\
        rotate t' = (-45) mod 360).
Proof.
  apply (C10_last_rotate_wins ["rotate=90"; "xscale=-1"] ["yscale=-1"] (-45)).
  - repeat constructor.
  - repeat constructor.
Defined.

(** * Further properties of the program *)

Import Script Props.
Import OptionFacts LoopFacts RegexFacts FileFacts OrderFacts UniqueFacts.
Import OutcomeFacts EmitMore DumpFacts ZeroAngle Pipeline.
Local Open Scope list_scope.

(** ** [_parse_tex] *)

(** X1.  The number of matching lines decides the outcome of [_parse_tex]
    when every matching line has options and an anchor that parse: fewer
    than seven fail the final assertion with the number found, exactly seven
    succeed, and more than seven raise [IndexError]. *)
Theorem X1_count_of_matching_lines (content : string) :
  Forall well_placed (matched_groups (splitlines content)) ->
  let k := List.length (matched_groups (splitlines content)) in
  ((k < 7)%nat ->
   _parse_tex content
   = Raise (AssertionError ("Expected 7 pieces, found " ++ PyInt.str (Z.of_nat k)))) /\
  (k = 7%nat -> exists st, _parse_tex content = Ok st) /\
  ((7 < k)%nat -> _parse_tex content = Raise IndexError).
Proof. intros H. exact (parse_file_lines_count (splitlines content) H). Qed.

Lemma X1_witness :
  let k := List.length (matched_groups (splitlines (unlines seven_lines))) in
  ((k < 7)%nat ->
   _parse_tex (unlines seven_lines)
   = Raise (AssertionError ("Expected 7 pieces, found " ++ PyInt.str (Z.of_nat k)))) /\
  (k = 7%nat -> exists st, _parse_tex (unlines seven_lines) = Ok st) /\
  ((7 < k)%nat -> _parse_tex (unlines seven_lines) = Raise IndexError).
Proof.
  apply (X1_count_of_matching_lines (unlines seven_lines)).
  apply well_placedb_Forall. vm_compute. reflexivity.
Defined.

(** X2.  [_parse_tex] fails in four ways only: with the exception that
    opening or reading the file raises; with [ValueError] (an option or an
    anchor that is not an integer); with [IndexError] (an eighth matching
    line); or on the final assertion, whose message then gives a number of
    pieces below seven. *)
Theorem X2_parse_raises (file : reading) (e : exn) :
  _parse_tex_file file = Raise e ->
  file = Raise e \/
  e = ValueError \/ e = IndexError \/
  exists k, (k < 7)%nat /\
            e = AssertionError ("Expected 7 pieces, found " ++ PyInt.str (Z.of_nat k)).
Proof.
  unfold _parse_tex_file. destruct file as [content|e0]; cbn [bind].
  2:{ intros [= <-]. now left. }
  intros H. right. revert H.
  unfold _parse_tex. rewrite parse_file_lines_groups.
  destruct (parse_groups _ initial_state) as [st0|e0] eqn:G; cbn [bind].
  - destruct (parse_groups_consistent _ _ _ consistent_initial G) as (_ & _ & Hi).
    destruct (Nat.eqb_spec (piece_index st0) 7) as [E7|N7]; [discriminate|].
    intros [= <-]. right. right. exists (piece_index st0). split; [lia|reflexivity].
  - intros [= <-]. destruct (parse_groups_raises _ _ _ G); auto.
Qed.

Lemma X2_witness :
  (Ok (unlines (firstn 4 seven_lines)) : reading)
  = Raise (AssertionError "Expected 7 pieces, found 2") \/
  AssertionError "Expected 7 pieces, found 2" = ValueError \/
  AssertionError "Expected 7 pieces, found 2" = IndexError \/
  exists k, (k < 7)%nat /\
            AssertionError "Expected 7 pieces, found 2"
            = AssertionError ("Expected 7 pieces, found " ++ PyInt.str (Z.of_nat k)).
Proof.
  apply (X2_parse_raises (Ok (unlines (firstn 4 seven_lines)))).
  vm_compute. reflexivity.
Defined.

(** X3.  When [_parse_tex] succeeds there are seven pieces, the table
    [transformations] lists exactly their transformations under their
    names, in order, and looking a piece's name up in the table gives the
    transformation stored in the piece. *)
Theorem X3_table_agrees_with_pieces (content : string) (st : parse_state) :
  _parse_tex content = Ok st ->
  transformations st = table_of (pieces st) /\
  List.length (pieces st) = 7%nat /\
  Forall (fun p => dict_get (transformations st) (name p) = Ok (transform p)) (pieces st).
Proof.
  unfold _parse_tex. rewrite parse_file_lines_groups.
  destruct (parse_groups _ initial_state) as [st0|] eqn:G; cbn [bind]; [|discriminate].
  destruct (Nat.eqb_spec (piece_index st0) 7) as [E7|]; [|discriminate].
  intros [= <-].
  destruct (parse_groups_consistent _ _ _ consistent_initial G) as (Ht & Hn & _).
  assert (Hlen : List.length (pieces st0) = 7%nat).
  { rewrite <- (length_map name), Hn, E7. reflexivity. }
  repeat split; [exact Ht|exact Hlen|].
  rewrite E7 in Hn. change (firstn 7 piece_labels) with piece_labels in Hn.
  rewrite Ht. clear - Hn.
  destruct (pieces st0) as [|p1 [|p2 [|p3 [|p4 [|p5 [|p6 [|p7 [|p8 ps]]]]]]]]; try discriminate.
  injection Hn as H1 H2 H3 H4 H5 H6 H7.
  unfold table_of. cbn [map].
  rewrite H1, H2, H3, H4, H5, H6, H7.
  repeat (constructor;
          [cbv beta;
           first [rewrite H1|rewrite H2|rewrite H3|rewrite H4|rewrite H5|rewrite H6|rewrite H7];
           reflexivity|]).
  constructor.
Qed.

Lemma X3_witness :
  transformations seven_state = table_of (pieces seven_state) /\
  List.length (pieces seven_state) = 7%nat /\
  Forall (fun p => dict_get (transformations seven_state) (name p) = Ok (transform p))
         (pieces seven_state).
Proof.
  apply (X3_table_agrees_with_pieces (unlines seven_lines) seven_state).
  vm_compute. reflexivity.
Defined.

(** X4.  In a non-empty option list, the flags are set by exact options and
    by nothing else: when the list parses, the x-flip is set exactly when
    one of its comma-separated options is, once stripped, the text
    [xscale=-1], and the y-flip exactly when one is [yscale=-1].  A list in
    which no option starts with [rotate=] always parses, to the rotation 0:
    an option that is none of the three is ignored, never an error. *)
Theorem X4_flags_are_exact_tokens (options_str : string) :
  (forall t, parse_options (Some options_str) = Ok t ->
     xflip t = existsb (fun o => String.eqb (strip o) "xscale=-1") (split "," options_str) /\
     yflip t = existsb (fun o => String.eqb (strip o) "yscale=-1") (split "," options_str)) /\
  (Forall (fun o => startswith "rotate=" (strip o) = false) (split "," options_str) ->
   exists t, parse_options (Some options_str) = Ok t /\ rotate t = 0%Z).
Proof.
  unfold parse_options. destruct options_str as [|c s].
  - split.
    + intros t [= <-]. cbn. auto.
    + intros _. exists no_transformation. auto.
  - split.
    + intros t H. pose proof (apply_options_flags _ _ _ H) as [Hx Hy].
      cbn [no_transformation xflip yflip orb] in Hx, Hy. split.
      * rewrite Hx. clear. induction (split "," (String c s)); cbn; congruence.
      * rewrite Hy. clear. induction (split "," (String c s)); cbn; congruence.
    + intros HF.
      destruct (apply_options_other no_transformation
                  (map strip (split "," (String c s)))) as (t & E & R).
      * apply Forall_map. exact HF.
      * exists t. split; [exact E|exact R].
Qed.

Lemma X4_witness :
  exists t, parse_options (Some "yscale=-1, scale=2") = Ok t /\ rotate t = 0%Z.
Proof.
  apply (proj2 (X4_flags_are_exact_tokens "yscale=-1, scale=2")).
  repeat constructor.
Defined.

(** X5.  The value of a [rotate=] option is the text between the first [=]
    and the second one, if there is one: what follows a second [=] is
    ignored, so that [rotate=v=w] is read as [rotate=v], and the option
    stores [int(v) % 360] and keeps the flags, or raises what [int(v)]
    raises. *)
Theorem X5_rotate_value_ends_at_second_equals (t : transformation) (v w : string) :
  free_of "=" v ->
  apply_option t ("rotate=" ++ v ++ "=" ++ w) = apply_option t ("rotate=" ++ v) /\
  apply_option t ("rotate=" ++ v)
  = (n <- PyInt.int v ;;
     Ok {| xflip := xflip t; yflip := yflip t; rotate := n mod 360 |}).
Proof.
  intros Hv. destruct (rotate_value_split v w Hv) as [H1 H2].
  rewrite (apply_option_rotate_value t v ("rotate=" ++ v ++ "=" ++ w) eq_refl H2).
  rewrite (apply_option_rotate_value t v ("rotate=" ++ v) eq_refl H1).
  split; reflexivity.
Qed.

Lemma X5_witness :
  apply_option no_transformation ("rotate=" ++ "90" ++ "=" ++ "45")
  = apply_option no_transformation ("rotate=" ++ "90") /\
  apply_option no_transformation ("rotate=" ++ "90")
  = (n <- PyInt.int "90" ;;
     Ok {| xflip := xflip no_transformation; yflip := yflip no_transformation;
           rotate := n mod 360 |}).
Proof.
  apply (X5_rotate_value_ends_at_second_equals no_transformation "90" "45").
  reflexivity.
Defined.

(** X6.  The pattern finds a directive that starts the text, with or without
    an option list, and returns its four parts as the groups, whatever text
    follows the closing brace: the option list must hold no [>], the x part
    no comma, the y part no closing parenthesis, the type no closing brace,
    and the last three must not be empty. *)
Theorem X6_directive_is_matched (o : option string) (x_coord y_coord piece_type rest : string) :
  delimited o x_coord y_coord piece_type ->
  re_search (directive_text o x_coord y_coord piece_type ++ rest)
  = Some (o, x_coord, y_coord, piece_type).
Proof. intros D. now apply re_search_here, match_here_text. Qed.

Lemma X6_witness :
  re_search (directive_text (Some "rotate=90") "2" "0" "TangGrandTri" ++ "%first")
  = Some (Some "rotate=90", "2", "0", "TangGrandTri").
Proof.
  apply (X6_directive_is_matched (Some "rotate=90") "2" "0" "TangGrandTri" "%first").
  repeat split.
Defined.

(** X7.  Whatever the pattern finds is a directive: when the search returns
    groups, the text is some text, then the directive made of these groups
    (with an option list exactly when the first group is present), then
    some text; and no group is cut short by its closing delimiter, none of
    the last three being empty. *)
Theorem X7_match_is_a_directive (s : string) (o : option string)
        (x_coord y_coord piece_type : string) :
  re_search s = Some (o, x_coord, y_coord, piece_type) ->
  exists before rest,
    s = (before ++ directive_text o x_coord y_coord piece_type ++ rest)%string /\
    delimited o x_coord y_coord piece_type.
Proof. apply re_search_inv. Qed.

Lemma X7_witness :
  exists before rest,
    remove_spaces "  \PieceTangram[TangSol]( 4 , 5 ){TangPara}"
    = (before ++ directive_text None "4" "5" "TangPara" ++ rest)%string /\
    delimited None "4" "5" "TangPara".
Proof.
  apply (X7_match_is_a_directive
           (remove_spaces "  \PieceTangram[TangSol]( 4 , 5 ){TangPara}")
           None "4" "5" "TangPara").
  vm_compute. reflexivity.
Defined.

(** X8.  A file of seven directives, one per line, each written with an
    option list that parses and the decimal text of its integer anchor, of
    at most 4300 digits ([writable]), is parsed back: [_parse_tex] succeeds
    and its pieces bear the seven labels in order, with the anchors and the
    transformations that were written. *)
Theorem X8_written_file_parses_back (ds : list (written * transformation)) :
  List.length ds = 7%nat ->
  Forall (fun dt => writable (fst dt) (snd dt)) ds ->
  exists st,
    _parse_tex (unlines (map (fun dt => write_directive (fst dt)) ds)) = Ok st /\
    pieces st = map placed_piece (combine piece_labels ds).
Proof.
  intros Hlen HF. unfold _parse_tex.
  rewrite splitlines_unlines.
  2:{ apply Forall_map. eapply Forall_impl; [|exact HF]. intros [d t] W. cbn [fst snd] in *.
      generalize (write_directive_solid d t W).
      apply forall_chars_weaken, linebreak_is_space. }
  rewrite parse_file_lines_groups, (matched_written ds HF).
  destruct (parse_groups_written ds initial_state HF) as (st & -> & Hp & Hi);
    [cbn; lia|].
  cbn [bind]. cbn [piece_index initial_state Nat.add] in Hi. rewrite Hi, Hlen.
  cbn [Nat.eqb]. exists st. split; [reflexivity|exact Hp].
Qed.

Lemma X8_witness :
  exists st,
    _parse_tex (unlines (map (fun dt => write_directive (fst dt)) seven_written)) = Ok st /\
    pieces st = map placed_piece (combine piece_labels seven_written).
Proof.
  apply (X8_written_file_parses_back seven_written).
  - reflexivity.
  - repeat constructor.
Defined.

(** X18.  Every piece of a parsed file has a rotation in [0, 360),
    whatever integers, negative or large, the file gives to [rotate=], and
    bears one of the seven labels. *)
Theorem X18_parsed_rotations_in_range (content : string) (st : parse_state) :
  _parse_tex content = Ok st ->
  Forall (fun p => In (name p) piece_labels /\ (0 <= rotate (transform p) < 360)%Z)
         (pieces st).
Proof. apply parsed_pieces_invariant. Qed.

Lemma X18_witness :
  Forall (fun p => In (name p) piece_labels /\ (0 <= rotate (transform p) < 360)%Z)
         (pieces seven_state).
Proof.
  apply (X18_parsed_rotations_in_range (unlines seven_lines) seven_state).
  vm_compute. reflexivity.
Defined.

(** ** [_rotate] and [_compute_vertices] *)

(** X9.  A rotation by 0 degrees only rounds: for coordinates that are
    numbers (not infinite, not NaN), [_rotate(x, y, 0)] is
    [(round(x, 5), round(y, 5))], up to the sign of a zero coordinate. *)
Theorem X9_rotate_by_zero (P : platform) (x y : float) :
  is_number x -> is_number y ->
  exists x' y',
    _rotate P x y 0 = Ok (x', y') /\
    (x' = round5 x \/ both_zero x x') /\
    (y' = round5 y \/ both_zero y y').
Proof. apply _rotate_by_zero. Qed.

Lemma X9_witness :
  exists x' y',
    _rotate poly_platform 1.5%float 1%float 0 = Ok (x', y') /\
    (x' = round5 1.5%float \/ both_zero 1.5%float x') /\
    (y' = round5 1%float \/ both_zero 1%float y').
Proof.
  apply (X9_rotate_by_zero poly_platform 1.5%float 1%float); exact I.
Defined.

(** X10.  The outcomes of resolving one piece whose rotation is in
    [0, 360): it succeeds exactly when the name is one of the seven labels
    and the anchor converts to floats; a name that is not a label raises
    [KeyError], before the anchor is looked at; a label with an anchor too
    large for a float raises [OverflowError]. *)
Theorem X10_resolve_piece_outcomes (P : platform) (p : piece) :
  (0 <= rotate (transform p) < 360)%Z ->
  ((In (name p) piece_labels /\ convertible p) <-> exists r, resolve_piece P p = Ok r) /\
  (~ In (name p) piece_labels -> resolve_piece P p = Raise KeyError) /\
  (In (name p) piece_labels -> ~ convertible p -> resolve_piece P p = Raise OverflowError).
Proof.
  intros Hrot. split; [split|split].
  - intros [Hn Hc]. destruct (resolve_piece_total P p Hn Hrot Hc) as (T & r & _ & H & _).
    eauto.
  - intros (r & H). destruct (resolve_piece_ok P p r H) as (T & _ & Hn & Hc & _). auto.
  - intros Hn. destruct (resolve_piece P p) as [r|e] eqn:H.
    + destruct (resolve_piece_ok P p r H) as (T & _ & Hn' & _). contradiction.
    + destruct (resolve_piece_raises P p e H) as [[-> _]|[_ Hn']]; [reflexivity|contradiction].
  - intros Hn Hc. destruct (resolve_piece P p) as [r|e] eqn:H.
    + destruct (resolve_piece_ok P p r H) as (T & _ & _ & Hc' & _). contradiction.
    + destruct (resolve_piece_raises P p e H) as [[_ Hn']|[-> _]]; [contradiction|reflexivity].
Qed.

Lemma X10_witness :
  ((In (name triangle_piece) piece_labels /\ convertible triangle_piece)
   <-> exists r, resolve_piece poly_platform triangle_piece = Ok r) /\
  (~ In (name triangle_piece) piece_labels ->
   resolve_piece poly_platform triangle_piece = Raise KeyError) /\
  (In (name triangle_piece) piece_labels -> ~ convertible triangle_piece ->
   resolve_piece poly_platform triangle_piece = Raise OverflowError).
Proof.
  apply (X10_resolve_piece_outcomes poly_platform triangle_piece). cbn. lia.
Defined.

(** X11.  The ordering step of [_compute_vertices] ([min], [index] and the
    slices) is idempotent and only permutes: applied to its own result it
    returns it unchanged, and its result has the points of its argument. *)
Theorem X11_canonical_order_idempotent (l l' : list point) :
  canonical_order l = Ok l' ->
  canonical_order l' = Ok l' /\ Permutation l l'.
Proof.
  intros H. destruct l as [|a l]; [discriminate|].
  destruct (canonical_order_spec (a :: l)) as (k & f & rest & E & Hk & Hr & Hleast);
    [discriminate|].
  rewrite E in H. injection H as <-. split.
  - now apply canonical_order_fixed.
  - rewrite Hr. apply rotation_permutation.
Qed.

Lemma X11_witness :
  canonical_order [(-1, 1); (0, 1); (0, 0); (-1, 0)]%float
  = Ok [(-1, 1); (0, 1); (0, 0); (-1, 0)]%float /\
  Permutation [(0, 0); (-1, 0); (-1, 1); (0, 1)]%float
              [(-1, 1); (0, 1); (0, 0); (-1, 0)]%float.
Proof.
  apply (X11_canonical_order_idempotent
           [(0, 0); (-1, 0); (-1, 1); (0, 1)]%float [(-1, 1); (0, 1); (0, 0); (-1, 0)]%float).
  vm_compute. reflexivity.
Defined.

(** X12.  The ordering step does not depend on where the list of points
    starts: when one point [f] is strictly before all the others in the
    order of [min]'s key, the list [a ++ f :: b] and every list obtained by
    reading it cyclically from another position are put in the same order,
    [f :: b ++ a]. *)
Theorem X12_canonical_order_of_rotations (a b : list point) (f : point) (n : nat) :
  strictly_first f (a ++ b) ->
  canonical_order (a ++ f :: b) = Ok (f :: b ++ a) /\
  canonical_order (skipn n (a ++ f :: b) ++ firstn n (a ++ f :: b)) = Ok (f :: b ++ a).
Proof.
  intros H. split; [now apply canonical_order_strict|].
  destruct (rotation_split a b f n) as (a' & b' & -> & E & Hp).
  rewrite <- E. apply canonical_order_strict.
  intros v Hv. apply H. apply (Permutation_in _ Hp Hv).
Qed.

Lemma X12_witness :
  let a := [(0, 0); (-1, 0)]%float in
  let b := [(0, 1)]%float in
  let f := (-1, 1)%float in
  canonical_order (a ++ f :: b) = Ok (f :: b ++ a) /\
  canonical_order (skipn 3 (a ++ f :: b) ++ firstn 3 (a ++ f :: b)) = Ok (f :: b ++ a).
Proof.
  apply (X12_canonical_order_of_rotations
           [(0, 0); (-1, 0)]%float [(0, 1)]%float (-1, 1)%float 3).
  intros v [<-|[<-|[<-|[]]]]; vm_compute; reflexivity.
Defined.

(** X13.  A constructed puzzle has the vertices of its templates: three for
    each of the five triangles, four for the square and four for the
    parallelogram, in the order of the labels. *)
Theorem X13_vertex_counts (P : platform) (content : string) (rs : list resolved) :
  TangramPuzzle P content = Ok rs ->
  map (fun r => List.length (vertices r)) rs = [3; 3; 3; 3; 3; 4; 4]%nat.
Proof.
  intros H. pose proof H as H0. unfold TangramPuzzle in H.
  destruct (_parse_tex content) as [st|] eqn:Hp; cbn [bind] in H; [|discriminate].
  pose proof (_compute_vertices_ok P _ _ H) as (_ & Hc & _).
  destruct (TangramPuzzle_total P content st Hp Hc) as (rs' & _ & H' & Hb & Hn & _).
  rewrite H0 in H'. injection H' as <-.
  assert (N : map name (pieces st) = piece_labels) by (rewrite <- Hb, map_map; exact Hn).
  rewrite (_compute_vertices_sizes P _ _ H), N. reflexivity.
Qed.

Lemma X13_witness :
  map (fun r => List.length (vertices r)) seven_resolved = [3; 3; 3; 3; 3; 4; 4]%nat.
Proof.
  apply (X13_vertex_counts poly_platform (unlines seven_lines) seven_resolved).
  vm_compute. reflexivity.
Defined.

(** ** [__init__] *)

(** X14.  Once the file has parsed, the constructor succeeds exactly when
    the anchor of every piece converts to floats; its pieces are then the
    parsed ones, in order and under the seven labels; and the only
    exception [_compute_vertices] can raise is [OverflowError]: in
    particular the lookup of a template never fails on a parsed piece. *)
Theorem X14_construction (P : platform) (content : string) (st : parse_state) :
  _parse_tex content = Ok st ->
  (Forall convertible (pieces st) <-> exists rs, TangramPuzzle P content = Ok rs) /\
  (forall rs, TangramPuzzle P content = Ok rs ->
     map base rs = pieces st /\ map (fun r => name (base r)) rs = piece_labels) /\
  (forall e, TangramPuzzle P content = Raise e -> e = OverflowError).
Proof.
  intros Hp. pose proof (parsed_pieces_invariant _ _ Hp) as Hinv.
  unfold TangramPuzzle. rewrite Hp. cbn [bind]. split; [|split].
  - split.
    + intros Hc. destruct (TangramPuzzle_total P content st Hp Hc) as (rs & _ & H & _).
      unfold TangramPuzzle in H. rewrite Hp in H. eauto.
    + intros (rs & H). now apply _compute_vertices_ok in H.
  - intros rs H. pose proof (_compute_vertices_ok P _ _ H) as (Hb & Hc & _).
    split; [exact Hb|].
    destruct (TangramPuzzle_total P content st Hp Hc) as (rs' & _ & H' & _ & Hn & _).
    unfold TangramPuzzle in H'. rewrite Hp in H'. cbn [bind] in H'. congruence.
  - intros e H. apply (_compute_vertices_raises P _ e) in H; [exact H|].
    eapply Forall_impl; [|exact Hinv]. cbn. tauto.
Qed.

Lemma X14_witness :
  (Forall convertible (pieces seven_state)
   <-> exists rs, TangramPuzzle poly_platform (unlines seven_lines) = Ok rs) /\
  (forall rs, TangramPuzzle poly_platform (unlines seven_lines) = Ok rs ->
     map base rs = pieces seven_state /\ map (fun r => name (base r)) rs = piece_labels) /\
  (forall e, TangramPuzzle poly_platform (unlines seven_lines) = Raise e -> e = OverflowError).
Proof.
  apply (X14_construction poly_platform (unlines seven_lines) seven_state).
  vm_compute. reflexivity.
Defined.

(** ** [draw_pieces], [__str__] and the statements of the module *)

(** X15.  The outcomes of [draw_pieces] on any list of pieces, whatever the
    file system answers.  With no vertex at all (no piece, or pieces without
    vertices) it raises [ValueError], from [min] of an empty list, before
    the file is opened.  When it raises, it is this [ValueError], or the
    exception of opening the file, of a write or of closing the file, or
    [IndexError] on a piece without vertices.  When no operation on the file
    fails and the first piece without vertices comes after the pieces
    [before], the seven first lines and the paths of [before] have been
    written when [IndexError] is raised.  When it returns, it has written
    [9 + n] lines for [n] pieces: seven lines, then for each piece, in
    order, the path through its vertices closed on the first one, then the
    two closing lines; and it does return when no operation on the file
    fails and every piece of a non-empty list has a vertex. *)
Theorem X15_draw_pieces_outcomes (P : platform) (w : writing) (rs : list resolved) :
  (Forall (fun r => vertices r = []) rs -> draw_pieces P w rs = ([], Raise ValueError)) /\
  (forall written e, draw_pieces P w rs = (written, Raise e) ->
     (e = ValueError /\ Forall (fun r => vertices r = []) rs /\ written = []) \/
     open_raises w = Some e \/
     (exists k, write_raises w k = Some e) \/
     close_raises w = Some e \/
     (e = IndexError /\ Exists (fun r => vertices r = []) rs)) /\
  (never_fails w ->
   forall before r after,
     rs = before ++ r :: after ->
     (exists r', In r' rs /\ vertices r' <> []) ->
     Forall (fun r' => vertices r' <> []) before ->
     vertices r = [] ->
     exists written,
       draw_pieces P w rs = (written, Raise IndexError) /\
       List.length written = (7 + List.length before)%nat /\
       paths_of P before (skipn 7 written)) /\
  (forall written, draw_pieces P w rs = (written, Ok tt) ->
     List.length written = (9 + List.length rs)%nat /\
     paths_of P rs (firstn (List.length rs) (skipn 7 written)) /\
     skipn (7 + List.length rs) written
     = [ ("\end{tikzpicture}" ++ nl)%string; ("\end{document}" ++ nl)%string ]) /\
  (never_fails w -> rs <> [] -> Forall (fun r => vertices r <> []) rs ->
   exists written, draw_pieces P w rs = (written, Ok tt)).
Proof.
  split; [|split; [|split; [|split]]].
  - intros H. apply all_x_empty_iff in H. unfold draw_pieces.
    now rewrite grid_corners_empty.
  - intros written e D. destruct (draw_pieces_raises P w rs written e D)
      as [(-> & Hx & ->)|[H|[H|[H|H]]]]; auto.
    left. split; [reflexivity|]. split; [now apply all_x_empty_iff|reflexivity].
  - intros Hw before r after -> Hv Hb Hr. apply some_vertex in Hv.
    now apply draw_pieces_stops.
  - intros written D. apply draw_pieces_returns in D. now apply picture_ok.
  - intros Hw Hne Hv.
    destruct (picture_grid P rs Hne Hv) as (? & ? & ? & ? & out & _ & _ & _ & _ & _ & Hd & _).
    exists out. now apply draw_pieces_reliable.
Qed.

(** X16.  The text of [__str__] has one line for each piece, its name and a
    colon, followed by one line for each of its vertices: when no name and
    no printed float holds a newline, splitting the text at the newlines
    gives back these lines, as many as there are pieces and vertices. *)
Theorem X16_dump_one_line_each (P : platform) (rs : list resolved) :
  rs <> [] ->
  Forall (fun r => free_of "010" (name (base r))) rs ->
  (forall f, free_of "010" (repr P f)) ->
  split "010" (__str__ P rs) = dump_lines P rs /\
  List.length (dump_lines P rs) = (List.length rs + List.length (all_x rs))%nat.
Proof.
  intros Hne Hn Hr. split; [|apply dump_lines_length].
  unfold __str__, nl. apply split_join.
  - destruct rs as [|r rs]; [congruence|]. discriminate.
  - apply dump_lines_free; assumption.
Qed.

Lemma X16_witness :
  split "010" (__str__ poly_platform seven_resolved) = dump_lines poly_platform seven_resolved /\
  List.length (dump_lines poly_platform seven_resolved)
  = (List.length seven_resolved + List.length (all_x seven_resolved))%nat.
Proof.
  apply (X16_dump_one_line_each poly_platform seven_resolved).
  - discriminate.
  - repeat constructor.
  - exact binary_repr_free.
Defined.

(** X17.  The statements at the end of the module fail only in the
    constructor or on the file system.  When the constructor returns and no
    operation on the standard output or on the output file fails, the seven
    pieces are printed, [_rotate(1, 0, 90)] and [draw_pieces] raise nothing,
    and sixteen lines are written.  When the program raises, the exception
    is the constructor's, and nothing has been printed or written; or it is
    the one of [print], of opening the output file, of a write or of closing
    it: on a constructed puzzle [draw_pieces] raises nothing of its own. *)
Theorem X17_script_fails_only_in_constructor (P : platform) (env : world) :
  (forall rs, TangramPuzzle_file P (kangaroo env) = Ok rs ->
     print_raises env = None -> never_fails (pieces_output env) ->
     exists out, script P env = ((__str__ P rs ++ nl)%string, out, Ok tt) /\
                 List.length rs = 7%nat /\ List.length out = 16%nat) /\
  (forall printed written e, script P env = (printed, written, Raise e) ->
     (TangramPuzzle_file P (kangaroo env) = Raise e /\
      printed = EmptyString /\ written = []) \/
     (print_raises env = Some e /\ printed = EmptyString /\ written = []) \/
     open_raises (pieces_output env) = Some e \/
     (exists k, write_raises (pieces_output env) k = Some e) \/
     close_raises (pieces_output env) = Some e).
Proof.
  assert (A : forall rs, TangramPuzzle_file P (kangaroo env) = Ok rs ->
              exists out, picture P rs = Ok out /\
                          List.length rs = 7%nat /\ List.length out = 16%nat).
  { intros rs H. unfold TangramPuzzle_file, _parse_tex_file in H.
    destruct (kangaroo env) as [content|]; cbn [bind] in H; [|discriminate].
    destruct (_parse_tex content) as [st|] eqn:Hp; cbn [bind] in H; [|discriminate].
    pose proof (_compute_vertices_ok P _ _ H) as (Hb & Hc & _).
    destruct (TangramPuzzle_total P content st Hp Hc) as (rs' & out & H' & _ & Hn & Hd).
    unfold TangramPuzzle in H'. rewrite Hp in H'. cbn [bind] in H'.
    rewrite H in H'. injection H' as <-.
    assert (L : List.length rs = 7%nat).
    { rewrite <- (length_map (fun r => name (base r))), Hn. reflexivity. }
    exists out. repeat split; [exact Hd|exact L|].
    destruct (picture_ok P rs out Hd) as (-> & _). now rewrite L. }
  destruct (radians_in_range 90 ltac:(lia)) as (theta & Hth).
  assert (R : exists xy, _rotate P 1 0 90 = Ok xy).
  { unfold _rotate. rewrite Hth. cbn [bind]. eauto. }
  destruct R as (xy & R). split.
  - intros rs H Hp Hw. destruct (A rs H) as (out & Hd & L & Lo). exists out.
    unfold script. rewrite H, Hp, R.
    rewrite (draw_pieces_reliable P _ rs out Hw Hd). auto.
  - intros printed written e. unfold script.
    destruct (TangramPuzzle_file P (kangaroo env)) as [rs|e0] eqn:H.
    2:{ intros [= <- <- <-]. auto. }
    destruct (print_raises env) as [e1|] eqn:Hp.
    { intros [= <- <- <-]. auto. }
    rewrite R.
    destruct (draw_pieces P (pieces_output env) rs) as [wr r] eqn:D.
    intros [= _ -> ->].
    destruct (A rs eq_refl) as (out & Hd & _).
    destruct (draw_pieces_raises P _ rs written e D)
      as [(-> & Hx & ->)|[Ho|[Hk|[Hc|(-> & He)]]]]; auto; exfalso.
    + unfold picture in Hd. rewrite (grid_corners_empty rs Hx) in Hd. discriminate.
    + destruct (picture_ok P rs out Hd) as (_ & F & _).
      apply paths_of_not_empty in F. apply Exists_exists in He.
      destruct He as (r0 & Hr & E). rewrite Forall_forall in F. now apply (F r0 Hr).
Qed.
